(** * Battleship: board model and targeting engine

    A shallow embedding of [board.py] and [ai.py].  Python lists are Rocq
    lists indexed through [py_get]/[py_set], which fail (return [None]) exactly
    where Python raises [IndexError]; Python sets of cells are [gset (Z * Z)];
    [for] loops are folds in the option monad. *)

From stdpp Require Import base tactics option list numbers gmap sorting.
From Stdlib Require Import ZArith Lia QArith.

Local Open Scope Z_scope.
Set Warnings "-clear-no-such-hyp".

(** ** Python primitives *)

(** Index normalisation of [l[i]]: negative indices count from the end, and
    anything outside [-len, len) raises. *)
Definition py_index (len : nat) (i : Z) : option nat :=
  if decide (0 ≤ i) then
    if decide (i < Z.of_nat len) then Some (Z.to_nat i) else None
  else
    if decide (- Z.of_nat len ≤ i) then Some (Z.to_nat (Z.of_nat len + i)) else None.

Definition py_get {A} (l : list A) (i : Z) : option A :=
  n ← py_index (length l) i; l !! n.

Definition py_set {A} (l : list A) (i : Z) (x : A) : option (list A) :=
  n ← py_index (length l) i; Some (<[n:=x]> l).

(** [range(n)] *)
Definition range (n : Z) : list Z := seqZ 0 n.

(** [for x in xs: s = body(x, s)], where the body may raise. *)
Fixpoint for_each {A S} (xs : list A) (body : A → S → option S) (s : S) : option S :=
  match xs with
  | [] => Some s
  | x :: xs' => s' ← body x s; for_each xs' body s'
  end.

(** [g[r][c]] and [g[r][c] = v] on a list of rows. *)
Definition grid_get {A} (g : list (list A)) (r c : Z) : option A :=
  row ← py_get g r; py_get row c.

Definition grid_set {A} (g : list (list A)) (r c : Z) (v : A) : option (list (list A)) :=
  row ← py_get g r; row' ← py_set row c v; py_set g r row'.

(** [[[v for _ in range(size)] for _ in range(size)]] *)
Definition make_grid {A} (size : Z) (v : A) : list (list A) :=
  replicate (Z.to_nat size) (replicate (Z.to_nat size) v).

(** A [size]-by-[size] list of rows. *)
Definition wf_grid {A} (size : Z) (g : list (list A)) : Prop :=
  0 ≤ size ∧ length g = Z.to_nat size ∧ Forall (λ row, length row = Z.to_nat size) g.

Definition inb (size r c : Z) : Prop := 0 ≤ r < size ∧ 0 ≤ c < size.

(** ** board.py *)

Definition EMPTY : Z := 0.
Definition SHIP : Z := 1.
Definition HIT : Z := 2.
Definition MISS : Z := 3.
Definition UNKNOWN : Z := -1.

Record Ship := mkShip {
  ship_length : Z;
  ship_cells : list (Z * Z);
  ship_hits : Z
}.

Definition sunk (s : Ship) : bool := bool_decide (ship_length s ≤ ship_hits s).

Record Board := mkBoard {
  board_size : Z;
  board_grid : list (list Z);
  board_ships : list Ship;
  total_ship_cells : Z
}.

Definition in_bounds (b : Board) (r c : Z) : bool :=
  bool_decide (0 ≤ r < board_size b) && bool_decide (0 ≤ c < board_size b).

Definition all_ships_sunk (b : Board) : bool :=
  forallb sunk (board_ships b) && bool_decide (0 < length (board_ships b))%nat.

Record ShotReport := mkReport {
  hit : bool;
  sunk_length : option Z;
  game_over : bool
}.

(** The loop over [self.ships] in [receive_shot]: the first ship that owns
    the cell gets one more hit, and the loop breaks there. *)
Fixpoint hit_ship (rc : Z * Z) (ss : list Ship) : option Z * list Ship :=
  match ss with
  | [] => (None, [])
  | s :: rest =>
      if decide (rc ∈ ship_cells s) then
        let s' := mkShip (ship_length s) (ship_cells s) (ship_hits s + 1) in
        ((if sunk s' then Some (ship_length s') else None), s' :: rest)
      else
        let '(sl, rest') := hit_ship rc rest in (sl, s :: rest')
  end.

Definition receive_shot (b : Board) (r c : Z) : option (ShotReport * Board) :=
  if negb (in_bounds b r c) then
    Some (mkReport false None (all_ships_sunk b), b)
  else
    cell ← grid_get (board_grid b) r c;
    if bool_decide (cell = HIT ∨ cell = MISS) then
      Some (mkReport false None (all_ships_sunk b), b)
    else if bool_decide (cell = SHIP) then
      g' ← grid_set (board_grid b) r c HIT;
      let '(sl, ships') := hit_ship (r, c) (board_ships b) in
      let b' := mkBoard (board_size b) g' ships' (total_ship_cells b) in
      Some (mkReport true sl (all_ships_sunk b'), b')
    else
      g' ← grid_set (board_grid b) r c MISS;
      let b' := mkBoard (board_size b) g' (board_ships b) (total_ship_cells b) in
      Some (mkReport false None (all_ships_sunk b'), b').

(** The body of the double loop of [get_ai_knowledge]. *)
Definition knowledge_cell (g : list (list Z)) (r c : Z) (view : list (list Z))
  : option (list (list Z)) :=
  cell ← grid_get g r c;
  if bool_decide (cell = HIT) then grid_set view r c HIT
  else
    cell2 ← grid_get g r c;
    if bool_decide (cell2 = MISS) then grid_set view r c MISS
    else grid_set view r c (-1).

Definition get_ai_knowledge (b : Board) : option (list (list Z)) :=
  for_each (range (board_size b))
    (λ r, for_each (range (board_size b)) (λ c, knowledge_cell (board_grid b) r c))
    (make_grid (board_size b) (-1)).

(** ** constants.py *)

Definition GRID_SIZE : Z := 10.
Definition STANDARD_SHIPS : list Z := [5; 4; 3; 3; 2].

(** ** ai.py *)

(** [xs or d] on an optional list argument: [None] and [[]] are both falsy. *)
Definition py_or {A} (xs : option (list A)) (d : list A) : list A :=
  match xs with
  | Some (x :: l) => x :: l
  | _ => d
  end.

(** [min(xs)] and [max(xs)]; both raise on an empty sequence. *)
Definition py_min (xs : list Z) : option Z :=
  match xs with
  | [] => None
  | x :: l => Some (foldl Z.min x l)
  end.

Definition py_max (xs : list Z) : option Z :=
  match xs with
  | [] => None
  | x :: l => Some (foldl Z.max x l)
  end.

(** [l[:k]] *)
Definition py_take {A} (k : Z) (l : list A) : list A :=
  if decide (0 ≤ k) then take (Z.to_nat k) l
  else take (Z.to_nat (Z.of_nat (length l) + k)) l.

(** [sum(sum(row) for row in heat)] *)
Definition grid_total (heat : list (list Z)) : Z :=
  foldr Z.add 0 (foldr Z.add 0 <$> heat).

(** The cells of a [size]-by-[size] grid in row-major order, the order in
    which [for r in range(size): for c in range(size)] visits them. *)
Definition all_cells (size : Z) : list (Z * Z) :=
  r ← range size; pair r <$> range size.

Record BattleshipAI := mkAI {
  ai_size : Z;
  remaining_ships : list Z
}.

Definition new_ai (size : Z) (ships : option (list Z)) : BattleshipAI :=
  mkAI size (py_or ships STANDARD_SHIPS).

Fixpoint list_remove_first (x : Z) (l : list Z) : list Z :=
  match l with
  | [] => []
  | y :: l' => if decide (y = x) then l' else y :: list_remove_first x l'
  end.

Definition notify_sunk (ai : BattleshipAI) (length : Z) : BattleshipAI :=
  if decide (length ∈ remaining_ships ai)
  then mkAI (ai_size ai) (list_remove_first length (remaining_ships ai))
  else ai.

Inductive Orient := OrH | OrV.

#[global] Instance Orient_eq_dec : EqDecision Orient.
Proof. solve_decision. Defined.

(** A hit cluster: its cells and its orientation ['h'], ['v'] or [None]. *)
Abbreviation cluster := (gset (Z * Z) * option Orient)%type.

(** [((1, 0), (-1, 0), (0, 1), (0, -1))] *)
Definition DIRS : list (Z * Z) := [(1, 0); (-1, 0); (0, 1); (0, -1)].

Definition place_row (r : Z) (horizontal : bool) (i : Z) : Z :=
  r + (if horizontal then 0 else i).
Definition place_col (c : Z) (horizontal : bool) (i : Z) : Z :=
  c + (if horizontal then i else 0).

Fixpoint valid_placement_loop (size : Z) (knowledge : list (list Z)) (r c : Z)
    (horizontal : bool) (steps : list Z) : option bool :=
  match steps with
  | [] => Some true
  | i :: steps' =>
      let rr := place_row r horizontal i in
      let cc := place_col c horizontal i in
      if bool_decide (rr < 0 ∨ size ≤ rr ∨ cc < 0 ∨ size ≤ cc) then Some false
      else
        cell ← grid_get knowledge rr cc;
        if bool_decide (cell = MISS) then Some false
        else valid_placement_loop size knowledge r c horizontal steps'
  end.

Definition valid_placement_on_knowledge (ai : BattleshipAI) (knowledge : list (list Z))
    (r c length : Z) (horizontal : bool) : option bool :=
  valid_placement_loop (ai_size ai) knowledge r c horizontal (range length).

(** One direction of the neighbour loop of the flood fill. *)
Definition dfs_neighbor (size : Z) (knowledge : list (list Z)) (rr cc : Z) (d : Z * Z)
    (st : list (list bool) * list (Z * Z)) : option (list (list bool) * list (Z * Z)) :=
  let '(visited, stack) := st in
  let nr := rr + d.1 in
  let nc := cc + d.2 in
  if bool_decide (0 ≤ nr < size) && bool_decide (0 ≤ nc < size) then
    v ← grid_get visited nr nc;
    if negb v then
      cell ← grid_get knowledge nr nc;
      if bool_decide (cell = HIT) then
        visited' ← grid_set visited nr nc true;
        Some (visited', (nr, nc) :: stack)
      else Some st
    else Some st
  else Some st.

(** [while stack: ...]; the head of [stack] is the top (Python's last
    element).  [fuel] bounds the number of iterations. *)
Fixpoint dfs_loop (fuel : nat) (size : Z) (knowledge : list (list Z))
    (visited : list (list bool)) (stack : list (Z * Z)) (comp : gset (Z * Z))
  : option (list (list bool) * gset (Z * Z)) :=
  match stack with
  | [] => Some (visited, comp)
  | (rr, cc) :: stack' =>
      match fuel with
      | O => None
      | S fuel' =>
          st ← for_each DIRS (dfs_neighbor size knowledge rr cc) (visited, stack');
          dfs_loop fuel' size knowledge st.1 st.2 ({[(rr, cc)]} ∪ comp)
      end
  end.

Definition infer_orientation (comp : gset (Z * Z)) : option Orient :=
  if decide (2 ≤ size comp)%nat then
    let rows : gset Z := set_map fst comp in
    let cols : gset Z := set_map snd comp in
    if decide (size rows = 1%nat) then Some OrH
    else if decide (size cols = 1%nat) then Some OrV
    else None
  else None.

Definition hit_clusters_cell (size : Z) (knowledge : list (list Z)) (r c : Z)
    (st : list (list bool) * list cluster) : option (list (list bool) * list cluster) :=
  let '(visited, clusters) := st in
  cell ← grid_get knowledge r c;
  if bool_decide (cell = HIT) then
    v ← grid_get visited r c;
    if negb v then
      visited1 ← grid_set visited r c true;
      res ← dfs_loop (Z.to_nat (size * size)) size knowledge visited1 [(r, c)] ∅;
      Some (res.1, clusters ++ [(res.2, infer_orientation res.2)])
    else Some st
  else Some st.

Definition hit_clusters (ai : BattleshipAI) (knowledge : list (list Z))
  : option (list cluster) :=
  let size := ai_size ai in
  st ← for_each (range size)
         (λ r, for_each (range size) (hit_clusters_cell size knowledge r))
         (make_grid size false, []);
  Some st.2.

Definition placement_cells (r c length : Z) (horizontal : bool) : list (Z * Z) :=
  (λ i, (place_row r horizontal i, place_col c horizontal i)) <$> range length.

Fixpoint consistent_loop (cells_set : gset (Z * Z)) (length : Z) (horizontal : bool)
    (clusters : list cluster) (intersected : Z) : bool :=
  match clusters with
  | [] => true
  | (comp, orient) :: rest =>
      if decide (cells_set ∩ comp = ∅) then
        consistent_loop cells_set length horizontal rest intersected
      else if decide (length < Z.of_nat (size comp)) then false
      else
        let intersected' := intersected + 1 in
        if negb (bool_decide (comp ⊆ cells_set)) then false
        else if bool_decide (orient = Some OrH) && negb horizontal then false
        else if bool_decide (orient = Some OrV) && horizontal then false
        else if decide (1 < intersected') then false
        else consistent_loop cells_set length horizontal rest intersected'
  end.

Definition placement_consistent_with_clusters (cells : list (Z * Z))
    (clusters : list cluster) (length : Z) (horizontal : bool) : bool :=
  consistent_loop (list_to_set cells) length horizontal clusters 0.

(** [heat[r][c] += d] *)
Definition grid_add (heat : list (list Z)) (r c d : Z) : option (list (list Z)) :=
  v ← grid_get heat r c; grid_set heat r c (v + d).

(** The body of the origin loops of [heatmap]: test the placement and, when
    it survives, add one to each covered cell. *)
Definition try_placement (ai : BattleshipAI) (knowledge : list (list Z))
    (clusters : list cluster) (length : Z) (horizontal : bool) (r c : Z)
    (heat : list (list Z)) : option (list (list Z)) :=
  ok ← valid_placement_on_knowledge ai knowledge r c length horizontal;
  if (ok : bool) then
    let cells := placement_cells r c length horizontal in
    if placement_consistent_with_clusters cells clusters length horizontal then
      for_each (range length)
        (λ i h, grid_add h (place_row r horizontal i) (place_col c horizontal i) 1) heat
    else Some heat
  else Some heat.

Definition heat_ship (ai : BattleshipAI) (knowledge : list (list Z))
    (clusters : list cluster) (length : Z) (heat : list (list Z))
  : option (list (list Z)) :=
  let size := ai_size ai in
  heat1 ← for_each (range size)
             (λ r, for_each (range (size - length + 1))
                     (λ c, try_placement ai knowledge clusters length true r c)) heat;
  for_each (range (size - length + 1))
    (λ r, for_each (range size)
            (λ c, try_placement ai knowledge clusters length false r c)) heat1.

Definition boost_neighbor (size : Z) (knowledge : list (list Z)) (r c : Z) (d : Z * Z)
    (heat : list (list Z)) : option (list (list Z)) :=
  let rr := r + d.1 in
  let cc := c + d.2 in
  if bool_decide (0 ≤ rr < size) && bool_decide (0 ≤ cc < size) then
    cell ← grid_get knowledge rr cc;
    if bool_decide (cell = -1) then grid_add heat rr cc 3 else Some heat
  else Some heat.

Definition boost_cell (size : Z) (knowledge : list (list Z)) (r c : Z)
    (heat : list (list Z)) : option (list (list Z)) :=
  cell ← grid_get knowledge r c;
  if bool_decide (cell = HIT) then for_each DIRS (boost_neighbor size knowledge r c) heat
  else Some heat.

(** [any(knowledge[r][c] == HIT for r in ... for c in ...)]: stops at the
    first hit. *)
Fixpoint any_hit (knowledge : list (list Z)) (cells : list (Z * Z)) : option bool :=
  match cells with
  | [] => Some false
  | (r, c) :: cells' =>
      cell ← grid_get knowledge r c;
      if bool_decide (cell = HIT) then Some true else any_hit knowledge cells'
  end.

(** [heat[r][c] = int(heat[r][c] * 0.25)]: multiplying by a power of two is
    exact in binary floating point and [int] truncates toward zero. *)
Definition prune_cell (r c : Z) (heat : list (list Z)) : option (list (list Z)) :=
  if bool_decide ((r + c) `mod` 2 = 1) then
    v ← grid_get heat r c; grid_set heat r c (Z.quot v 4)
  else Some heat.

(** [heatmap] up to the placement counts. *)
Definition heatmap_base (ai : BattleshipAI) (knowledge : list (list Z)) (ships : list Z)
  : option (list (list Z)) :=
  clusters ← hit_clusters ai knowledge;
  for_each ships (heat_ship ai knowledge clusters) (make_grid (ai_size ai) 0).

(** [heatmap] up to the adjacency boost, before parity pruning. *)
Definition heatmap_unpruned (ai : BattleshipAI) (knowledge : list (list Z)) (ships : list Z)
  : option (list (list Z)) :=
  let size := ai_size ai in
  heat ← heatmap_base ai knowledge ships;
  for_each (range size) (λ r, for_each (range size) (boost_cell size knowledge r)) heat.

Definition heatmap (ai : BattleshipAI) (knowledge : list (list Z))
    (ships_arg : option (list Z)) : option (list (list Z)) :=
  let size := ai_size ai in
  let ships := py_or ships_arg (remaining_ships ai) in
  heat ← heatmap_unpruned ai knowledge ships;
  hit_seen ← any_hit knowledge (all_cells size);
  if negb hit_seen && bool_decide (ships ≠ []) then
    min_len ← py_min ships;
    if bool_decide (2 ≤ min_len) then
      for_each (range size) (λ r, for_each (range size) (prune_cell r)) heat
    else Some heat
  else Some heat.

(** Python's order on [(score, r, c)] tuples, reversed: [cells.sort(reverse=True)]
    puts [a] before [b] when [a >= b] lexicographically. *)
Definition triple_ge (a b : Z * Z * Z) : Prop :=
  b.1.1 < a.1.1 ∨
  (a.1.1 = b.1.1 ∧ (b.1.2 < a.1.2 ∨ (a.1.2 = b.1.2 ∧ b.2 ≤ a.2))).

#[global] Instance triple_ge_dec : RelDecision triple_ge.
Proof. intros a b. unfold triple_ge. apply _. Defined.

Definition collect_cell (heat knowledge : list (list Z)) (r c : Z)
    (cells : list (Z * Z * Z)) : option (list (Z * Z * Z)) :=
  cell ← grid_get knowledge r c;
  if bool_decide (cell = -1) then
    h ← grid_get heat r c; Some (cells ++ [(h, r, c)])
  else Some cells.

Definition strip_score (t : Z * Z * Z) : Z * Z := (t.1.2, t.2).

Definition top_candidates (ai : BattleshipAI) (heat knowledge : list (list Z)) (k : Z)
  : option (list (Z * Z)) :=
  let size := ai_size ai in
  cells ← for_each (range size)
            (λ r, for_each (range size) (collect_cell heat knowledge r)) [];
  let top := py_take k (merge_sort triple_ge cells) in
  match strip_score <$> filter (λ t, 0 < t.1.1) top with
  | [] => Some (strip_score <$> top)
  | positive => Some positive
  end.

(** [if rc not in seen: cand.append(rc); seen.add(rc)] *)
Definition emit (rc : Z * Z) (st : list (Z * Z) * gset (Z * Z))
  : list (Z * Z) * gset (Z * Z) :=
  if decide (rc ∈ st.2) then st else (st.1 ++ [rc], {[rc]} ∪ st.2).

Definition target_neighbor (size : Z) (knowledge : list (list Z)) (rc d : Z * Z)
    (st : list (Z * Z) * gset (Z * Z)) : option (list (Z * Z) * gset (Z * Z)) :=
  let rr := rc.1 + d.1 in
  let cc := rc.2 + d.2 in
  if bool_decide (0 ≤ rr < size) && bool_decide (0 ≤ cc < size) then
    cell ← grid_get knowledge rr cc;
    if bool_decide (cell = -1) then Some (emit (rr, cc) st) else Some st
  else Some st.

(** The four one-step extensions; each [while ...: ...; break] runs its body
    at most once. *)
Definition extend_left (knowledge : list (list Z)) (rows min_c : Z)
    (st : list (Z * Z) * gset (Z * Z)) : option (list (Z * Z) * gset (Z * Z)) :=
  let cc := min_c - 1 in
  if bool_decide (0 ≤ cc) then
    cell ← grid_get knowledge rows cc;
    if bool_decide (cell = -1) then Some (emit (rows, cc) st) else Some st
  else Some st.

Definition extend_right (size : Z) (knowledge : list (list Z)) (rows max_c : Z)
    (st : list (Z * Z) * gset (Z * Z)) : option (list (Z * Z) * gset (Z * Z)) :=
  let cc := max_c + 1 in
  if bool_decide (cc < size) then
    cell ← grid_get knowledge rows cc;
    if bool_decide (cell = -1) then Some (emit (rows, cc) st) else Some st
  else Some st.

Definition extend_up (knowledge : list (list Z)) (cols min_r : Z)
    (st : list (Z * Z) * gset (Z * Z)) : option (list (Z * Z) * gset (Z * Z)) :=
  let rr := min_r - 1 in
  if bool_decide (0 ≤ rr) then
    cell ← grid_get knowledge rr cols;
    if bool_decide (cell = -1) then Some (emit (rr, cols) st) else Some st
  else Some st.

Definition extend_down (size : Z) (knowledge : list (list Z)) (cols max_r : Z)
    (st : list (Z * Z) * gset (Z * Z)) : option (list (Z * Z) * gset (Z * Z)) :=
  let rr := max_r + 1 in
  if bool_decide (rr < size) then
    cell ← grid_get knowledge rr cols;
    if bool_decide (cell = -1) then Some (emit (rr, cols) st) else Some st
  else Some st.

(** The body of [for comp, orient in clusters] in [_target_candidates].
    Iterating over a Python set visits its elements in an order the language
    leaves unspecified; [elements] plays that part. *)
Definition target_cluster (size : Z) (knowledge : list (list Z)) (cl : cluster)
    (st : list (Z * Z) * gset (Z * Z)) : option (list (Z * Z) * gset (Z * Z)) :=
  let '(comp, orient) := cl in
  if decide (comp = ∅) then Some st
  else
    match orient with
    | None =>
        for_each (elements comp)
          (λ rc, for_each DIRS (target_neighbor size knowledge rc)) st
    | Some OrH =>
        rows ← head (elements (set_map fst comp : gset Z));
        min_c ← py_min (snd <$> elements comp);
        max_c ← py_max (snd <$> elements comp);
        st1 ← extend_left knowledge rows min_c st;
        extend_right size knowledge rows max_c st1
    | Some OrV =>
        cols ← head (elements (set_map snd comp : gset Z));
        min_r ← py_min (fst <$> elements comp);
        max_r ← py_max (fst <$> elements comp);
        st1 ← extend_up knowledge cols min_r st;
        extend_down size knowledge cols max_r st1
    end.

Definition target_candidates (ai : BattleshipAI) (knowledge : list (list Z))
  : option (list (Z * Z)) :=
  clusters ← hit_clusters ai knowledge;
  st ← for_each clusters (target_cluster (ai_size ai) knowledge) ([], ∅);
  Some st.1.

(** Python floats, as far as [ai.py] uses them: the quotient of two
    integers, subtraction, the comparison [>] and two constants. *)
Class FloatOps (F : Type) := {
  f_zero : F;
  f_neg_1e9 : F;
  f_div : Z → Z → F;
  f_sub : F → F → F;
  f_gtb : F → F → bool
}.

(** Exact rationals as an instance: every quotient the program forms has a
    positive denominator. *)
#[global] Instance Q_FloatOps : FloatOps Q := {|
  f_zero := 0%Q;
  f_neg_1e9 := (-1000000000)%Q;
  f_div := λ a b, Qmake a (Z.to_pos b);
  f_sub := Qminus;
  f_gtb := λ x y, if Qlt_le_dec y x then true else false
|}.

Definition best_cell (knowledge heat_p : list (list Z)) (r c : Z) (best : Z) : option Z :=
  cell ← grid_get knowledge r c;
  if bool_decide (cell = -1) then
    h ← grid_get heat_p r c;
    if bool_decide (best < h) then Some h else Some best
  else Some best.

Definition best_counter_gain `{FloatOps F} (ai : BattleshipAI)
    (player_knowledge_on_ai : list (list Z)) (ai_remaining_ships : list Z) : option F :=
  let size := ai_size ai in
  heat_p ← heatmap ai player_knowledge_on_ai (Some ai_remaining_ships);
  let total := grid_total heat_p in
  if bool_decide (total ≤ 0) then Some f_zero
  else
    best ← for_each (range size)
              (λ r, for_each (range size) (best_cell player_knowledge_on_ai heat_p r)) 0;
    Some (if bool_decide (best ≤ 0) then f_zero else f_div best total).

(** The fallback scan of [choose_shot]: the first unknown cell in row-major
    order, else [(0, 0)]. *)
Fixpoint first_unknown (knowledge : list (list Z)) (cells : list (Z * Z)) : option (Z * Z) :=
  match cells with
  | [] => Some (0, 0)
  | (r, c) :: cells' =>
      cell ← grid_get knowledge r c;
      if bool_decide (cell = -1) then Some (r, c) else first_unknown knowledge cells'
  end.

Definition score_candidate `{FloatOps F} (heat : list (list Z)) (total_heat : Z)
    (opp_gain : F) (rc : Z * Z) (st : F * (Z * Z)) : option (F * (Z * Z)) :=
  phit ← (if bool_decide (total_heat ≤ 0) then Some f_zero
          else h ← grid_get heat rc.1 rc.2; Some (f_div h total_heat));
  let score := f_sub phit opp_gain in
  if f_gtb score st.1 then Some (score, rc) else Some st.

Definition choose_shot `{FloatOps F} (ai : BattleshipAI)
    (player_board_knowledge player_shots_on_ai_board : list (list Z))
    (ai_remaining_ships : option (list Z)) : option (Z * Z) :=
  heat ← heatmap ai player_board_knowledge (Some (remaining_ships ai));
  target_cands ← target_candidates ai player_board_knowledge;
  candidates ← match target_cands with
               | [] => top_candidates ai heat player_board_knowledge 8
               | _ => Some target_cands
               end;
  match candidates with
  | [] => first_unknown player_board_knowledge (all_cells (ai_size ai))
  | first :: _ =>
      opp_gain ← best_counter_gain (F:=F) ai player_shots_on_ai_board
                    (py_or ai_remaining_ships STANDARD_SHIPS);
      let total_heat := grid_total heat in
      st ← for_each candidates (score_candidate heat total_heat opp_gain)
             (f_neg_1e9, first);
      Some st.2
  end.

(** ** Test data *)

Definition ai10 : BattleshipAI := new_ai 10 None.
Definition blank10 : list (list Z) := make_grid 10 (-1).

(** ** Specification vocabulary *)

(** What the attacker sees of a cell. *)
Definition visible (cell : Z) : Z :=
  if bool_decide (cell = HIT) then HIT
  else if bool_decide (cell = MISS) then MISS
  else UNKNOWN.

(** The cells of a ship that are still un-hit on the grid. *)
Definition live_cells (g : list (list Z)) (s : Ship) : list (Z * Z) :=
  filter (λ rc, grid_get g rc.1 rc.2 = Some SHIP) (ship_cells s).

(** A ship as [place_ship] leaves it and [receive_shot] keeps it: distinct
    in-bounds cells, as many as its length, and one hit per cell that is no
    longer [SHIP]. *)
Definition ship_ok (n : Z) (g : list (list Z)) (s : Ship) : Prop :=
  NoDup (ship_cells s) ∧
  Forall (λ rc, inb n rc.1 rc.2) (ship_cells s) ∧
  ship_length s = Z.of_nat (length (ship_cells s)) ∧
  ship_hits s + Z.of_nat (length (live_cells g s)) = ship_length s.

Definition board_ok (b : Board) : Prop :=
  wf_grid (board_size b) (board_grid b) ∧
  Forall (ship_ok (board_size b) (board_grid b)) (board_ships b) ∧
  (∀ i j si sj rc, board_ships b !! i = Some si → board_ships b !! j = Some sj →
     rc ∈ ship_cells si → rc ∈ ship_cells sj → i = j).







(** The number of cells the flood fill has not marked yet. *)
Definition unvisited (n : Z) (visited : list (list bool)) : nat :=
  length (filter (λ rc, grid_get visited rc.1 rc.2 = Some false) (all_cells n)).

(** The state of one flood fill: [seen0] holds the cells of the clusters
    found before it started. *)
Definition dfs_inv (n : Z) (knowledge : list (list Z)) (seen0 : gset (Z * Z))
    (visited : list (list bool)) (stack : list (Z * Z)) (comp : gset (Z * Z)) : Prop :=
  wf_grid n visited ∧
  (∀ rc, rc ∈ stack ∨ rc ∈ comp →
     inb n rc.1 rc.2 ∧ grid_get knowledge rc.1 rc.2 = Some HIT ∧ rc ∉ seen0) ∧
  (∀ rc, inb n rc.1 rc.2 →
     grid_get visited rc.1 rc.2 = Some true ↔ rc ∈ seen0 ∨ rc ∈ comp ∨ rc ∈ stack).

(** What [_hit_clusters] has built after any number of cells of its scan. *)
Definition clusters_inv (n : Z) (knowledge : list (list Z))
    (visited : list (list bool)) (clusters : list cluster) : Prop :=
  wf_grid n visited ∧
  (∀ rc, inb n rc.1 rc.2 →
     grid_get visited rc.1 rc.2 = Some true ↔ ∃ cl, cl ∈ clusters ∧ rc ∈ cl.1) ∧
  Forall (λ cl : cluster, cl.1 ≠ ∅ ∧ cl.2 = infer_orientation cl.1 ∧
            ∀ rc, rc ∈ cl.1 → inb n rc.1 rc.2 ∧ grid_get knowledge rc.1 rc.2 = Some HIT)
    clusters ∧
  (∀ i j (ci cj : cluster) rc, clusters !! i = Some ci → clusters !! j = Some cj →
     rc ∈ ci.1 → rc ∈ cj.1 → i = j).

(** The value of a heat cell, [0] where the grid has no such cell. *)
Definition cell_at (g : list (list Z)) (r c : Z) : Z := default 0 (grid_get g r c).

(** A heat grid: [n]-by-[n] and non-negative. *)
Definition heat_ok (n : Z) (g : list (list Z)) : Prop :=
  wf_grid n g ∧ ∀ r c, inb n r c → 0 ≤ cell_at g r c.

(** The placement meets no [Miss] and stays on the grid. *)
Definition clear_of_misses (n : Z) (knowledge : list (list Z)) (cells : list (Z * Z)) : Prop :=
  Forall (λ rc, inb n rc.1 rc.2 ∧ grid_get knowledge rc.1 rc.2 ≠ Some MISS) cells.

#[global] Instance clear_of_misses_dec n knowledge cells :
  Decision (clear_of_misses n knowledge cells).
Proof. unfold clear_of_misses, inb. apply _. Defined.

(** The placement meets the cluster. *)
Definition meets (cells : list (Z * Z)) (cl : cluster) : Prop :=
  ∃ rc, rc ∈ cells ∧ rc ∈ cl.1.

(** Conditions (ii) and (iii) on every cluster the placement meets: no
    larger than the ship, covered whole, and of a matching orientation. *)
Definition explains (cells : list (Z * Z)) (length : Z) (horizontal : bool)
    (cl : cluster) : Prop :=
  Z.of_nat (size cl.1) ≤ length ∧
  (∀ rc, rc ∈ cl.1 → rc ∈ cells) ∧
  (cl.2 = Some OrH → horizontal = true) ∧
  (cl.2 = Some OrV → horizontal = false).

(** Conditions (i) to (iv) of a placement that counts. *)
Definition survives (knowledge : list (list Z)) (clusters : list cluster)
    (r c length : Z) (horizontal : bool) : Prop :=
  let cells := placement_cells r c length horizontal in
  (∀ rc, rc ∈ cells → grid_get knowledge rc.1 rc.2 ≠ Some MISS) ∧
  (∀ cl, cl ∈ clusters → meets cells cl → explains cells length horizontal cl) ∧
  (∀ c1 c2, c1 ∈ clusters → c2 ∈ clusters → meets cells c1 → meets cells c2 → c1 = c2).

(** The origins that [heatmap] tries for a ship of the given length. *)
Definition considered (n r c length : Z) (horizontal : bool) : Prop :=
  if horizontal then 0 ≤ r < n ∧ 0 ≤ c < n - length + 1
  else 0 ≤ r < n - length + 1 ∧ 0 ≤ c < n.

(** The candidate list of [_target_candidates] and its [seen] set: no cell
    twice, [seen] holds exactly the candidates, and every candidate is an
    Unknown cell of the grid. *)
Definition cand_ok (n : Z) (knowledge : list (list Z))
    (st : list (Z * Z) * gset (Z * Z)) : Prop :=
  NoDup st.1 ∧ (∀ rc, rc ∈ st.2 ↔ rc ∈ st.1) ∧
  ∀ rc, rc ∈ st.1 → inb n rc.1 rc.2 ∧ grid_get knowledge rc.1 rc.2 = Some UNKNOWN.

(** A step that appends to the candidates exactly the cells in [W] that are
    not there yet. *)
Definition emits (n : Z) (knowledge : list (list Z))
    (f : list (Z * Z) * gset (Z * Z) → option (list (Z * Z) * gset (Z * Z)))
    (W : Z * Z → Prop) : Prop :=
  ∀ st, cand_ok n knowledge st →
    ∃ st', f st = Some st' ∧ cand_ok n knowledge st' ∧
      ∀ rc, rc ∈ st'.1 ↔ rc ∈ st.1 ∨ W rc.

(** The cells [candidateTargets] owes to one cluster. *)
Definition wanted (n : Z) (knowledge : list (list Z)) (cl : cluster) (rc : Z * Z) : Prop :=
  inb n rc.1 rc.2 ∧ grid_get knowledge rc.1 rc.2 = Some UNKNOWN ∧
  match cl.2 with
  | None =>
      ∃ cell d, cell ∈ cl.1 ∧ d ∈ DIRS ∧ rc = (cell.1 + d.1, cell.2 + d.2)
  | Some OrH =>
      ∃ lo hi, lo ∈ cl.1 ∧ hi ∈ cl.1 ∧ (∀ cell, cell ∈ cl.1 → lo.2 ≤ cell.2 ≤ hi.2) ∧
        (rc = (lo.1, lo.2 - 1) ∨ rc = (hi.1, hi.2 + 1))
  | Some OrV =>
      ∃ lo hi, lo ∈ cl.1 ∧ hi ∈ cl.1 ∧ (∀ cell, cell ∈ cl.1 → lo.1 ≤ cell.1 ≤ hi.1) ∧
        (rc = (lo.1 - 1, lo.2) ∨ rc = (hi.1 + 1, hi.2))
  end.

(** Test grids: a single Hit at (4,4), and Hits at (4,4) and (4,5). *)
Definition with_cell (g : list (list Z)) (r c v : Z) : list (list Z) :=
  default g (grid_set g r c v).
Definition hit44 : list (list Z) := with_cell blank10 4 4 HIT.
Definition hit4445 : list (list Z) := with_cell hit44 4 5 HIT.

#[global] Instance triple_ge_total : Total triple_ge.
Proof. intros [[s1 r1] c1] [[s2 r2] c2]. unfold triple_ge. simpl. lia. Qed.

#[global] Instance triple_ge_trans : Transitive triple_ge.
Proof. intros [[s1 r1] c1] [[s2 r2] c2] [[s3 r3] c3]. unfold triple_ge. simpl. lia. Qed.

(** The [(score, r, c)] entries that [_top_candidates] collects from a list
    of cells: one per Unknown cell, in scan order. *)
Definition unknown_triples (heat knowledge : list (list Z)) (cells : list (Z * Z))
  : list (Z * Z * Z) :=
  omap (λ rc, if bool_decide (grid_get knowledge rc.1 rc.2 = Some UNKNOWN)
              then Some (cell_at heat rc.1 rc.2, rc.1, rc.2) else None) cells.

Definition positive_score (t : Z * Z * Z) : Prop := 0 < t.1.1.

(** Test data for [_top_candidates]: a 2-by-2 board, nothing known, one cell
    with heat. *)
Definition ai2 : BattleshipAI := new_ai 2 None.
Definition blank2 : list (list Z) := make_grid 2 (-1).
Definition heat2 : list (list Z) := [[1; 0]; [0; 0]].

(** A 2-by-2 board with one ship of length 2 on its second row and a Miss
    at (0,0). *)
Definition ship2 : Ship := mkShip 2 [(1, 0); (1, 1)] 0.
Definition board2 : Board := mkBoard 2 [[MISS; EMPTY]; [SHIP; SHIP]] [ship2] 2.

(** ** board.py, the rest of the board *)

(** [Board(size)] *)
Definition new_board (size : Z) : Board := mkBoard size (make_grid size EMPTY) [] 0.

Fixpoint can_place_loop (b : Board) (r c : Z) (horizontal : bool) (steps : list Z)
  : option bool :=
  match steps with
  | [] => Some true
  | i :: steps' =>
      let rr := place_row r horizontal i in
      let cc := place_col c horizontal i in
      if negb (in_bounds b rr cc) then Some false
      else
        cell ← grid_get (board_grid b) rr cc;
        if bool_decide (cell ≠ EMPTY) then Some false
        else can_place_loop b r c horizontal steps'
  end.

Definition can_place (b : Board) (r c length : Z) (horizontal : bool) : option bool :=
  can_place_loop b r c horizontal (range length).

(** The loop of [place_ship]: mark the cell and remember it. *)
Definition place_cell (r c : Z) (horizontal : bool) (i : Z)
    (st : list (list Z) * list (Z * Z)) : option (list (list Z) * list (Z * Z)) :=
  let rr := place_row r horizontal i in
  let cc := place_col c horizontal i in
  g' ← grid_set st.1 rr cc SHIP;
  Some (g', st.2 ++ [(rr, cc)]).

Definition place_ship (b : Board) (r c length : Z) (horizontal : bool)
  : option (bool * Board) :=
  ok ← can_place b r c length horizontal;
  if negb ok then Some (false, b)
  else
    st ← for_each (range length) (place_cell r c horizontal) (board_grid b, []);
    Some (true, mkBoard (board_size b) st.1
                  (board_ships b ++ [mkShip length st.2 0])
                  (total_ship_cells b + length)).

Definition is_valid_shot (b : Board) (r c : Z) : option bool :=
  if in_bounds b r c then
    cell ← grid_get (board_grid b) r c;
    Some (negb (bool_decide (cell = HIT ∨ cell = MISS)))
  else Some false.

(** The body of the double loop of [get_public_view]. *)
Definition public_cell (g : list (list Z)) (r c : Z) (view : list (list Z))
  : option (list (list Z)) :=
  cell ← grid_get g r c;
  if bool_decide (cell = HIT) then grid_set view r c HIT
  else
    cell2 ← grid_get g r c;
    if bool_decide (cell2 = MISS) then grid_set view r c MISS
    else grid_set view r c EMPTY.

Definition get_public_view (b : Board) : option (list (list Z)) :=
  for_each (range (board_size b))
    (λ r, for_each (range (board_size b)) (λ c, public_cell (board_grid b) r c))
    (make_grid (board_size b) EMPTY).

(** A board as [Board()], [place_ship] and [receive_shot] keep it: the
    invariant of sunk detection, the cells marked [SHIP] or [HIT] on the grid
    are exactly the cells of the ships, and the running total counts the
    cells of all ships. *)
Definition fleet_ok (b : Board) : Prop :=
  board_ok b ∧
  (∀ r c, inb (board_size b) r c →
     (∃ s, s ∈ board_ships b ∧ (r, c) ∈ ship_cells s) ↔
     grid_get (board_grid b) r c = Some SHIP ∨ grid_get (board_grid b) r c = Some HIT) ∧
  total_ship_cells b = foldr Z.add 0 (ship_length <$> board_ships b).

(** What the opponent is shown of a cell on the public view. *)
Definition public (cell : Z) : Z :=
  if bool_decide (cell = HIT) then HIT
  else if bool_decide (cell = MISS) then MISS
  else EMPTY.

(** ** board.py: random placement

    The random source is an oracle: [rng i] is the [i]-th raw draw, and
    [getrandbits(1)] and [randrange(n)] reduce a raw draw to their range.
    Seeding picks the oracle, so the [seed] argument needs no model. *)

Definition getrandbit (x : Z) : bool := bool_decide (x `mod` 2 = 1).

(** [random.randrange(n)] raises [ValueError] on an empty range. *)
Definition randrange (x n : Z) : option Z :=
  if decide (0 < n) then Some (x `mod` n) else None.

(** One iteration of the [while] loop of [random_place_all]: three draws and
    a call of [place_ship]. *)
Definition random_try (b : Board) (length : Z) (x1 x2 x3 : Z) : option (bool * Board) :=
  let horizontal := getrandbit x1 in
  rc ← (if horizontal then
          r ← randrange x2 (board_size b);
          c ← randrange x3 (board_size b - length + 1);
          Some (r, c)
        else
          r ← randrange x2 (board_size b - length + 1);
          c ← randrange x3 (board_size b);
          Some (r, c));
  place_ship b rc.1 rc.2 length horizontal.

(** [while not placed and tries < 1000], with [left] tries to go; [pos]
    counts the draws used so far. *)
Fixpoint random_tries (left : nat) (rng : nat → Z) (pos : nat) (b : Board) (length : Z)
  : option (bool * Board * nat) :=
  match left with
  | O => Some (false, b, pos)
  | S left' =>
      res ← random_try b length (rng pos) (rng (S pos)) (rng (S (S pos)));
      if (res.1 : bool) then Some (true, res.2, (pos + 3)%nat)
      else random_tries left' rng (pos + 3)%nat res.2 length
  end.

(** The origins of the fallback scan, in scan order. *)
Definition scan_origins (size length : Z) : list (Z * Z) :=
  r ← range size; pair r <$> range (size - length + 1).

(** The fallback scan: the first origin where a horizontal placement
    succeeds ends both loops. *)
Fixpoint first_fit (b : Board) (length : Z) (origins : list (Z * Z))
  : option (bool * Board) :=
  match origins with
  | [] => Some (false, b)
  | rc :: rest =>
      res ← place_ship b rc.1 rc.2 length true;
      if (res.1 : bool) then Some (true, res.2) else first_fit res.2 length rest
  end.

(** The body of [for length in ships]; [None] is the [RuntimeError] (or the
    [ValueError] of an empty [randrange]). *)
Definition place_one (rng : nat → Z) (length : Z) (st : Board * nat)
  : option (Board * nat) :=
  res ← random_tries 1000 rng st.2 st.1 length;
  if (res.1.1 : bool) then Some (res.1.2, res.2)
  else
    res2 ← first_fit res.1.2 length (scan_origins (board_size res.1.2) length);
    if (res2.1 : bool) then Some (res2.2, res.2) else None.

(** [random_place_all], also returning the number of draws used. *)
Definition random_place_from (b : Board) (ships : option (list Z)) (rng : nat → Z)
    (pos : nat) : option (Board * nat) :=
  let ships := match ships with None => STANDARD_SHIPS | Some l => l end in
  for_each ships (place_one rng) (new_board (board_size b), pos).

Definition random_place_all (b : Board) (ships : option (list Z)) (rng : nat → Z)
  : option Board :=
  st ← random_place_from b ships rng 0; Some st.1.

(** ** Vocabulary for hit clusters *)

(** [b] is one of the four orthogonal neighbours of [a]. *)
Definition adjacent (a b : Z * Z) : Prop :=
  ∃ d, d ∈ DIRS ∧ b = (a.1 + d.1, a.2 + d.2).

(** A cell of the [n]-by-[n] knowledge grid that holds [HIT]. *)
Definition hit_cell (n : Z) (k : list (list Z)) (rc : Z * Z) : Prop :=
  inb n rc.1 rc.2 ∧ grid_get k rc.1 rc.2 = Some HIT.

(** One step between adjacent cells of [X]. *)
Definition step_in (X : gset (Z * Z)) (a b : Z * Z) : Prop :=
  a ∈ X ∧ b ∈ X ∧ adjacent a b.

(** Any two cells of [X] are joined by a path of adjacent cells of [X]. *)
Definition connected (X : gset (Z * Z)) : Prop :=
  ∀ a b, a ∈ X → b ∈ X → rtc (step_in X) a b.

(** No Hit cell outside [X] touches [X]. *)
Definition closed (n : Z) (k : list (list Z)) (X : gset (Z * Z)) : Prop :=
  ∀ a b, a ∈ X → adjacent a b → hit_cell n k b → b ∈ X.

(** A 4-connected component of the Hit cells. *)
Definition component (n : Z) (k : list (list Z)) (X : gset (Z * Z)) : Prop :=
  X ≠ ∅ ∧ (∀ rc, rc ∈ X → hit_cell n k rc) ∧ closed n k X ∧ connected X.

(** What the flood fill from [root] knows beyond [dfs_inv]: the Hit
    neighbours of finished cells are marked, and everything found so far is
    joined to [root]. *)
Definition dfs_ext (n : Z) (k : list (list Z)) (root : Z * Z)
    (visited : list (list bool)) (stack : list (Z * Z)) (comp : gset (Z * Z)) : Prop :=
  (∀ a b, a ∈ comp → adjacent a b → hit_cell n k b →
     grid_get visited b.1 b.2 = Some true) ∧
  (∀ a, a ∈ stack ∨ a ∈ comp → rtc (step_in (comp ∪ list_to_set stack)) root a).

(** The state of the scan of [_hit_clusters]: every cluster built so far is
    a whole component. *)
Definition scan_inv (n : Z) (k : list (list Z))
    (st : list (list bool) * list cluster) : Prop :=
  clusters_inv n k st.1 st.2 ∧ Forall (λ cl : cluster, component n k cl.1) st.2.

(** The cell has been dealt with by the scan: if it is a Hit it is marked. *)
Definition scanned (n : Z) (k : list (list Z)) (rc : Z * Z)
    (st : list (list bool) * list cluster) : Prop :=
  hit_cell n k rc → grid_get st.1 rc.1 rc.2 = Some true.

(** A heat grid with nothing on the known Misses. *)
Definition cold (n : Z) (k heat : list (list Z)) : Prop :=
  wf_grid n heat ∧
  ∀ r c, inb n r c → grid_get k r c = Some MISS → cell_at heat r c = 0.

(** The adjacency boost has reached the cell: if it is an Unknown cell of
    the grid its heat is at least 3. *)
Definition warm (n : Z) (k : list (list Z)) (rc : Z * Z) (heat : list (list Z)) : Prop :=
  inb n rc.1 rc.2 → grid_get k rc.1 rc.2 = Some UNKNOWN → 3 ≤ cell_at heat rc.1 rc.2.

(** Heat only grows from [h] to [h']. *)
Definition heat_le (n : Z) (h h' : list (list Z)) : Prop :=
  ∀ r c, inb n r c → cell_at h r c ≤ cell_at h' r c.

(** The boost loop has dealt with the cell: if it is a Hit, its four
    neighbours are warm. *)
Definition boosted (n : Z) (k : list (list Z)) (rc : Z * Z) (heat : list (list Z)) : Prop :=
  grid_get k rc.1 rc.2 = Some HIT →
  ∀ d, d ∈ DIRS → warm n k (rc.1 + d.1, rc.2 + d.2) heat.

(** ** main.py: the turn logic of [Game]

    Only the fields that decide the course of a game are kept; the message
    line, the cooldown timer, sounds and particles are presentation. *)

Definition CELL_SIZE : Z := 36.

(** [pos_to_cell(pos, top_left)]; the result [None] is Python's [None]. *)
Definition pos_to_cell (pos top_left : Z * Z) : option (Z * Z) :=
  let '(x, y) := pos in
  let '(x0, y0) := top_left in
  if negb (bool_decide (x0 ≤ x < x0 + GRID_SIZE * CELL_SIZE) &&
           bool_decide (y0 ≤ y < y0 + GRID_SIZE * CELL_SIZE)) then None
  else
    let c := (x - x0) `div` CELL_SIZE in
    let r := (y - y0) `div` CELL_SIZE in
    Some (r, c).

(** [Game._cell_center] *)
Definition cell_center (origin : Z * Z) (r c : Z) : Z * Z :=
  let '(x0, y0) := origin in
  (x0 + c * CELL_SIZE + CELL_SIZE `div` 2, y0 + r * CELL_SIZE + CELL_SIZE `div` 2).

Inductive GameState := Ready | PlayerTurn | AiTurn | GameOver.

#[global] Instance GameState_eq_dec : EqDecision GameState.
Proof. solve_decision. Defined.

(** The two values of [self.winner] besides [None]. *)
Inductive Winner := WinnerAI | WinnerPlayer.

Record Game := mkGame {
  player_board : Board;
  ai_board : Board;
  ai : BattleshipAI;
  state : GameState;
  winner : option Winner;
  last_player_shot : option (Z * Z);
  last_ai_shot : option (Z * Z)
}.

(** [Game.start] *)
Definition start (g : Game) : Game :=
  match state g with
  | Ready => mkGame (player_board g) (ai_board g) (ai g) PlayerTurn (winner g)
               (last_player_shot g) (last_ai_shot g)
  | _ => g
  end.

(** [[s.length for s in board.ships if not s.sunk]] *)
Definition afloat (b : Board) : list Z :=
  ship_length <$> filter (λ s, sunk s = false) (board_ships b).

(** [Game.ai_take_shot] *)
Definition ai_take_shot `{FloatOps F} (g : Game) : option Game :=
  player_knowledge ← get_ai_knowledge (player_board g);
  player_view_of_ai ← get_ai_knowledge (ai_board g);
  rc ← choose_shot (F:=F) (ai g) player_knowledge player_view_of_ai
          (Some (afloat (ai_board g)));
  res ← receive_shot (player_board g) rc.1 rc.2;
  let rep := res.1 in
  let after st w :=
    mkGame res.2 (ai_board g) (ai g) st w (last_player_shot g) (Some rc) in
  if game_over rep then Some (after GameOver (Some WinnerAI))
  else if hit rep then Some (after AiTurn (winner g))
  else Some (after PlayerTurn (winner g)).

(** [if sunk_len: self.ai.notify_sunk(sunk_len)]: [None] and [0] are falsy. *)
Definition inform_ai (a : BattleshipAI) (sunk_len : option Z) : BattleshipAI :=
  match sunk_len with
  | Some l => if decide (l = 0) then a else notify_sunk a l
  | None => a
  end.

(** [Game.handle_player_shot] *)
Definition handle_player_shot (g : Game) (cell : option (Z * Z)) : option Game :=
  match cell with
  | None => Some g
  | Some (r, c) =>
      valid ← is_valid_shot (ai_board g) r c;
      if negb valid then Some g
      else
        res ← receive_shot (ai_board g) r c;
        let rep := res.1 in
        let after st w :=
          mkGame (player_board g) res.2 (inform_ai (ai g) (sunk_length rep)) st w
            (Some (r, c)) (last_ai_shot g) in
        if game_over rep then Some (after GameOver (Some WinnerPlayer))
        else if hit rep then Some (after PlayerTurn (winner g))
        else Some (after AiTurn (winner g))
  end.

(** [Game.reset]: both fleets are placed from the one random source, the
    player's first. *)
Definition reset (rng : nat → Z) (pos : nat) : option Game :=
  p ← random_place_from (new_board GRID_SIZE) (Some STANDARD_SHIPS) rng pos;
  a ← random_place_from (new_board GRID_SIZE) (Some STANDARD_SHIPS) rng p.2;
  Some (mkGame p.1 a.1 (new_ai GRID_SIZE None) Ready None None None).

(** One shot of a running game: the engine fires when it is its turn
    ([Game.update]), a click counts when it is the player's turn and it
    changes something ([Game.run]). *)
Inductive turn {F : Type} `{FloatOps F} : Game → Game → Prop :=
  | turn_ai g g' :
      state g = AiTurn → ai_take_shot (F:=F) g = Some g' → turn g g'
  | turn_player g cell g' :
      state g = PlayerTurn → handle_player_shot g cell = Some g' → g' ≠ g → turn g g'.

(** The cells of a board that have not been shot at. *)
Definition open_cells (b : Board) : nat :=
  length (filter (λ rc, grid_get (board_grid b) rc.1 rc.2 ≠ Some HIT ∧
                        grid_get (board_grid b) rc.1 rc.2 ≠ Some MISS)
            (all_cells (board_size b))).

Definition open_total (g : Game) : nat :=
  (open_cells (player_board g) + open_cells (ai_board g))%nat.

(** Some ship cell of the board is still un-hit. *)
Definition ship_left (b : Board) : Prop :=
  ∃ r c, inb (board_size b) r c ∧ grid_get (board_grid b) r c = Some SHIP.

(** A game as [reset] sets it up and the turns keep it: two sound boards of
    the engine's size, and while the game runs the player still has a ship
    cell. *)
Definition game_ok (g : Game) : Prop :=
  fleet_ok (player_board g) ∧ fleet_ok (ai_board g) ∧
  board_size (player_board g) = ai_size (ai g) ∧
  board_size (ai_board g) = ai_size (ai g) ∧
  (state g ≠ GameOver → ship_left (player_board g)).

(** A board right after [random_place_all]: sound, of size [n], holding
    ships of the lengths [lens] in that order, none of them hit, and with no
    shot on the grid. *)
Definition deployed (n : Z) (lens : list Z) (b : Board) : Prop :=
  fleet_ok b ∧ board_size b = n ∧
  ship_length <$> board_ships b = lens ∧
  Forall (λ s, ship_hits s = 0) (board_ships b) ∧
  ∀ r c, inb n r c →
    grid_get (board_grid b) r c = Some EMPTY ∨ grid_get (board_grid b) r c = Some SHIP.

(** The region is on the board and empty: what [can_place] decides. *)
Definition free (b : Board) (cells : list (Z * Z)) : Prop :=
  Forall (λ rc, inb (board_size b) rc.1 rc.2 ∧
                grid_get (board_grid b) rc.1 rc.2 = Some EMPTY) cells.

(** The cells of the grid that are not [EMPTY], and those of one row. *)
Definition taken_cells (b : Board) (cells : list (Z * Z)) : list (Z * Z) :=
  filter (λ rc, grid_get (board_grid b) rc.1 rc.2 ≠ Some EMPTY) cells.

Definition row_cells (n r : Z) : list (Z * Z) := pair r <$> range n.

(** A sufficient condition for the fallback scan to find room for every
    ship on an [n]-by-[n] board with [taken] cells in use: each ship fits
    twice side by side in a row, and the cells in use before it number
    fewer than two per row. *)
Fixpoint roomy (n taken : Z) (ships : list Z) : Prop :=
  match ships with
  | [] => True
  | l :: rest => 0 ≤ l ∧ 2 * l ≤ n ∧ taken < 2 * n ∧ roomy n (taken + l) rest
  end.

(** ** Test data for the board and the turn logic *)

(** A 3-by-3 board with one ship of length 2 along the top row, the same
    board after a shot at (0,0), and a board with the ship down the first
    column. *)
Definition ship3 : Ship := mkShip 2 [(0, 0); (0, 1)] 0.
Definition fleet3 : Board :=
  mkBoard 3 [[SHIP; SHIP; EMPTY]; [EMPTY; EMPTY; EMPTY]; [EMPTY; EMPTY; EMPTY]] [ship3] 2.
Definition hit3 : Board :=
  mkBoard 3 [[HIT; SHIP; EMPTY]; [EMPTY; EMPTY; EMPTY]; [EMPTY; EMPTY; EMPTY]]
    [mkShip 2 [(0, 0); (0, 1)] 1] 2.
Definition blank3 : list (list Z) := make_grid 3 (-1).
Definition ai3 : BattleshipAI := new_ai 3 (Some [2]).

(** A game on two such boards, and the game after a click at (0,0). *)
Definition game3 (st : GameState) : Game := mkGame fleet3 fleet3 ai3 st None None None.
Definition after_click3 : Game :=
  mkGame fleet3 hit3 ai3 PlayerTurn None (Some (0, 0)) None.

(** A random source that always draws 0, and a 2-by-2 grid of Misses. *)
Definition zero_rng : nat → Z := λ _, 0.
Definition missed2 : list (list Z) := make_grid 2 MISS.


(** ** What the heat map counts *)

(** A candidate placement of [heatmap]: the position of the ship in the
    list of lengths, its length, the orientation and the origin. *)
Record Placement := mkPlacement {
  pl_ship : nat;
  pl_length : Z;
  pl_horizontal : bool;
  pl_row : Z;
  pl_col : Z
}.

(** The origins that the loops of [heatmap] visit for one length and one
    orientation, in loop order. *)
Definition origins (n len : Z) (horizontal : bool) : list (Z * Z) :=
  if horizontal then r ← range n; pair r <$> range (n - len + 1)
  else r ← range (n - len + 1); pair r <$> range n.

(** All candidate placements for the ships [ships], the first of which has
    position [j], in loop order. *)
Fixpoint candidates (n : Z) (j : nat) (ships : list Z) : list Placement :=
  match ships with
  | [] => []
  | len :: rest =>
      ((λ o, mkPlacement j len true o.1 o.2) <$> origins n len true) ++
      ((λ o, mkPlacement j len false o.1 o.2) <$> origins n len false) ++
      candidates n (S j) rest
  end.

(** The two tests of [heatmap] on a placement, and the test that it adds to
    the heat of cell [(r, c)]. *)
Definition passes (n : Z) (k : list (list Z)) (clusters : list cluster) (p : Placement)
  : bool :=
  let cells := placement_cells (pl_row p) (pl_col p) (pl_length p) (pl_horizontal p) in
  bool_decide (clear_of_misses n k cells) &&
  placement_consistent_with_clusters cells clusters (pl_length p) (pl_horizontal p).

Definition adds_to (n : Z) (k : list (list Z)) (clusters : list cluster) (r c : Z)
    (p : Placement) : bool :=
  passes n k clusters p &&
  bool_decide ((r, c) ∈ placement_cells (pl_row p) (pl_col p) (pl_length p)
                          (pl_horizontal p)).

(** [l] lists, each once, the placements that count towards the base heat
    of cell [(r, c)]: the placements that [heatmap] considers for a ship of
    the list, that survive conditions (i) to (iv) and that cover the cell. *)
Definition counted_placements (n : Z) (k : list (list Z)) (clusters : list cluster)
    (ships : list Z) (r c : Z) (l : list Placement) : Prop :=
  NoDup l ∧
  ∀ p, p ∈ l ↔
    ships !! pl_ship p = Some (pl_length p) ∧
    considered n (pl_row p) (pl_col p) (pl_length p) (pl_horizontal p) ∧
    survives k clusters (pl_row p) (pl_col p) (pl_length p) (pl_horizontal p) ∧
    (r, c) ∈ placement_cells (pl_row p) (pl_col p) (pl_length p) (pl_horizontal p).

(** [l] lists, each once, the Hit cells next to cell [(r, c)]. *)
Definition hit_neighbours (n : Z) (k : list (list Z)) (r c : Z) (l : list (Z * Z)) : Prop :=
  NoDup l ∧ ∀ a, a ∈ l ↔ hit_cell n k a ∧ adjacent a (r, c).

(** Parity pruning applies to the cell: no Hit on the grid, a non-empty list
    of ships of length at least 2, and an odd cell. *)
Definition parity_pruned (n : Z) (k : list (list Z)) (ships : list Z) (r c : Z) : Prop :=
  (∀ r' c', inb n r' c' → grid_get k r' c' ≠ Some HIT) ∧
  (∃ m, py_min ships = Some m ∧ 2 ≤ m) ∧
  (r + c) `mod` 2 = 1.

(** The base heat and the final heat of cell [(r, c)]: one per counted
    placement, then 3 per adjacent Hit if the cell is Unknown, then a
    quarter of that, rounded toward zero, where parity pruning applies. *)
Definition heat_value (n : Z) (k : list (list Z)) (clusters : list cluster)
    (ships : list Z) (r c : Z) (base heat : Z) : Prop :=
  ∃ pl hn,
    counted_placements n k clusters ships r c pl ∧ hit_neighbours n k r c hn ∧
    base = Z.of_nat (length pl) ∧
    let raw := base + (if bool_decide (grid_get k r c = Some UNKNOWN)
                       then 3 * Z.of_nat (length hn) else 0) in
    (parity_pruned n k ships r c → heat = Z.quot raw 4) ∧
    (¬ parity_pruned n k ships r c → heat = raw).

(** The sum of a list of integers. *)
Definition sumZ (l : list Z) : Z := foldr Z.add 0 l.

(** [b] is one of the four orthogonal neighbours of [a], as a test. *)
Definition adjacentb (a b : Z * Z) : bool :=
  bool_decide (Exists (λ d : Z * Z, b.1 = a.1 + d.1 ∧ b.2 = a.2 + d.2) DIRS).

(** [best] is what the scan of [_best_counter_gain] ends with: the largest
    heat of an Unknown cell, or [0] if none exceeds it. *)
Definition best_unknown (n : Z) (k heat : list (list Z)) (best : Z) : Prop :=
  0 ≤ best ∧
  (∀ r c, inb n r c → grid_get k r c = Some UNKNOWN → cell_at heat r c ≤ best) ∧
  (best = 0 ∨
   ∃ r c, inb n r c ∧ grid_get k r c = Some UNKNOWN ∧ cell_at heat r c = best).

(** The value [_best_counter_gain] returns on the heat map [heat]. *)
Definition counter_gain `{FloatOps F} (n : Z) (k heat : list (list Z)) (gain : F) : Prop :=
  let total := grid_total heat in
  (total ≤ 0 → gain = f_zero) ∧
  (0 < total →
     ∃ best, best_unknown n k heat best ∧
       gain = if bool_decide (best ≤ 0) then f_zero else f_div best total).

(** * Properties *)

(** ** Indexing and grids *)

Lemma py_index_inrange (len : nat) (i : Z) :
  0 ≤ i < Z.of_nat len → py_index len i = Some (Z.to_nat i).
Proof.
  intros Hi. unfold py_index.
  destruct (decide (0 ≤ i)); [|lia].
  destruct (decide (i < Z.of_nat len)); [done|lia].
Qed.

Lemma py_get_inrange {A} (l : list A) (i : Z) :
  0 ≤ i < Z.of_nat (length l) → py_get l i = l !! Z.to_nat i.
Proof. intros Hi. unfold py_get. by rewrite py_index_inrange. Qed.

Lemma py_set_inrange {A} (l : list A) (i : Z) (x : A) :
  0 ≤ i < Z.of_nat (length l) → py_set l i x = Some (<[Z.to_nat i := x]> l).
Proof. intros Hi. unfold py_set. by rewrite py_index_inrange. Qed.

Lemma wf_grid_row {A} (n : Z) (g : list (list A)) (r : Z) :
  wf_grid n g → 0 ≤ r < n →
  ∃ row, g !! Z.to_nat r = Some row ∧ length row = Z.to_nat n.
Proof.
  intros (Hn & Hlen & Hrows) Hr.
  destruct (lookup_lt_is_Some_2 g (Z.to_nat r)) as [row Hrow]; [lia|].
  exists row. split; [done|].
  rewrite Forall_forall in Hrows. apply Hrows. by eapply list_elem_of_lookup_2.
Qed.

Lemma grid_get_lookup {A} (n : Z) (g : list (list A)) (r c : Z) :
  wf_grid n g → inb n r c →
  grid_get g r c = (g !! Z.to_nat r) ≫= (λ row, row !! Z.to_nat c).
Proof.
  intros Hwf [Hr Hc].
  destruct (wf_grid_row n g r Hwf Hr) as (row & Hrow & Hlen).
  unfold grid_get. rewrite py_get_inrange by (destruct Hwf as (?&?&?); lia).
  rewrite Hrow. simpl. rewrite py_get_inrange by lia. done.
Qed.

Lemma grid_get_is_Some {A} (n : Z) (g : list (list A)) (r c : Z) :
  wf_grid n g → inb n r c → is_Some (grid_get g r c).
Proof.
  intros Hwf Hrc. rewrite (grid_get_lookup n) by done. destruct Hrc as [Hr Hc].
  destruct (wf_grid_row n g r Hwf Hr) as (row & Hrow & Hlen).
  rewrite Hrow. simpl. apply lookup_lt_is_Some_2. lia.
Qed.

Lemma grid_set_spec {A} (n : Z) (g : list (list A)) (r c : Z) (v : A) :
  wf_grid n g → inb n r c →
  ∃ g', grid_set g r c v = Some g' ∧ wf_grid n g' ∧
    ∀ r' c', inb n r' c' →
      grid_get g' r' c' = if decide ((r', c') = (r, c)) then Some v else grid_get g r' c'.
Proof.
  intros Hwf [Hr Hc].
  destruct (wf_grid_row n g r Hwf Hr) as (row & Hrow & Hlen).
  pose proof Hwf as (Hn & Hglen & Hrows).
  exists (<[Z.to_nat r := <[Z.to_nat c := v]> row]> g).
  assert (Hwf' : wf_grid n (<[Z.to_nat r := <[Z.to_nat c := v]> row]> g)).
  { split; [done|]. split; [by rewrite length_insert|].
    apply Forall_insert; [done|]. by rewrite length_insert. }
  split; [|split; [done|]].
  - unfold grid_set. rewrite py_get_inrange by lia. rewrite Hrow. simpl.
    rewrite py_set_inrange by lia. simpl. by rewrite py_set_inrange by lia.
  - intros r' c' Hrc'. rewrite !(grid_get_lookup n) by done.
    destruct Hrc' as [Hr' Hc'].
    destruct (decide ((r', c') = (r, c))) as [Heq|Hne].
    + injection Heq as -> ->.
      rewrite list_lookup_insert_eq by lia. simpl.
      by rewrite list_lookup_insert_eq by lia.
    + destruct (decide (r' = r)) as [->|Hr'ne].
      * rewrite list_lookup_insert_eq by lia. rewrite Hrow. simpl.
        rewrite list_lookup_insert_ne; [done|]. intros Heq. apply Hne.
        f_equal. lia.
      * rewrite list_lookup_insert_ne; [done|]. lia.
Qed.

Lemma wf_grid_make {A} (n : Z) (v : A) : 0 ≤ n → wf_grid n (make_grid n v).
Proof.
  intros Hn. unfold make_grid. split; [done|]. split; [by rewrite length_replicate|].
  apply Forall_replicate. by rewrite length_replicate.
Qed.

Lemma grid_get_make {A} (n : Z) (v : A) (r c : Z) :
  inb n r c → grid_get (make_grid n v) r c = Some v.
Proof.
  intros Hrc. rewrite (grid_get_lookup n); [|apply wf_grid_make; unfold inb in Hrc; lia|done].
  destruct Hrc as [Hr Hc]. unfold make_grid.
  rewrite lookup_replicate_2 by lia. simpl. by rewrite lookup_replicate_2 by lia.
Qed.

Lemma grid_ext {A} (n : Z) (g1 g2 : list (list A)) :
  wf_grid n g1 → wf_grid n g2 →
  (∀ r c, inb n r c → grid_get g1 r c = grid_get g2 r c) → g1 = g2.
Proof.
  intros Hwf1 Hwf2 Hget.
  pose proof Hwf1 as (Hn & Hlen1 & Hrows1). pose proof Hwf2 as (_ & Hlen2 & Hrows2).
  apply list_eq_same_length with (Z.to_nat n); [done..|].
  intros i row1 row2 Hi Hrow1 Hrow2.
  rewrite Forall_forall in Hrows1, Hrows2.
  assert (length row1 = Z.to_nat n) by (apply Hrows1; by eapply list_elem_of_lookup_2).
  assert (length row2 = Z.to_nat n) by (apply Hrows2; by eapply list_elem_of_lookup_2).
  apply list_eq_same_length with (Z.to_nat n); [done..|].
  intros j x y Hj Hx Hy.
  specialize (Hget (Z.of_nat i) (Z.of_nat j)).
  rewrite !(grid_get_lookup n) in Hget by (done || (unfold inb; lia)).
  rewrite !Nat2Z.id, Hrow1, Hrow2 in Hget. simpl in Hget.
  rewrite Hx, Hy in Hget. injection Hget; [done|]. unfold inb. lia.
Qed.

(** ** Loops *)

Lemma for_each_app {A S} (xs ys : list A) (body : A → S → option S) (s : S) :
  for_each (xs ++ ys) body s = for_each xs body s ≫= for_each ys body.
Proof.
  revert s. induction xs as [|x xs IH]; intros s; simpl; [done|].
  destruct (body x s) as [s'|]; simpl; [apply IH|done].
Qed.

Lemma for_each_ext {A S} (xs : list A) (f g : A → S → option S) (s : S) :
  (∀ x s, x ∈ xs → f x s = g x s) → for_each xs f s = for_each xs g s.
Proof.
  revert s. induction xs as [|x xs IH]; intros s Hfg; simpl; [done|].
  rewrite Hfg by left. destruct (g x s) as [s'|]; simpl; [|done].
  apply IH. intros y t Hy. apply Hfg. by right.
Qed.

Lemma for_each_fmap {A B S} (h : A → B) (xs : list A) (body : B → S → option S) (s : S) :
  for_each (h <$> xs) body s = for_each xs (λ x, body (h x)) s.
Proof.
  revert s. induction xs as [|x xs IH]; intros s; simpl; [done|].
  destruct (body (h x) s); simpl; [apply IH|done].
Qed.

Lemma for_each_bind {A B S} (h : A → list B) (xs : list A) (body : B → S → option S) (s : S) :
  for_each (xs ≫= h) body s = for_each xs (λ x, for_each (h x) body) s.
Proof.
  revert s. induction xs as [|x xs IH]; intros s; simpl; [done|].
  rewrite for_each_app. destruct (for_each (h x) body s); simpl; [apply IH|done].
Qed.

(** A nested pair of loops over rows and columns visits [all_cells], in
    order. *)
Lemma for_each_nested {S} (n : Z) (body : Z → Z → S → option S) (s : S) :
  for_each (range n) (λ r, for_each (range n) (body r)) s =
  for_each (all_cells n) (λ rc, body rc.1 rc.2) s.
Proof.
  unfold all_cells. rewrite for_each_bind. apply for_each_ext.
  intros r t _. by rewrite for_each_fmap.
Qed.

Lemma for_each_inv {A S} (I : S → Prop) (xs : list A) (body : A → S → option S) (s : S) :
  (∀ x t, x ∈ xs → I t → ∃ t', body x t = Some t' ∧ I t') →
  I s → ∃ s', for_each xs body s = Some s' ∧ I s'.
Proof.
  revert s. induction xs as [|x xs IH]; intros s Hstep Hs; simpl; [by exists s|].
  destruct (Hstep x s) as (t & Ht & HIt); [by left|done|].
  rewrite Ht. simpl. apply IH; [|done].
  intros y u Hy. apply Hstep. by right.
Qed.

Lemma elem_of_range (n i : Z) : i ∈ range n ↔ 0 ≤ i < n.
Proof. unfold range. rewrite elem_of_seqZ. lia. Qed.

Lemma elem_of_all_cells (n : Z) (rc : Z * Z) : rc ∈ all_cells n ↔ inb n rc.1 rc.2.
Proof.
  unfold all_cells, inb. rewrite list_elem_of_bind. split.
  - intros (r & Hrc & Hr). apply list_elem_of_fmap in Hrc as (c & -> & Hc).
    simpl. by rewrite elem_of_range in Hr, Hc.
  - intros [Hr Hc]. exists rc.1. rewrite !elem_of_range. split; [|done].
    apply list_elem_of_fmap. exists rc.2. rewrite elem_of_range. by destruct rc.
Qed.

Lemma NoDup_range (n : Z) : NoDup (range n).
Proof. apply NoDup_seqZ. Qed.

Lemma NoDup_all_cells (n : Z) : NoDup (all_cells n).
Proof.
  unfold all_cells. apply NoDup_bind.
  - intros r1 r2 rc _ _ H1 H2.
    apply list_elem_of_fmap in H1 as (c1 & -> & _).
    apply list_elem_of_fmap in H2 as (c2 & Heq & _). congruence.
  - intros r _. apply NoDup_fmap_2; [|apply NoDup_range]. intros c1 c2. congruence.
  - apply NoDup_range.
Qed.

(** A loop whose body rewrites only the cell it visits, as a function of
    that cell's old value, rewrites every visited cell once. *)
Lemma for_each_cellwise_list {A} (n : Z) (body : Z * Z → list (list A) → option (list (list A)))
    (f : Z → Z → A → A) (cells : list (Z * Z)) (g : list (list A)) :
  (∀ r c h, inb n r c → wf_grid n h →
     ∃ h', body (r, c) h = Some h' ∧ wf_grid n h' ∧
       ∀ r' c', inb n r' c' →
         grid_get h' r' c' =
           if decide ((r', c') = (r, c)) then f r c <$> grid_get h r c else grid_get h r' c') →
  NoDup cells → Forall (λ rc, inb n rc.1 rc.2) cells → wf_grid n g →
  ∃ g', for_each cells body g = Some g' ∧ wf_grid n g' ∧
    ∀ r c, inb n r c →
      grid_get g' r c =
        if decide ((r, c) ∈ cells) then f r c <$> grid_get g r c else grid_get g r c.
Proof.
  intros Hbody. revert g.
  induction cells as [|[r0 c0] cells IH]; intros g Hnd Hin Hwf.
  - exists g. split; [done|]. split; [done|]. intros r c _.
    destruct (decide ((r, c) ∈ [])) as [Hel|]; [by apply elem_of_nil in Hel|done].
  - apply NoDup_cons in Hnd as [Hnotin Hnd]. apply Forall_cons in Hin as [Hin0 Hin].
    destruct (Hbody r0 c0 g Hin0 Hwf) as (h & Hh & Hwfh & Hgeth).
    destruct (IH h Hnd Hin Hwfh) as (g' & Hg' & Hwfg' & Hgetg').
    exists g'. simpl. rewrite Hh. simpl. split; [done|]. split; [done|].
    intros r c Hrc. rewrite Hgetg' by done. rewrite !Hgeth by done.
    destruct (decide ((r, c) = (r0, c0))) as [Heq|Hne].
    + injection Heq as -> ->.
      destruct (decide ((r0, c0) ∈ cells)); [done|].
      destruct (decide ((r0, c0) ∈ (r0, c0) :: cells)) as [|Hno]; [done|].
      exfalso. apply Hno. left.
    + destruct (decide ((r, c) ∈ cells)) as [Hel|Hnel].
      * destruct (decide ((r, c) ∈ (r0, c0) :: cells)) as [|Hno]; [done|].
        exfalso. apply Hno. by right.
      * destruct (decide ((r, c) ∈ (r0, c0) :: cells)) as [Hel|]; [|done].
        apply elem_of_cons in Hel as [?|?]; done.
Qed.

Lemma for_each_cellwise {A} (n : Z) (body : Z → Z → list (list A) → option (list (list A)))
    (f : Z → Z → A → A) (g : list (list A)) :
  (∀ r c h, inb n r c → wf_grid n h →
     ∃ h', body r c h = Some h' ∧ wf_grid n h' ∧
       ∀ r' c', inb n r' c' →
         grid_get h' r' c' =
           if decide ((r', c') = (r, c)) then f r c <$> grid_get h r c else grid_get h r' c') →
  wf_grid n g →
  ∃ g', for_each (range n) (λ r, for_each (range n) (body r)) g = Some g' ∧ wf_grid n g' ∧
    ∀ r c, inb n r c → grid_get g' r c = f r c <$> grid_get g r c.
Proof.
  intros Hbody Hwf. rewrite for_each_nested.
  destruct (for_each_cellwise_list n (λ rc, body rc.1 rc.2) f (all_cells n) g)
    as (g' & Hg' & Hwf' & Hget); [done|apply NoDup_all_cells| |done|].
  { apply Forall_forall. intros rc. by rewrite elem_of_all_cells. }
  exists g'. split; [done|]. split; [done|]. intros r c Hrc.
  rewrite Hget by done.
  destruct (decide ((r, c) ∈ all_cells n)) as [|Hno]; [done|].
  exfalso. apply Hno. by apply elem_of_all_cells.
Qed.

(** ** The board *)

Lemma knowledge_cell_spec (n : Z) (g view : list (list Z)) (r c : Z) :
  wf_grid n g → inb n r c → wf_grid n view →
  ∃ view', knowledge_cell g r c view = Some view' ∧ wf_grid n view' ∧
    ∀ r' c', inb n r' c' →
      grid_get view' r' c' =
        if decide ((r', c') = (r, c)) then visible <$> grid_get g r c
        else grid_get view r' c'.
Proof.
  intros Hg Hrc Hview.
  destruct (grid_get_is_Some n g r c Hg Hrc) as [cell Hcell].
  unfold knowledge_cell. rewrite Hcell. simpl. unfold visible.
  destruct (bool_decide (cell = HIT)); [by apply grid_set_spec|].
  destruct (bool_decide (cell = MISS)); by apply grid_set_spec.
Qed.

Lemma get_ai_knowledge_spec (b : Board) :
  wf_grid (board_size b) (board_grid b) →
  ∃ view, get_ai_knowledge b = Some view ∧ wf_grid (board_size b) view ∧
    ∀ r c, inb (board_size b) r c →
      grid_get view r c = visible <$> grid_get (board_grid b) r c.
Proof.
  intros Hwf. unfold get_ai_knowledge.
  destruct (for_each_cellwise (board_size b) (knowledge_cell (board_grid b))
              (λ r c _, default UNKNOWN (visible <$> grid_get (board_grid b) r c))
              (make_grid (board_size b) (-1)))
    as (view & Hview & Hwfv & Hget).
  - intros r c h Hrc Hh.
    destruct (knowledge_cell_spec _ _ h r c Hwf Hrc Hh) as (h' & Hh' & Hwfh' & Hgeth').
    exists h'. split; [done|]. split; [done|]. intros r' c' Hrc'.
    rewrite Hgeth' by done. destruct (decide ((r', c') = (r, c))); [|done].
    destruct (grid_get_is_Some _ _ r c Hwf Hrc) as [x ->].
    destruct (grid_get_is_Some _ _ r c Hh Hrc) as [y ->]. done.
  - apply wf_grid_make. by destruct Hwf.
  - exists view. split; [done|]. split; [done|]. intros r c Hrc.
    rewrite Hget by done. rewrite grid_get_make by done.
    by destruct (grid_get_is_Some _ _ r c Hwf Hrc) as [x ->].
Qed.

(** C9: the knowledge view shows Hit as Hit, Miss as Miss and every other
    cell as Unknown; so two boards of one size whose Hit cells and Miss cells
    agree have the same view, wherever their un-hit ships are. *)
Theorem get_ai_knowledge_hides_ships (b : Board) :
  wf_grid (board_size b) (board_grid b) →
  ∃ view, get_ai_knowledge b = Some view ∧ wf_grid (board_size b) view ∧
    (∀ r c cell, inb (board_size b) r c → grid_get (board_grid b) r c = Some cell →
       grid_get view r c =
         Some (if decide (cell = HIT) then HIT
               else if decide (cell = MISS) then MISS else UNKNOWN)) ∧
    (∀ b2, board_size b2 = board_size b → wf_grid (board_size b2) (board_grid b2) →
       (∀ r c, inb (board_size b) r c →
          (grid_get (board_grid b) r c = Some HIT ↔ grid_get (board_grid b2) r c = Some HIT) ∧
          (grid_get (board_grid b) r c = Some MISS ↔ grid_get (board_grid b2) r c = Some MISS)) →
       get_ai_knowledge b2 = Some view).
Proof.
  intros Hwf.
  destruct (get_ai_knowledge_spec b Hwf) as (view & Hview & Hwfv & Hget).
  exists view. split; [done|]. split; [done|]. split.
  - intros r c cell Hrc Hcell. rewrite Hget, Hcell by done. simpl. unfold visible.
    destruct (decide (cell = HIT)); [by rewrite bool_decide_eq_true_2|].
    rewrite bool_decide_eq_false_2 by done.
    destruct (decide (cell = MISS)); [by rewrite bool_decide_eq_true_2|].
    by rewrite bool_decide_eq_false_2.
  - intros b2 Hsize Hwf2 Hagree.
    destruct (get_ai_knowledge_spec b2 Hwf2) as (view2 & Hview2 & Hwfv2 & Hget2).
    rewrite Hview2. f_equal. rewrite Hsize in *.
    apply (grid_ext (board_size b)); [done..|].
    intros r c Hrc. rewrite Hget, Hget2 by done.
    destruct (Hagree r c Hrc) as [Hhit Hmiss].
    destruct (grid_get_is_Some _ _ r c Hwf Hrc) as [x Hx].
    destruct (grid_get_is_Some _ _ r c Hwf2 Hrc) as [y Hy].
    rewrite Hx, Hy in *. simpl. f_equal. unfold visible.
    assert (x = HIT ↔ y = HIT) as Hh by (split; intros ->; intuition congruence).
    assert (x = MISS ↔ y = MISS) as Hm by (split; intros ->; intuition congruence).
    repeat case_bool_decide; intuition congruence.
Qed.

(** C6: a shot out of bounds, or at a cell that is already Hit or Miss,
    reports no hit and no sunk ship and returns the board as it was. *)
Theorem receive_shot_noop (b : Board) (r c : Z) :
  in_bounds b r c = false ∨
  grid_get (board_grid b) r c = Some HIT ∨ grid_get (board_grid b) r c = Some MISS →
  ∃ rep, receive_shot b r c = Some (rep, b) ∧ hit rep = false ∧ sunk_length rep = None.
Proof.
  intros Hcase. unfold receive_shot.
  destruct (in_bounds b r c) eqn:Hin; simpl.
  - destruct Hcase as [?|Hcell]; [done|].
    assert (∃ cell, grid_get (board_grid b) r c = Some cell ∧ (cell = HIT ∨ cell = MISS))
      as (cell & -> & Hc) by (destruct Hcell; eauto).
    simpl. rewrite bool_decide_eq_true_2 by done. by eexists.
  - by eexists.
Qed.

(** ** Sunk detection *)

Lemma filter_length_iff {A} (P Q : A → Prop) `{∀ x, Decision (P x)} `{∀ x, Decision (Q x)}
    (l : list A) :
  (∀ x, x ∈ l → P x ↔ Q x) → length (filter P l) = length (filter Q l).
Proof.
  induction l as [|x l IH]; intros HPQ; [done|].
  rewrite !filter_cons.
  assert (length (filter P l) = length (filter Q l)) as IH'.
  { apply IH. intros y Hy. apply HPQ. by right. }
  pose proof (HPQ x (list_elem_of_here _ _)) as Hx.
  destruct (decide (P x)), (decide (Q x)); simpl; try tauto; by rewrite ?IH'.
Qed.

Lemma filter_length_drop {A} (P Q : A → Prop) `{∀ x, Decision (P x)} `{∀ x, Decision (Q x)}
    (l : list A) (x : A) :
  NoDup l → x ∈ l → P x → ¬ Q x → (∀ y, y ∈ l → y ≠ x → P y ↔ Q y) →
  length (filter P l) = S (length (filter Q l)).
Proof.
  induction l as [|y l IH]; intros Hnd Hx HP HQ HPQ; [by apply elem_of_nil in Hx|].
  apply NoDup_cons in Hnd as [Hy Hnd]. rewrite !filter_cons.
  apply elem_of_cons in Hx as [->|Hx].
  - destruct (decide (P y)); [|done]. destruct (decide (Q y)); [done|]. simpl.
    f_equal. apply filter_length_iff. intros z Hz. apply HPQ; [by right|].
    intros ->. done.
  - assert (y ≠ x) as Hne by (intros ->; done).
    assert (length (filter P l) = S (length (filter Q l))) as IH'.
    { apply IH; try done. intros z Hz. apply HPQ. by right. }
    pose proof (HPQ y (list_elem_of_here _ _) Hne) as Hyy.
    destruct (decide (P y)), (decide (Q y)); simpl; try tauto; by rewrite IH'.
Qed.

Lemma hit_ship_none (rc : Z * Z) (ss : list Ship) :
  (∀ s, s ∈ ss → rc ∉ ship_cells s) → hit_ship rc ss = (None, ss).
Proof.
  induction ss as [|s ss IH]; intros Hno; simpl; [done|].
  destruct (decide (rc ∈ ship_cells s)) as [Hin|_].
  - exfalso. by apply (Hno s); [left|].
  - rewrite IH; [done|]. intros t Ht. apply Hno. by right.
Qed.

Lemma hit_ship_owner (rc : Z * Z) (ss : list Ship) (k : nat) (s : Ship) :
  ss !! k = Some s → rc ∈ ship_cells s →
  (∀ j sj, (j < k)%nat → ss !! j = Some sj → rc ∉ ship_cells sj) →
  hit_ship rc ss =
    ((if bool_decide (ship_length s ≤ ship_hits s + 1) then Some (ship_length s) else None),
     <[k := mkShip (ship_length s) (ship_cells s) (ship_hits s + 1)]> ss).
Proof.
  revert k. induction ss as [|t ss IH]; intros k Hk Hin Hfirst; [done|].
  destruct k as [|k]; simpl in *.
  - injection Hk as ->. by rewrite decide_True.
  - rewrite decide_False by (apply (Hfirst 0%nat); [lia|done]).
    rewrite (IH k); [done..|]. intros j sj Hj Hsj. apply (Hfirst (S j)); [lia|done].
Qed.

Lemma live_cells_other (n : Z) (g g' : list (list Z)) (s : Ship) (r c : Z) (v : Z) :
  Forall (λ rc, inb n rc.1 rc.2) (ship_cells s) →
  (∀ r' c', inb n r' c' →
     grid_get g' r' c' = if decide ((r', c') = (r, c)) then Some v else grid_get g r' c') →
  (r, c) ∉ ship_cells s ∨ (grid_get g r c ≠ Some SHIP ∧ v ≠ SHIP) →
  length (live_cells g' s) = length (live_cells g s).
Proof.
  intros Hin Hget Hcase. unfold live_cells. apply filter_length_iff.
  intros [r' c'] Hrc. simpl. rewrite Forall_forall in Hin.
  rewrite Hget by (by apply (Hin (r', c'))).
  destruct (decide ((r', c') = (r, c))) as [Heq|]; [|done].
  injection Heq as -> ->. destruct Hcase as [?|[? ?]]; [done|].
  split; [congruence|done].
Qed.

Lemma live_cells_hit (n : Z) (g g' : list (list Z)) (s : Ship) (r c : Z) :
  NoDup (ship_cells s) → Forall (λ rc, inb n rc.1 rc.2) (ship_cells s) →
  (∀ r' c', inb n r' c' →
     grid_get g' r' c' = if decide ((r', c') = (r, c)) then Some HIT else grid_get g r' c') →
  (r, c) ∈ ship_cells s → grid_get g r c = Some SHIP →
  length (live_cells g s) = S (length (live_cells g' s)).
Proof.
  intros Hnd Hin Hget Hown Hcell. unfold live_cells.
  rewrite Forall_forall in Hin.
  apply filter_length_drop with (x := (r, c)); try done.
  - simpl. rewrite Hget by (by apply (Hin (r, c))). by rewrite decide_True.
  - intros [r' c'] Hrc Hne. simpl. rewrite Hget by (by apply (Hin (r', c'))).
    by rewrite decide_False.
Qed.

Lemma owner_cases (rc : Z * Z) (ss : list Ship) :
  (∃ k s, ss !! k = Some s ∧ rc ∈ ship_cells s) ∨ (∀ s, s ∈ ss → rc ∉ ship_cells s).
Proof.
  destruct (decide (Exists (λ s, rc ∈ ship_cells s) ss)) as [Hex|Hno].
  - left. apply Exists_exists in Hex as (s & Hs & Hown).
    apply list_elem_of_lookup_1 in Hs as [k Hk]. eauto.
  - right. intros s Hs Hown. apply Hno. apply Exists_exists. eauto.
Qed.

(** One call on a well-formed board: it returns, keeps the board well
    formed, and tells of each ship whether this call completed it. *)
Lemma receive_shot_step (b : Board) (r c : Z) :
  board_ok b →
  ∃ rep b', receive_shot b r c = Some (rep, b') ∧ board_ok b' ∧
    ∀ i s, board_ships b !! i = Some s →
      ∃ s', board_ships b' !! i = Some s' ∧
        ship_length s' = ship_length s ∧ ship_cells s' = ship_cells s ∧
        ship_hits s ≤ ship_hits s' ≤ ship_length s ∧ ship_hits s' ≤ ship_hits s + 1 ∧
        (((r, c) ∈ ship_cells s ∧ sunk_length rep = Some (ship_length s)) ↔
         (ship_hits s = ship_length s - 1 ∧ ship_hits s' = ship_length s)).
Proof.
  intros Hok. pose proof Hok as (Hwf & Hships & Hdisj).
  assert (Hbound : ∀ i s, board_ships b !! i = Some s → ship_hits s ≤ ship_length s).
  { intros i s Hs. rewrite Forall_forall in Hships.
    destruct (Hships s) as (_ & _ & _ & Hh); [by eapply list_elem_of_lookup_2|]. lia. }
  assert (Hsame : ∀ rep, sunk_length rep = None →
    ∀ i s, board_ships b !! i = Some s →
      ∃ s', board_ships b !! i = Some s' ∧
        ship_length s' = ship_length s ∧ ship_cells s' = ship_cells s ∧
        ship_hits s ≤ ship_hits s' ≤ ship_length s ∧ ship_hits s' ≤ ship_hits s + 1 ∧
        (((r, c) ∈ ship_cells s ∧ sunk_length rep = Some (ship_length s)) ↔
         (ship_hits s = ship_length s - 1 ∧ ship_hits s' = ship_length s))).
  { intros rep Hrep i s Hs. exists s. pose proof (Hbound i s Hs).
    split_and!; try done; try lia.
    split; [intros [_ ?]; congruence|lia]. }
  unfold receive_shot. destruct (in_bounds b r c) eqn:Hin; simpl.
  2:{ eexists _, b. split; [done|]. split; [done|]. by apply Hsame. }
  assert (Hrc : inb (board_size b) r c).
  { unfold in_bounds in Hin. apply andb_true_iff in Hin as [H1 H2].
    apply bool_decide_eq_true in H1, H2. done. }
  destruct (grid_get_is_Some _ _ r c Hwf Hrc) as [cell Hcell]. rewrite Hcell. simpl.
  case_bool_decide as Hshot.
  { eexists _, b. split; [done|]. split; [done|]. by apply Hsame. }
  case_bool_decide as Hship.
  - subst cell.
    destruct (grid_set_spec _ _ r c HIT Hwf Hrc) as (g' & Hset & Hwf' & Hget').
    rewrite Hset. simpl.
    destruct (owner_cases (r, c) (board_ships b)) as [(k & sk & Hk & Hown)|Hnone].
    + rewrite (hit_ship_owner _ _ k sk) by (try done; intros j sj Hj Hsj Hin';
        specialize (Hdisj j k sj sk (r, c) Hsj Hk Hin' Hown); lia).
      set (sk' := mkShip (ship_length sk) (ship_cells sk) (ship_hits sk + 1)).
      rewrite Forall_forall in Hships.
      destruct (Hships sk) as (Hnd & Hinb & Hlen & Hhits); [by eapply list_elem_of_lookup_2|].
      pose proof (live_cells_hit _ _ g' sk r c Hnd Hinb Hget' Hown Hcell) as Hlive.
      eexists _, _. split; [done|]. split.
      * split; [done|]. simpl. split.
        -- apply Forall_forall. intros t Ht.
           apply list_elem_of_lookup_1 in Ht as [i Hi].
           destruct (decide (i = k)) as [->|Hik].
           ++ rewrite list_lookup_insert_eq in Hi by (by eapply lookup_lt_Some).
              injection Hi as <-. unfold ship_ok, sk'. simpl.
              split_and!; try done. unfold live_cells in *. simpl in *. lia.
           ++ rewrite list_lookup_insert_ne in Hi by done.
              destruct (Hships t) as (Hnd' & Hinb' & Hlen' & Hhits');
                [by eapply list_elem_of_lookup_2|].
              unfold ship_ok. split_and!; try done.
              rewrite (live_cells_other _ (board_grid b) g' t r c HIT Hinb' Hget');
                [done|]. left. intros Hown'.
              by specialize (Hdisj i k t sk (r, c) Hi Hk Hown' Hown).
        -- intros i j si sj rc Hi Hj Hci Hcj.
           assert (∀ i si, <[k:=sk']> (board_ships b) !! i = Some si →
                     ∃ ti, board_ships b !! i = Some ti ∧ ship_cells ti = ship_cells si)
             as Hback.
           { intros i0 s0 H0. destruct (decide (i0 = k)) as [->|Hik].
             - rewrite list_lookup_insert_eq in H0 by (by eapply lookup_lt_Some).
               injection H0 as <-. by exists sk.
             - rewrite list_lookup_insert_ne in H0 by done. by exists s0. }
           destruct (Hback i si Hi) as (ti & Hti & Hcti).
           destruct (Hback j sj Hj) as (tj & Htj & Hctj).
           apply (Hdisj i j ti tj rc); try done; congruence.
      * simpl. intros i s Hs. destruct (decide (i = k)) as [->|Hik].
        -- assert (s = sk) as -> by congruence.
           exists sk'. rewrite list_lookup_insert_eq by (by eapply lookup_lt_Some).
           unfold sk'. simpl. split_and!; try done; try lia.
           split.
           ++ case_bool_decide; intros [_ ?]; [lia|done].
           ++ intros [? _]. split; [done|]. rewrite bool_decide_eq_true_2; [done|lia].
        -- exists s. rewrite list_lookup_insert_ne by done.
           pose proof (Hbound i s Hs).
           split_and!; try done; try lia.
           split; [|lia].
           intros [Hown' _]. specialize (Hdisj i k s sk (r, c) Hs Hk Hown' Hown). done.
    + rewrite hit_ship_none by done.
      eexists _, _. split; [done|]. split.
      * split; [done|]. simpl. split; [|done].
        rewrite Forall_forall in Hships. apply Forall_forall. intros t Ht.
        destruct (Hships t Ht) as (Hnd' & Hinb' & Hlen' & Hhits').
        unfold ship_ok. split_and!; try done.
        rewrite (live_cells_other _ (board_grid b) g' t r c HIT Hinb' Hget'); [done|].
        left. by apply Hnone.
      * by apply Hsame.
  - destruct (grid_set_spec _ _ r c MISS Hwf Hrc) as (g' & Hset & Hwf' & Hget').
    rewrite Hset. simpl. eexists _, _. split; [done|]. split.
    + split; [done|]. simpl. split; [|done].
      rewrite Forall_forall in Hships. apply Forall_forall. intros t Ht.
      destruct (Hships t Ht) as (Hnd' & Hinb' & Hlen' & Hhits').
      unfold ship_ok. split_and!; try done.
      rewrite (live_cells_other _ (board_grid b) g' t r c MISS Hinb' Hget'); [done|].
      right. split; [congruence|done].
    + by apply Hsame.
Qed.


(** ** Hit clusters *)

Lemma length_all_cells (n : Z) : (length (all_cells n) ≤ Z.to_nat (n * n))%nat.
Proof.
  unfold all_cells, range.
  assert (∀ l : list Z, length (l ≫= λ r, pair r <$> seqZ 0 n) = (length l * Z.to_nat n)%nat)
    as Hlen.
  { induction l as [|x l IH]; [done|]. rewrite bind_cons, length_app, IH.
    rewrite length_fmap, length_seqZ. done. }
  rewrite Hlen, length_seqZ. destruct (decide (0 ≤ n)); [|lia].
  rewrite <- Z2Nat.inj_mul by lia. done.
Qed.

Lemma unvisited_le (n : Z) (visited : list (list bool)) :
  (unvisited n visited ≤ Z.to_nat (n * n))%nat.
Proof.
  unfold unvisited. etransitivity; [apply length_filter|apply length_all_cells].
Qed.

Lemma unvisited_mark (n : Z) (visited visited' : list (list bool)) (r c : Z) :
  inb n r c → grid_get visited r c = Some false →
  (∀ r' c', inb n r' c' →
     grid_get visited' r' c' =
       if decide ((r', c') = (r, c)) then Some true else grid_get visited r' c') →
  unvisited n visited = S (unvisited n visited').
Proof.
  intros Hrc Hv Hget. unfold unvisited.
  apply filter_length_drop with (x := (r, c)).
  - apply NoDup_all_cells.
  - by apply elem_of_all_cells.
  - done.
  - simpl. rewrite Hget by done. by rewrite decide_True.
  - intros [r' c'] Hin Hne. simpl. apply elem_of_all_cells in Hin.
    rewrite Hget by done. by rewrite decide_False.
Qed.

Lemma dfs_neighbor_spec (n : Z) (k : list (list Z)) (seen0 : gset (Z * Z))
    (rr cc : Z) (d : Z * Z) (visited : list (list bool)) (stack : list (Z * Z))
    (comp : gset (Z * Z)) :
  wf_grid n k → dfs_inv n k seen0 visited stack comp →
  ∃ visited' stack',
    dfs_neighbor n k rr cc d (visited, stack) = Some (visited', stack') ∧
    dfs_inv n k seen0 visited' stack' comp ∧
    (length stack' + unvisited n visited' = length stack + unvisited n visited)%nat ∧
    stack ⊆ stack'.
Proof.
  intros Hk (Hwf & Hcells & Hvis). unfold dfs_neighbor.
  destruct (bool_decide (0 ≤ rr + d.1 < n) && bool_decide (0 ≤ cc + d.2 < n)) eqn:Hb.
  2:{ exists visited, stack. by split_and!. }
  apply andb_true_iff in Hb as [Hr Hc]. apply bool_decide_eq_true in Hr, Hc.
  assert (Hin : inb n (rr + d.1) (cc + d.2)) by done.
  destruct (grid_get_is_Some _ _ _ _ Hwf Hin) as [v Hv]. rewrite Hv. simpl.
  destruct v; simpl.
  { exists visited, stack. by split_and!. }
  destruct (grid_get_is_Some _ _ _ _ Hk Hin) as [cell Hcell]. rewrite Hcell. simpl.
  case_bool_decide as Hhit.
  2:{ exists visited, stack. by split_and!. }
  subst cell.
  destruct (grid_set_spec _ _ _ _ true Hwf Hin) as (visited' & Hset & Hwf' & Hget').
  rewrite Hset. simpl. exists visited', ((rr + d.1, cc + d.2) :: stack).
  split; [done|]. split.
  - split; [done|]. split.
    + intros rc [Hrc|Hrc].
      * apply elem_of_cons in Hrc as [->|Hrc]; [|apply Hcells; by left].
        simpl. split; [done|]. split; [done|]. intros Hseen.
        assert (grid_get visited (rr + d.1) (cc + d.2) = Some true) as Htrue.
        { apply (Hvis (rr + d.1, cc + d.2)); [done|]. by left. }
        congruence.
      * apply Hcells. by right.
    + intros [r' c'] Hrc'. simpl in *. rewrite Hget' by done.
      rewrite elem_of_cons. specialize (Hvis (r', c') Hrc'). simpl in Hvis.
      destruct (decide ((r', c') = (rr + d.1, cc + d.2))) as [Heq|Hne].
      * split; [intros _|done]. right. right. by left.
      * rewrite Hvis. tauto.
  - simpl. rewrite (unvisited_mark n visited visited' _ _ Hin Hv Hget').
    split; [lia|]. set_solver.
Qed.

Lemma dfs_neighbors_spec (n : Z) (k : list (list Z)) (seen0 : gset (Z * Z))
    (rr cc : Z) (visited : list (list bool)) (stack : list (Z * Z)) (comp : gset (Z * Z)) :
  wf_grid n k → dfs_inv n k seen0 visited stack comp →
  ∃ st, for_each DIRS (dfs_neighbor n k rr cc) (visited, stack) = Some st ∧
    dfs_inv n k seen0 st.1 st.2 comp ∧
    (length st.2 + unvisited n st.1 = length stack + unvisited n visited)%nat ∧
    stack ⊆ st.2.
Proof.
  intros Hk Hinv.
  apply (for_each_inv (λ st, dfs_inv n k seen0 st.1 st.2 comp ∧
    (length st.2 + unvisited n st.1 = length stack + unvisited n visited)%nat ∧
    stack ⊆ st.2)); [|done].
  intros d [v s] _ (Hi & Hm & Hsub). simpl in *.
  destruct (dfs_neighbor_spec n k seen0 rr cc d v s comp Hk Hi)
    as (v' & s' & Hstep & Hi' & Hm' & Hsub').
  exists (v', s'). split; [done|]. split; [done|]. simpl. split; [lia|].
  by transitivity s.
Qed.

Lemma dfs_loop_spec (n : Z) (k : list (list Z)) (seen0 : gset (Z * Z)) :
  wf_grid n k →
  ∀ fuel visited stack comp,
    dfs_inv n k seen0 visited stack comp →
    (length stack + unvisited n visited ≤ fuel)%nat →
    ∃ res, dfs_loop fuel n k visited stack comp = Some res ∧
      dfs_inv n k seen0 res.1 [] res.2 ∧ comp ⊆ res.2 ∧ (∀ rc, rc ∈ stack → rc ∈ res.2).
Proof.
  intros Hk. induction fuel as [|fuel IH]; intros visited stack comp Hinv Hfuel.
  - destruct stack as [|[rr cc] stack]; [|simpl in Hfuel; lia].
    exists (visited, comp). simpl. split; [done|]. split; [done|]. split; [done|].
    intros rc Hrc. by apply elem_of_nil in Hrc.
  - destruct stack as [|[rr cc] stack].
    { exists (visited, comp). simpl. split; [done|]. split; [done|]. split; [done|].
      intros rc Hrc. by apply elem_of_nil in Hrc. }
    assert (Hpop : dfs_inv n k seen0 visited stack ({[(rr, cc)]} ∪ comp)).
    { destruct Hinv as (Hwf & Hcells & Hvis). split; [done|]. split.
      - intros rc Hrc. apply Hcells. rewrite elem_of_cons. set_solver.
      - intros rc Hrc. rewrite (Hvis rc Hrc), elem_of_cons. set_solver. }
    destruct (dfs_neighbors_spec n k seen0 rr cc visited stack _ Hk Hpop)
      as ([v s] & Hloop & Hinv' & Hm & Hmono). simpl in *.
    destruct (IH v s ({[(rr, cc)]} ∪ comp) Hinv') as (res & Hres & Hfin & Hsub & Hstack);
      [lia|].
    exists res. rewrite Hloop. simpl. split; [done|]. split; [done|].
    split; [set_solver|]. intros rc Hrc. apply elem_of_cons in Hrc as [->|Hrc]; [set_solver|].
    apply Hstack. by apply Hmono.
Qed.

Lemma hit_clusters_cell_spec (n : Z) (k : list (list Z)) (r c : Z)
    (visited : list (list bool)) (clusters : list cluster) :
  wf_grid n k → inb n r c → clusters_inv n k visited clusters →
  ∃ st, hit_clusters_cell n k r c (visited, clusters) = Some st ∧
    clusters_inv n k st.1 st.2.
Proof.
  intros Hk Hrc Hinv. pose proof Hinv as (Hwf & Hvis & Hall & Hdisj).
  unfold hit_clusters_cell.
  destruct (grid_get_is_Some _ _ _ _ Hk Hrc) as [cell Hcell]. rewrite Hcell. simpl.
  case_bool_decide as Hhit; [|by exists (visited, clusters)]. subst cell.
  destruct (grid_get_is_Some _ _ _ _ Hwf Hrc) as [v Hv]. rewrite Hv. simpl.
  destruct v; simpl; [by exists (visited, clusters)|].
  destruct (grid_set_spec _ _ _ _ true Hwf Hrc) as (visited1 & Hset & Hwf1 & Hget1).
  rewrite Hset. simpl.
  set (seen0 := ⋃ (fst <$> clusters) : gset (Z * Z)).
  assert (Hseen0 : ∀ rc, rc ∈ seen0 ↔ ∃ cl, cl ∈ clusters ∧ rc ∈ cl.1).
  { intros rc. unfold seen0. rewrite elem_of_union_list. split.
    - intros (X & HX & Hin). apply list_elem_of_fmap in HX as (cl & -> & Hcl). eauto.
    - intros (cl & Hcl & Hin). exists cl.1. split; [|done].
      apply list_elem_of_fmap. eauto. }
  assert (Hstart : dfs_inv n k seen0 visited1 [(r, c)] ∅).
  { split; [done|]. split.
    - intros rc [Hin|Hin]; [|set_solver]. apply list_elem_of_singleton in Hin as ->.
      simpl. split; [done|]. split; [done|]. rewrite Hseen0. intros Hex.
      apply (Hvis (r, c) Hrc) in Hex. simpl in Hex. congruence.
    - intros [r' c'] Hrc'. simpl in *. rewrite Hget1 by done.
      rewrite list_elem_of_singleton, Hseen0, <- (Hvis (r', c') Hrc'). simpl.
      destruct (decide ((r', c') = (r, c))) as [Heq|Hne].
      + split; [intros _|done]. right. by right.
      + split; [tauto|]. intros [?|[?|?]]; [done|set_solver|done]. }
  destruct (dfs_loop_spec n k seen0 Hk (Z.to_nat (n * n)) visited1 [(r, c)] ∅ Hstart)
    as ([visited2 comp] & Hdfs & (Hwf2 & Hcells2 & Hvis2) & _ & Hroot).
  { pose proof (unvisited_mark n visited visited1 r c Hrc Hv Hget1).
    pose proof (unvisited_le n visited). simpl. lia. }
  rewrite Hdfs. simpl in *. eexists. split; [done|]. simpl.
  split; [done|]. split; [|split].
  - intros rc Hin. rewrite (Hvis2 rc Hin), Hseen0. split.
    + intros [(cl & Hcl & Hmem)|[Hmem|Hmem]].
      * exists cl. split; [|done]. apply elem_of_app. by left.
      * exists (comp, infer_orientation comp). split; [|done].
        apply elem_of_app. right. apply list_elem_of_singleton. done.
      * by apply elem_of_nil in Hmem.
    + intros (cl & Hcl & Hmem). apply elem_of_app in Hcl as [Hcl|Hcl]; [left; eauto|].
      apply list_elem_of_singleton in Hcl as ->. right. by left.
  - apply Forall_app. split; [done|]. apply Forall_singleton. simpl.
    split; [|split; [done|]].
    + assert ((r, c) ∈ comp) by (apply Hroot; apply list_elem_of_singleton; done).
      set_solver.
    + intros rc Hmem. destruct (Hcells2 rc) as (? & ? & _); [by right|done].
  - intros i j ci cj rc Hi Hj Hmi Hmj.
    assert (∀ i ci, (clusters ++ [(comp, infer_orientation comp)]) !! i = Some ci →
              (i < length clusters)%nat ∧ clusters !! i = Some ci ∨
              i = length clusters ∧ ci = (comp, infer_orientation comp)) as Hcases.
    { intros i0 c0 H0. apply lookup_app_Some in H0 as [H0|[Hge H0]].
      - left. split; [by eapply lookup_lt_Some|done].
      - right. apply list_lookup_singleton_Some in H0 as [? ?]. split; [lia|done]. }
    assert (∀ i ci, clusters !! i = Some ci → rc ∈ ci.1 → rc ∈ comp → False) as Hfresh.
    { intros i0 c0 H0 Hm0 Hmc. destruct (Hcells2 rc) as (_ & _ & Hnot); [by right|].
      apply Hnot. apply Hseen0. exists c0. split; [|done]. by eapply list_elem_of_lookup_2. }
    destruct (Hcases i ci Hi) as [[Hlti Hci]|[-> ->]],
             (Hcases j cj Hj) as [[Hltj Hcj]|[-> ->]]; simpl in *.
    + by eapply Hdisj.
    + exfalso. by eapply Hfresh.
    + exfalso. by eapply Hfresh.
    + done.
Qed.

Lemma hit_clusters_spec (ai : BattleshipAI) (k : list (list Z)) :
  wf_grid (ai_size ai) k →
  ∃ clusters visited, hit_clusters ai k = Some clusters ∧
    clusters_inv (ai_size ai) k visited clusters.
Proof.
  intros Hk. unfold hit_clusters. rewrite for_each_nested.
  destruct (for_each_inv (λ st, clusters_inv (ai_size ai) k st.1 st.2) (all_cells (ai_size ai))
              (λ rc, hit_clusters_cell (ai_size ai) k rc.1 rc.2)
              (make_grid (ai_size ai) false, [])) as ([visited clusters] & Hrun & Hinv).
  - intros [r c] [v cl] Hrc Hinv. apply elem_of_all_cells in Hrc.
    by apply hit_clusters_cell_spec.
  - simpl. split; [apply wf_grid_make; by destruct Hk|]. split; [|split].
    + intros rc Hrc. rewrite grid_get_make by done. split; [done|].
      intros (cl & Hcl & _). by apply elem_of_nil in Hcl.
    + constructor.
    + intros i j ci cj rc Hi. done.
  - exists clusters, visited. rewrite Hrun. done.
Qed.

(** ** Heat *)

Lemma cell_at_get (n : Z) (g : list (list Z)) (r c : Z) :
  wf_grid n g → inb n r c → grid_get g r c = Some (cell_at g r c).
Proof.
  intros Hwf Hrc. unfold cell_at.
  by destruct (grid_get_is_Some n g r c Hwf Hrc) as [v ->].
Qed.

Lemma grid_add_spec (n : Z) (g : list (list Z)) (r c d : Z) :
  wf_grid n g → inb n r c →
  ∃ g', grid_add g r c d = Some g' ∧ wf_grid n g' ∧
    ∀ r' c', inb n r' c' →
      grid_get g' r' c' =
        if decide ((r', c') = (r, c)) then (λ v, v + d) <$> grid_get g r c
        else grid_get g r' c'.
Proof.
  intros Hwf Hrc. unfold grid_add. rewrite (cell_at_get n) by done. simpl.
  by apply grid_set_spec.
Qed.

Lemma grid_add_ok (n : Z) (g : list (list Z)) (r c d : Z) :
  heat_ok n g → inb n r c → 0 ≤ d →
  ∃ g', grid_add g r c d = Some g' ∧ heat_ok n g'.
Proof.
  intros [Hwf Hpos] Hrc Hd.
  destruct (grid_add_spec n g r c d Hwf Hrc) as (g' & Hadd & Hwf' & Hget).
  exists g'. split; [done|]. split; [done|]. intros r' c' Hrc'.
  unfold cell_at at 1. rewrite Hget by done.
  destruct (decide ((r', c') = (r, c))) as [Heq|Hne].
  - rewrite (cell_at_get n) by done. simpl. specialize (Hpos r c Hrc). lia.
  - fold (cell_at g r' c'). by apply Hpos.
Qed.

Lemma elem_of_placement_cells (r c length : Z) (horizontal : bool) (rc : Z * Z) :
  rc ∈ placement_cells r c length horizontal ↔
  ∃ i, 0 ≤ i < length ∧ rc = (place_row r horizontal i, place_col c horizontal i).
Proof.
  unfold placement_cells. rewrite list_elem_of_fmap.
  split; intros (i & H1 & H2); exists i.
  - by rewrite elem_of_range in H2.
  - by rewrite elem_of_range.
Qed.

Lemma NoDup_placement_cells (r c length : Z) (horizontal : bool) :
  NoDup (placement_cells r c length horizontal).
Proof.
  unfold placement_cells. apply NoDup_fmap_2_strong; [|apply NoDup_range].
  intros i j _ _ Heq. unfold place_row, place_col in Heq.
  destruct horizontal; injection Heq; lia.
Qed.

Lemma valid_placement_loop_spec (n : Z) (k : list (list Z)) (r c : Z)
    (horizontal : bool) (steps : list Z) :
  wf_grid n k →
  valid_placement_loop n k r c horizontal steps =
    Some (bool_decide (clear_of_misses n k
            ((λ i, (place_row r horizontal i, place_col c horizontal i)) <$> steps))).
Proof.
  intros Hk. induction steps as [|i steps IH]; simpl.
  - done.
  - set (rr := place_row r horizontal i). set (cc := place_col c horizontal i).
    rewrite IH. unfold clear_of_misses.
    destruct (decide (rr < 0 ∨ n ≤ rr ∨ cc < 0 ∨ n ≤ cc)) as [Hout|Hout].
    { rewrite (bool_decide_eq_true_2 _ Hout). f_equal. symmetry.
      apply bool_decide_eq_false_2. intros Hclear.
      apply Forall_cons in Hclear as [[[? ?] _] _]. simpl in *. lia. }
    rewrite (bool_decide_eq_false_2 _ Hout).
    assert (Hin : inb n rr cc) by (unfold inb; lia).
    destruct (grid_get_is_Some _ _ _ _ Hk Hin) as [cell Hcell]. rewrite Hcell. simpl.
    destruct (decide (cell = MISS)) as [Hmiss|Hmiss].
    { rewrite (bool_decide_eq_true_2 _ Hmiss). f_equal. symmetry.
      apply bool_decide_eq_false_2. intros Hclear.
      apply Forall_cons in Hclear as [[_ Hne] _]. simpl in Hne. congruence. }
    rewrite (bool_decide_eq_false_2 _ Hmiss). f_equal. apply bool_decide_ext.
    rewrite Forall_cons. simpl. rewrite Hcell. split; [|tauto].
    intros Hrest. split; [|done]. split; [done|]. congruence.
Qed.

Lemma valid_placement_spec (ai : BattleshipAI) (k : list (list Z)) (r c length : Z)
    (horizontal : bool) :
  wf_grid (ai_size ai) k →
  valid_placement_on_knowledge ai k r c length horizontal =
    Some (bool_decide (clear_of_misses (ai_size ai) k
                         (placement_cells r c length horizontal))).
Proof. intros Hk. by apply valid_placement_loop_spec. Qed.

Lemma filter_length_le_1 {A} (P : A → Prop) `{∀ x, Decision (P x)} (l : list A) :
  (length (filter P l) ≤ 1)%nat ↔
  ∀ i j x y, l !! i = Some x → l !! j = Some y → P x → P y → i = j.
Proof.
  induction l as [|a l IH].
  - split; [intros _ i j x y Hi; done|simpl; lia].
  - rewrite filter_cons. destruct (decide (P a)) as [Ha|Ha]; simpl.
    + split.
      * intros Hlen. assert (filter P l = []) as Hnil.
        { destruct (filter P l); [done|simpl in Hlen; lia]. }
        assert (∀ i x, l !! i = Some x → ¬ P x) as Hno.
        { intros i x Hi Hx. assert (x ∈ filter P l) as Hin.
          { apply list_elem_of_filter. split; [done|]. by eapply list_elem_of_lookup_2. }
          rewrite Hnil in Hin. by apply elem_of_nil in Hin. }
        intros [|i] [|j] x y Hi Hj Hx Hy; simpl in *; [done|..].
        -- exfalso. by eapply Hno.
        -- exfalso. by eapply Hno.
        -- exfalso. by eapply (Hno i x).
      * intros Huniq. destruct (filter P l) as [|x t] eqn:Hf; [simpl; lia|].
        assert (x ∈ filter P l) as Hx by (rewrite Hf; left).
        apply list_elem_of_filter in Hx as [Hpx Hx].
        apply list_elem_of_lookup_1 in Hx as [i Hi].
        specialize (Huniq 0%nat (S i) a x eq_refl Hi Ha Hpx). done.
    + rewrite IH. split.
      * intros Huniq [|i] [|j] x y Hi Hj Hx Hy; simpl in *.
        -- done.
        -- injection Hi as ->. done.
        -- injection Hj as ->. done.
        -- f_equal. by eapply Huniq.
      * intros Huniq i j x y Hi Hj Hx Hy.
        specialize (Huniq (S i) (S j) x y Hi Hj Hx Hy). lia.
Qed.

Lemma consistent_loop_spec (S : gset (Z * Z)) (length : Z) (horizontal : bool)
    (clusters : list cluster) (m : Z) :
  m ≤ 1 →
  consistent_loop S length horizontal clusters m = true ↔
  Forall (λ cl : cluster, S ∩ cl.1 ≠ ∅ →
            Z.of_nat (size cl.1) ≤ length ∧ cl.1 ⊆ S ∧
            (cl.2 = Some OrH → horizontal = true) ∧
            (cl.2 = Some OrV → horizontal = false)) clusters ∧
  m + Z.of_nat (List.length (filter (λ cl : cluster, S ∩ cl.1 ≠ ∅) clusters)) ≤ 1.
Proof.
  revert m. induction clusters as [|[comp orient] clusters IH]; intros m Hm; simpl.
  - split; [intros _; split; [constructor|lia]|done].
  - rewrite Forall_cons, filter_cons. simpl.
    destruct (decide (S ∩ comp = ∅)) as [Hempty|Hmeet].
    { destruct (decide (S ∩ comp ≠ ∅)) as [?|_]; [done|]. rewrite IH by done. tauto. }
    destruct (decide (S ∩ comp ≠ ∅)) as [_|?]; [|done]. simpl.
    destruct (decide (length < Z.of_nat (size comp))) as [Hbig|Hfit].
    { split; [done|]. intros [[Hex _] _]. specialize (Hex Hmeet). lia. }
    destruct (decide (comp ⊆ S)) as [Hsub|Hsub].
    2:{ rewrite bool_decide_eq_false_2 by done. simpl.
        split; [done|]. intros [[Hex _] _]. specialize (Hex Hmeet). tauto. }
    rewrite bool_decide_eq_true_2 by done. simpl.
    assert (Hrej : ¬ ((orient = Some OrH → horizontal = true) ∧
                      (orient = Some OrV → horizontal = false)) →
      false = true ↔
      ((S ∩ comp ≠ ∅ → Z.of_nat (size comp) ≤ length ∧ comp ⊆ S ∧
          (orient = Some OrH → horizontal = true) ∧
          (orient = Some OrV → horizontal = false)) ∧
       Forall (λ cl : cluster, S ∩ cl.1 ≠ ∅ →
                 Z.of_nat (size cl.1) ≤ length ∧ cl.1 ⊆ S ∧
                 (cl.2 = Some OrH → horizontal = true) ∧
                 (cl.2 = Some OrV → horizontal = false)) clusters) ∧
      m + Z.of_nat (Datatypes.S (List.length
            (filter (λ cl : cluster, S ∩ cl.1 ≠ ∅) clusters))) ≤ 1).
    { intros Hbad. split; [done|]. intros [[Hex _] _]. destruct (Hex Hmeet) as (_ & _ & Hh).
      done. }
    assert (Hacc : (orient = Some OrH → horizontal = true) ∧
                   (orient = Some OrV → horizontal = false) →
      (if decide (1 < m + 1) then false
       else consistent_loop S length horizontal clusters (m + 1)) = true ↔
      ((S ∩ comp ≠ ∅ → Z.of_nat (size comp) ≤ length ∧ comp ⊆ S ∧
          (orient = Some OrH → horizontal = true) ∧
          (orient = Some OrV → horizontal = false)) ∧
       Forall (λ cl : cluster, S ∩ cl.1 ≠ ∅ →
                 Z.of_nat (size cl.1) ≤ length ∧ cl.1 ⊆ S ∧
                 (cl.2 = Some OrH → horizontal = true) ∧
                 (cl.2 = Some OrV → horizontal = false)) clusters) ∧
      m + Z.of_nat (Datatypes.S (List.length
            (filter (λ cl : cluster, S ∩ cl.1 ≠ ∅) clusters))) ≤ 1).
    { intros Hgood. destruct (decide (1 < m + 1)) as [Hmany|Hfew].
      - split; [done|]. intros [_ Hcount]. lia.
      - rewrite IH by lia. split.
        + intros [Hall Hcount]. split; [split; [|done]|lia].
          intros _. split; [lia|]. split; [done|]. done.
        + intros [[_ Hall] Hcount]. split; [done|lia]. }
    destruct horizontal, orient as [[|]|]; simpl;
      (apply Hacc; split; done) || (apply Hrej; intros [Hh Hv];
          (by specialize (Hh eq_refl)) || (by specialize (Hv eq_refl))).
Qed.

Lemma meets_inter (cells : list (Z * Z)) (cl : cluster) :
  list_to_set (C := gset (Z * Z)) cells ∩ cl.1 ≠ ∅ ↔ meets cells cl.
Proof.
  unfold meets. split.
  - intros Hne. apply set_choose_L in Hne as [rc Hrc].
    apply elem_of_intersection in Hrc as [H1 H2]. apply elem_of_list_to_set in H1. eauto.
  - intros (rc & H1 & H2) Hempty.
    assert (rc ∈ list_to_set (C := gset (Z * Z)) cells ∩ cl.1) as Hin.
    { apply elem_of_intersection. split; [by apply elem_of_list_to_set|done]. }
    rewrite Hempty in Hin. by apply not_elem_of_empty in Hin.
Qed.

Lemma placement_consistent_spec (n : Z) (k : list (list Z)) (visited : list (list bool))
    (clusters : list cluster) (cells : list (Z * Z)) (length : Z) (horizontal : bool) :
  clusters_inv n k visited clusters →
  placement_consistent_with_clusters cells clusters length horizontal = true ↔
  (∀ cl, cl ∈ clusters → meets cells cl → explains cells length horizontal cl) ∧
  (∀ c1 c2, c1 ∈ clusters → c2 ∈ clusters → meets cells c1 → meets cells c2 → c1 = c2).
Proof.
  intros (_ & _ & Hall & Hdisj). unfold placement_consistent_with_clusters.
  rewrite consistent_loop_spec by lia.
  assert (Hlen : ∀ x : nat, 0 + Z.of_nat x ≤ 1 ↔ (x ≤ 1)%nat) by (intros x; lia).
  rewrite Hlen, filter_length_le_1, Forall_forall.
  assert (Hexp : ∀ cl : cluster,
    (Z.of_nat (size cl.1) ≤ length ∧ cl.1 ⊆ list_to_set (C := gset (Z * Z)) cells ∧
     (cl.2 = Some OrH → horizontal = true) ∧ (cl.2 = Some OrV → horizontal = false)) ↔
    explains cells length horizontal cl).
  { intros cl. unfold explains.
    assert (cl.1 ⊆ list_to_set (C := gset (Z * Z)) cells ↔ ∀ rc, rc ∈ cl.1 → rc ∈ cells) as ->;
      [|done].
    split.
    - intros Hsub rc Hrc. specialize (Hsub rc Hrc). by apply elem_of_list_to_set in Hsub.
    - intros Hsub rc Hrc. apply elem_of_list_to_set. by apply Hsub. }
  split.
  - intros [Hex Huniq]. split.
    + intros cl Hcl Hmeet. apply Hexp. apply Hex; [done|]. by apply meets_inter.
    + intros c1 c2 H1 H2 Hm1 Hm2.
      apply list_elem_of_lookup_1 in H1 as [i Hi].
      apply list_elem_of_lookup_1 in H2 as [j Hj].
      assert (i = j) as ->; [|congruence].
      apply (Huniq i j c1 c2); try done; by apply meets_inter.
  - intros [Hex Huniq]. split.
    + intros cl Hcl Hmeet. apply Hexp. apply Hex; [done|]. by apply meets_inter.
    + intros i j c1 c2 Hi Hj Hm1 Hm2. apply meets_inter in Hm1, Hm2.
      assert (c1 = c2) as <-.
      { apply Huniq; try done; by eapply list_elem_of_lookup_2. }
      destruct Hm1 as (rc & _ & Hrc). by apply (Hdisj i j c1 c1 rc).
Qed.

Lemma add_placement_spec (n : Z) (heat : list (list Z)) (r c length : Z) (horizontal : bool) :
  wf_grid n heat →
  Forall (λ rc, inb n rc.1 rc.2) (placement_cells r c length horizontal) →
  ∃ heat',
    for_each (range length)
      (λ i h, grid_add h (place_row r horizontal i) (place_col c horizontal i) 1) heat
      = Some heat' ∧ wf_grid n heat' ∧
    ∀ r' c', inb n r' c' →
      cell_at heat' r' c' =
        cell_at heat r' c' +
          (if decide ((r', c') ∈ placement_cells r c length horizontal) then 1 else 0).
Proof.
  intros Hwf Hin.
  destruct (for_each_cellwise_list n (λ rc h, grid_add h rc.1 rc.2 1) (λ _ _ v, v + 1)
              (placement_cells r c length horizontal) heat)
    as (heat' & Hrun & Hwf' & Hget); [|apply NoDup_placement_cells|done|done|].
  { intros r0 c0 h Hrc Hh. by apply grid_add_spec. }
  exists heat'. split; [|split; [done|]].
  - rewrite <- Hrun. unfold placement_cells. by rewrite for_each_fmap.
  - intros r' c' Hrc'. unfold cell_at at 1. rewrite Hget by done.
    rewrite (cell_at_get n heat) by done.
    destruct (decide ((r', c') ∈ placement_cells r c length horizontal)); simpl; lia.
Qed.

Lemma try_placement_spec (ai : BattleshipAI) (k : list (list Z)) (clusters : list cluster)
    (length : Z) (horizontal : bool) (r c : Z) (heat : list (list Z)) :
  let n := ai_size ai in
  let cells := placement_cells r c length horizontal in
  let counts := bool_decide (clear_of_misses n k cells) &&
                placement_consistent_with_clusters cells clusters length horizontal in
  wf_grid n k → wf_grid n heat →
  ∃ heat', try_placement ai k clusters length horizontal r c heat = Some heat' ∧
    wf_grid n heat' ∧
    ∀ r' c', inb n r' c' →
      cell_at heat' r' c' =
        cell_at heat r' c' + (if counts && bool_decide ((r', c') ∈ cells) then 1 else 0).
Proof.
  intros n cells counts Hk Hheat. unfold try_placement.
  rewrite valid_placement_spec by done. simpl. fold n cells. unfold counts.
  destruct (bool_decide (clear_of_misses n k cells)) eqn:Hclear; simpl.
  2:{ exists heat. split; [done|]. split; [done|]. intros; lia. }
  destruct (placement_consistent_with_clusters cells clusters length horizontal); simpl.
  2:{ exists heat. split; [done|]. split; [done|]. intros; lia. }
  apply bool_decide_eq_true in Hclear.
  destruct (add_placement_spec n heat r c length horizontal Hheat) as (heat' & Hrun & Hwf' & Hget).
  { eapply Forall_impl; [exact Hclear|]. by intros rc [? _]. }
  exists heat'. split; [done|]. split; [done|]. intros r' c' Hrc'.
  rewrite Hget by done. fold cells.
  destruct (decide ((r', c') ∈ cells)).
  - by rewrite bool_decide_eq_true_2.
  - by rewrite bool_decide_eq_false_2.
Qed.

Lemma for_each_cells_inv {S} (I : S → Prop) (n : Z) (body : Z → Z → S → option S) (s : S) :
  (∀ r c t, inb n r c → I t → ∃ t', body r c t = Some t' ∧ I t') →
  I s → ∃ s', for_each (range n) (λ r, for_each (range n) (body r)) s = Some s' ∧ I s'.
Proof.
  intros Hstep Hs. rewrite for_each_nested. apply for_each_inv; [|done].
  intros [r c] t Hrc Ht. apply elem_of_all_cells in Hrc. by apply Hstep.
Qed.

Lemma try_placement_ok (ai : BattleshipAI) (k : list (list Z)) (clusters : list cluster)
    (length : Z) (horizontal : bool) (r c : Z) (heat : list (list Z)) :
  wf_grid (ai_size ai) k → heat_ok (ai_size ai) heat →
  ∃ heat', try_placement ai k clusters length horizontal r c heat = Some heat' ∧
    heat_ok (ai_size ai) heat'.
Proof.
  intros Hk [Hwf Hpos].
  destruct (try_placement_spec ai k clusters length horizontal r c heat Hk Hwf)
    as (heat' & Hrun & Hwf' & Hget).
  exists heat'. split; [done|]. split; [done|]. intros r' c' Hrc'.
  rewrite Hget by done. specialize (Hpos r' c' Hrc').
  match goal with |- context [if ?b then 1 else 0] => destruct b end; lia.
Qed.

Lemma heat_ship_ok (ai : BattleshipAI) (k : list (list Z)) (clusters : list cluster)
    (length : Z) (heat : list (list Z)) :
  wf_grid (ai_size ai) k → heat_ok (ai_size ai) heat →
  ∃ heat', heat_ship ai k clusters length heat = Some heat' ∧ heat_ok (ai_size ai) heat'.
Proof.
  intros Hk Hheat. unfold heat_ship.
  destruct (for_each_inv (heat_ok (ai_size ai)) (range (ai_size ai))
              (λ r, for_each (range (ai_size ai - length + 1))
                      (λ c, try_placement ai k clusters length true r c)) heat)
    as (heat1 & Hrun1 & Hok1); [|done|].
  { intros r h _ Hh. apply for_each_inv; [|done].
    intros c h' _ Hh'. by apply try_placement_ok. }
  rewrite Hrun1. simpl. apply for_each_inv; [|done].
  intros r h _ Hh. apply for_each_inv; [|done].
  intros c h' _ Hh'. by apply try_placement_ok.
Qed.

Lemma heat_ok_make (n : Z) : 0 ≤ n → heat_ok n (make_grid n 0).
Proof.
  intros Hn. split; [by apply wf_grid_make|]. intros r c Hrc.
  unfold cell_at. by rewrite grid_get_make.
Qed.

Lemma heatmap_base_ok (ai : BattleshipAI) (k : list (list Z)) (ships : list Z) :
  wf_grid (ai_size ai) k →
  ∃ heat, heatmap_base ai k ships = Some heat ∧ heat_ok (ai_size ai) heat.
Proof.
  intros Hk. unfold heatmap_base.
  destruct (hit_clusters_spec ai k Hk) as (clusters & visited & -> & _). simpl.
  apply for_each_inv; [|apply heat_ok_make; by destruct Hk].
  intros length h _ Hh. by apply heat_ship_ok.
Qed.

Lemma boost_neighbor_ok (n : Z) (k : list (list Z)) (r c : Z) (d : Z * Z)
    (heat : list (list Z)) :
  wf_grid n k → heat_ok n heat →
  ∃ heat', boost_neighbor n k r c d heat = Some heat' ∧ heat_ok n heat'.
Proof.
  intros Hk Hh. unfold boost_neighbor.
  destruct (bool_decide (0 ≤ r + d.1 < n) && bool_decide (0 ≤ c + d.2 < n)) eqn:Hb;
    [|by exists heat].
  apply andb_true_iff in Hb as [Hr Hc]. apply bool_decide_eq_true in Hr, Hc.
  assert (Hin : inb n (r + d.1) (c + d.2)) by done.
  destruct (grid_get_is_Some _ _ _ _ Hk Hin) as [cell ->]. simpl.
  destruct (bool_decide (cell = -1)); [|by exists heat].
  apply grid_add_ok; [done..|lia].
Qed.

Lemma boost_cell_ok (n : Z) (k : list (list Z)) (r c : Z) (heat : list (list Z)) :
  wf_grid n k → inb n r c → heat_ok n heat →
  ∃ heat', boost_cell n k r c heat = Some heat' ∧ heat_ok n heat'.
Proof.
  intros Hk Hrc Hh. unfold boost_cell.
  destruct (grid_get_is_Some _ _ _ _ Hk Hrc) as [cell ->]. simpl.
  destruct (bool_decide (cell = HIT)); [|by exists heat].
  refine (for_each_inv (heat_ok n) DIRS (boost_neighbor n k r c) heat _ Hh).
  intros d h _ Hh'. by apply boost_neighbor_ok.
Qed.

Lemma heatmap_unpruned_ok (ai : BattleshipAI) (k : list (list Z)) (ships : list Z) :
  wf_grid (ai_size ai) k →
  ∃ heat, heatmap_unpruned ai k ships = Some heat ∧ heat_ok (ai_size ai) heat.
Proof.
  intros Hk. unfold heatmap_unpruned.
  destruct (heatmap_base_ok ai k ships Hk) as (heat & -> & Hok). simpl.
  apply for_each_cells_inv; [|done]. intros r c h Hrc Hh. by apply boost_cell_ok.
Qed.

Lemma any_hit_spec (n : Z) (k : list (list Z)) (cells : list (Z * Z)) :
  wf_grid n k → Forall (λ rc, inb n rc.1 rc.2) cells →
  any_hit k cells =
    Some (bool_decide (Exists (λ rc, grid_get k rc.1 rc.2 = Some HIT) cells)).
Proof.
  intros Hk Hin. induction cells as [|[r c] cells IH]; simpl.
  - done.
  - apply Forall_cons in Hin as [Hrc Hin]. simpl in Hrc.
    destruct (grid_get_is_Some _ _ _ _ Hk Hrc) as [cell Hcell]. rewrite Hcell. simpl.
    destruct (decide (cell = HIT)) as [->|Hne].
    + rewrite bool_decide_eq_true_2 by done. f_equal. symmetry.
      apply bool_decide_eq_true_2. by left.
    + rewrite (bool_decide_eq_false_2 (cell = HIT)) by done. rewrite IH by done.
      f_equal. apply bool_decide_ext. rewrite Exists_cons. simpl. rewrite Hcell.
      split; [tauto|]. intros [?|?]; [congruence|done].
Qed.

Lemma prune_cell_spec (n : Z) (heat : list (list Z)) (r c : Z) :
  inb n r c → wf_grid n heat →
  ∃ heat', prune_cell r c heat = Some heat' ∧ wf_grid n heat' ∧
    ∀ r' c', inb n r' c' →
      grid_get heat' r' c' =
        if decide ((r', c') = (r, c))
        then (λ v, if bool_decide ((r + c) `mod` 2 = 1) then Z.quot v 4 else v)
               <$> grid_get heat r c
        else grid_get heat r' c'.
Proof.
  intros Hrc Hwf. unfold prune_cell.
  destruct (bool_decide ((r + c) `mod` 2 = 1)).
  - rewrite (cell_at_get n) by done. simpl. by apply grid_set_spec.
  - exists heat. split; [done|]. split; [done|]. intros r' c' Hrc'.
    destruct (decide ((r', c') = (r, c))) as [Heq|]; [|done].
    injection Heq as -> ->. by rewrite (cell_at_get n).
Qed.

Lemma prune_spec (n : Z) (heat : list (list Z)) :
  wf_grid n heat →
  ∃ heat', for_each (range n) (λ r, for_each (range n) (prune_cell r)) heat = Some heat' ∧
    wf_grid n heat' ∧
    ∀ r c, inb n r c →
      cell_at heat' r c =
        if bool_decide ((r + c) `mod` 2 = 1) then Z.quot (cell_at heat r c) 4
        else cell_at heat r c.
Proof.
  intros Hwf.
  destruct (for_each_cellwise n prune_cell
              (λ r c v, if bool_decide ((r + c) `mod` 2 = 1) then Z.quot v 4 else v) heat)
    as (heat' & Hrun & Hwf' & Hget); [|done|].
  { intros r c h Hrc Hh. by apply prune_cell_spec. }
  exists heat'. split; [done|]. split; [done|]. intros r c Hrc.
  unfold cell_at at 1. rewrite Hget by done. rewrite (cell_at_get n heat) by done. done.
Qed.

Lemma heatmap_ok (ai : BattleshipAI) (k : list (list Z)) (ships_arg : option (list Z)) :
  wf_grid (ai_size ai) k →
  ∃ heat, heatmap ai k ships_arg = Some heat ∧ heat_ok (ai_size ai) heat.
Proof.
  intros Hk. unfold heatmap.
  destruct (heatmap_unpruned_ok ai k (py_or ships_arg (remaining_ships ai)) Hk)
    as (heat & -> & Hok). simpl.
  rewrite (any_hit_spec (ai_size ai)); [|done|].
  2:{ apply Forall_forall. intros rc. by rewrite elem_of_all_cells. }
  simpl. destruct (negb _ && _) eqn:Hb; [|by exists heat].
  apply andb_true_iff in Hb as [_ Hne]. apply bool_decide_eq_true in Hne.
  destruct (py_or ships_arg (remaining_ships ai)) as [|x l]; [done|]. simpl.
  destruct (bool_decide (2 ≤ foldl Z.min x l)); [|by exists heat].
  destruct Hok as [Hwf Hpos].
  destruct (prune_spec (ai_size ai) heat Hwf) as (heat' & Hrun & Hwf' & Hget).
  exists heat'. split; [done|]. split; [done|]. intros r c Hrc.
  rewrite Hget by done. specialize (Hpos r c Hrc).
  destruct (bool_decide _); [|done]. by apply Z.quot_pos.
Qed.

Lemma py_or_nonempty {A} (xs d : list A) : xs ≠ [] → py_or (Some xs) d = xs.
Proof. by destruct xs. Qed.

Lemma any_hit_none (n : Z) (k : list (list Z)) :
  wf_grid n k → (∀ r c, inb n r c → grid_get k r c ≠ Some HIT) →
  any_hit k (all_cells n) = Some false.
Proof.
  intros Hk Hno. rewrite (any_hit_spec n); [|done|].
  2:{ apply Forall_forall. intros rc. by rewrite elem_of_all_cells. }
  f_equal. apply bool_decide_eq_false_2. intros Hex.
  apply Exists_exists in Hex as ([r c] & Hrc & Hhit). apply elem_of_all_cells in Hrc.
  by apply (Hno r c).
Qed.

(** The parity pruning of [heatmap], on any grid without a Hit. *)
Lemma heatmap_prunes_odd_cells (ai : BattleshipAI) (k : list (list Z)) (ships : list Z)
    (min_len : Z) :
  let n := ai_size ai in
  wf_grid n k → (∀ r c, inb n r c → grid_get k r c ≠ Some HIT) →
  py_min ships = Some min_len → 2 ≤ min_len →
  ∃ unpruned heat,
    heatmap_unpruned ai k ships = Some unpruned ∧
    heatmap ai k (Some ships) = Some heat ∧
    ∀ r c, inb n r c →
      cell_at heat r c =
        if decide ((r + c) `mod` 2 = 1) then Z.quot (cell_at unpruned r c) 4
        else cell_at unpruned r c.
Proof.
  intros n Hk Hno Hmin Hlen.
  assert (ships ≠ []) as Hne by (by destruct ships).
  destruct (heatmap_unpruned_ok ai k ships Hk) as (unpruned & Hun & [Hwf Hpos]).
  destruct (prune_spec n unpruned Hwf) as (heat & Hrun & Hwf' & Hget).
  exists unpruned, heat. split; [done|]. split.
  - unfold heatmap. rewrite py_or_nonempty by done. rewrite Hun. simpl.
    fold n. rewrite (any_hit_none n) by done. simpl.
    rewrite bool_decide_eq_true_2 by done. rewrite Hmin. simpl.
    by rewrite bool_decide_eq_true_2.
  - intros r c Hrc. rewrite Hget by done.
    destruct (decide ((r + c) `mod` 2 = 1)).
    + by rewrite bool_decide_eq_true_2.
    + by rewrite bool_decide_eq_false_2.
Qed.

Lemma empty_list_is_falsy (ai : BattleshipAI) (k : list (list Z)) :
  heatmap ai k (Some []) = heatmap ai k (Some (remaining_ships ai)) ∧
  ∀ (F : Type) (HF : FloatOps F) (shots : list (list Z)),
    choose_shot (F:=F) ai k shots (Some []) = choose_shot (F:=F) ai k shots (Some STANDARD_SHIPS) ∧
    choose_shot (F:=F) ai k shots (Some []) = choose_shot (F:=F) ai k shots None.
Proof.
  split.
  - unfold heatmap. by destruct (remaining_ships ai).
  - intros F HF shots. done.
Qed.

(** ** Target candidates *)

Lemma emit_spec (n : Z) (k : list (list Z)) (rc : Z * Z) :
  inb n rc.1 rc.2 → grid_get k rc.1 rc.2 = Some UNKNOWN →
  emits n k (λ st, Some (emit rc st)) (λ x, x = rc).
Proof.
  intros Hin Hun [cand seen] (Hnd & Hseen & Hall). simpl in *.
  eexists. split; [done|]. unfold emit. simpl.
  destruct (decide (rc ∈ seen)) as [Hmem|Hmem]; simpl.
  - split; [done|]. intros x. split; [tauto|]. intros [?| ->]; [done|]. by apply Hseen.
  - split.
    + split; [|split]; simpl.
      * apply NoDup_app. split; [done|]. split; [|apply NoDup_singleton].
        intros x Hx Hx'. apply list_elem_of_singleton in Hx' as ->. apply Hmem.
        by apply Hseen.
      * intros x. rewrite elem_of_union, elem_of_singleton, elem_of_app,
          list_elem_of_singleton, Hseen. tauto.
      * intros x Hx. apply elem_of_app in Hx as [Hx|Hx]; [by apply Hall|].
        by apply list_elem_of_singleton in Hx as ->.
    + intros x. rewrite elem_of_app, list_elem_of_singleton. done.
Qed.

Lemma emits_skip (n : Z) (k : list (list Z)) (W : Z * Z → Prop) :
  (∀ rc, ¬ W rc) → emits n k Some W.
Proof.
  intros HW st Hst. exists st. split; [done|]. split; [done|].
  intros rc. split; [tauto|]. intros [?|?]; [done|]. by apply HW in H.
Qed.

Lemma emits_ext (n : Z) (k : list (list Z)) f (W W' : Z * Z → Prop) :
  (∀ rc, W rc ↔ W' rc) → emits n k f W → emits n k f W'.
Proof.
  intros HW Hf st Hst. destruct (Hf st Hst) as (st' & Hrun & Hok & Hmem).
  exists st'. split; [done|]. split; [done|]. intros rc. rewrite Hmem, HW. done.
Qed.

Lemma emits_bind (n : Z) (k : list (list Z)) f g (W1 W2 : Z * Z → Prop) :
  emits n k f W1 → emits n k g W2 → emits n k (λ st, f st ≫= g) (λ rc, W1 rc ∨ W2 rc).
Proof.
  intros Hf Hg st Hst. destruct (Hf st Hst) as (st1 & Hrun1 & Hok1 & Hmem1).
  destruct (Hg st1 Hok1) as (st2 & Hrun2 & Hok2 & Hmem2).
  exists st2. rewrite Hrun1. simpl. split; [done|]. split; [done|].
  intros rc. rewrite Hmem2, Hmem1. tauto.
Qed.

Lemma emits_for_each {A} (n : Z) (k : list (list Z)) (xs : list A) body
    (W : A → Z * Z → Prop) :
  (∀ x, x ∈ xs → emits n k (body x) (W x)) →
  emits n k (for_each xs body) (λ rc, ∃ x, x ∈ xs ∧ W x rc).
Proof.
  induction xs as [|x xs IH]; intros Hbody.
  - apply emits_skip. intros rc (x & Hx & _). by apply elem_of_nil in Hx.
  - apply (emits_ext n k _ (λ rc, W x rc ∨ ∃ y, y ∈ xs ∧ W y rc)).
    + intros rc. split.
      * intros [?|(y & Hy & ?)]; [exists x; split; [left|done]|].
        exists y. split; [by right|done].
      * intros (y & Hy & HW). apply elem_of_cons in Hy as [->|Hy]; [by left|].
        right. eauto.
    + apply (emits_bind n k (body x) (for_each xs body)).
      * apply Hbody. left.
      * apply IH. intros y Hy. apply Hbody. by right.
Qed.

Lemma emits_if_unknown (n : Z) (k : list (list Z)) (rc : Z * Z) :
  wf_grid n k → inb n rc.1 rc.2 →
  emits n k (λ st, cell ← grid_get k rc.1 rc.2;
                   if bool_decide (cell = -1) then Some (emit rc st) else Some st)
    (λ x, x = rc ∧ grid_get k rc.1 rc.2 = Some UNKNOWN).
Proof.
  intros Hk Hin. destruct (grid_get_is_Some _ _ _ _ Hk Hin) as [cell Hcell].
  destruct (decide (cell = -1)) as [->|Hne].
  - apply (emits_ext n k _ (λ x, x = rc)); [intros x; rewrite Hcell; tauto|].
    intros st Hst. rewrite Hcell. simpl. by apply (emit_spec n k rc).
  - intros st Hst. rewrite Hcell. simpl. rewrite bool_decide_eq_false_2 by done.
    apply (emits_skip n k); [|done]. intros x [_ Hx]. unfold UNKNOWN in Hx. congruence.
Qed.

Lemma target_neighbor_spec (n : Z) (k : list (list Z)) (rc d : Z * Z) :
  wf_grid n k →
  emits n k (target_neighbor n k rc d)
    (λ x, x = (rc.1 + d.1, rc.2 + d.2) ∧ inb n x.1 x.2 ∧ grid_get k x.1 x.2 = Some UNKNOWN).
Proof.
  intros Hk. unfold target_neighbor.
  destruct (bool_decide (0 ≤ rc.1 + d.1 < n) && bool_decide (0 ≤ rc.2 + d.2 < n)) eqn:Hb.
  - apply andb_true_iff in Hb as [Hr Hc]. apply bool_decide_eq_true in Hr, Hc.
    eapply emits_ext; [|apply (emits_if_unknown n k (rc.1 + d.1, rc.2 + d.2)); done].
    intros x. simpl. split.
    + intros [-> Hun]. done.
    + intros (-> & _ & Hun). done.
  - apply emits_skip. intros x (-> & [Hr Hc] & _). simpl in *.
    apply andb_false_iff in Hb as [Hb|Hb]; apply bool_decide_eq_false in Hb; done.
Qed.

Lemma foldl_min_spec (l : list Z) (x : Z) :
  foldl Z.min x l ∈ x :: l ∧ ∀ y, y ∈ x :: l → foldl Z.min x l ≤ y.
Proof.
  revert x. induction l as [|a l IH]; intros x; simpl.
  - split; [left|]. intros y Hy. apply list_elem_of_singleton in Hy as ->. lia.
  - destruct (IH (Z.min x a)) as [Hin Hle]. split.
    + apply elem_of_cons in Hin as [Heq|Hin]; [|right; by right].
      rewrite Heq. destruct (Z.min_spec x a) as [[_ ->]|[_ ->]]; [left|right; left].
    + intros y Hy. pose proof (Hle (Z.min x a) (list_elem_of_here _ _)).
      apply elem_of_cons in Hy as [->|Hy]; [lia|].
      apply elem_of_cons in Hy as [->|Hy]; [lia|]. apply Hle. by right.
Qed.

Lemma foldl_max_spec (l : list Z) (x : Z) :
  foldl Z.max x l ∈ x :: l ∧ ∀ y, y ∈ x :: l → y ≤ foldl Z.max x l.
Proof.
  revert x. induction l as [|a l IH]; intros x; simpl.
  - split; [left|]. intros y Hy. apply list_elem_of_singleton in Hy as ->. lia.
  - destruct (IH (Z.max x a)) as [Hin Hle]. split.
    + apply elem_of_cons in Hin as [Heq|Hin]; [|right; by right].
      rewrite Heq. destruct (Z.max_spec x a) as [[_ ->]|[_ ->]]; [right; left|left].
    + intros y Hy. pose proof (Hle (Z.max x a) (list_elem_of_here _ _)).
      apply elem_of_cons in Hy as [->|Hy]; [lia|].
      apply elem_of_cons in Hy as [->|Hy]; [lia|]. apply Hle. by right.
Qed.

Lemma py_min_spec (l : list Z) :
  l ≠ [] → ∃ m, py_min l = Some m ∧ m ∈ l ∧ ∀ y, y ∈ l → m ≤ y.
Proof.
  destruct l as [|x l]; [done|]. intros _. exists (foldl Z.min x l).
  split; [done|]. apply foldl_min_spec.
Qed.

Lemma py_max_spec (l : list Z) :
  l ≠ [] → ∃ m, py_max l = Some m ∧ m ∈ l ∧ ∀ y, y ∈ l → y ≤ m.
Proof.
  destruct l as [|x l]; [done|]. intros _. exists (foldl Z.max x l).
  split; [done|]. apply foldl_max_spec.
Qed.

Lemma head_elements_size_1 (X : gset Z) :
  size X = 1%nat → ∃ x, head (elements X) = Some x ∧ ∀ y, y ∈ X ↔ y = x.
Proof.
  intros Hsize. apply size_1_elem_of in Hsize as [x Hx].
  apply leibniz_equiv in Hx. subst X. exists x.
  rewrite elements_singleton. split; [done|]. intros y. set_solver.
Qed.

Lemma extend_left_spec (n : Z) (k : list (list Z)) (rows min_c : Z) :
  wf_grid n k → 0 ≤ rows < n → min_c - 1 < n →
  emits n k (extend_left k rows min_c)
    (λ x, x = (rows, min_c - 1) ∧ inb n x.1 x.2 ∧ grid_get k x.1 x.2 = Some UNKNOWN).
Proof.
  intros Hk Hr Hc. unfold extend_left. case_bool_decide as Hb.
  - eapply emits_ext; [|apply (emits_if_unknown n k (rows, min_c - 1)); done].
    intros x. simpl. split.
    + intros [-> Hun]. split; [done|]. split; [|done]. unfold inb. simpl. lia.
    + intros (-> & _ & Hun). done.
  - apply emits_skip. intros x (-> & [_ ?] & _). simpl in *. lia.
Qed.

Lemma extend_right_spec (n : Z) (k : list (list Z)) (rows max_c : Z) :
  wf_grid n k → 0 ≤ rows < n → 0 ≤ max_c + 1 →
  emits n k (extend_right n k rows max_c)
    (λ x, x = (rows, max_c + 1) ∧ inb n x.1 x.2 ∧ grid_get k x.1 x.2 = Some UNKNOWN).
Proof.
  intros Hk Hr Hc. unfold extend_right. case_bool_decide as Hb.
  - eapply emits_ext; [|apply (emits_if_unknown n k (rows, max_c + 1)); done].
    intros x. simpl. split.
    + intros [-> Hun]. split; [done|]. split; [|done]. unfold inb. simpl. lia.
    + intros (-> & _ & Hun). done.
  - apply emits_skip. intros x (-> & [_ ?] & _). simpl in *. lia.
Qed.

Lemma extend_up_spec (n : Z) (k : list (list Z)) (cols min_r : Z) :
  wf_grid n k → 0 ≤ cols < n → min_r - 1 < n →
  emits n k (extend_up k cols min_r)
    (λ x, x = (min_r - 1, cols) ∧ inb n x.1 x.2 ∧ grid_get k x.1 x.2 = Some UNKNOWN).
Proof.
  intros Hk Hr Hc. unfold extend_up. case_bool_decide as Hb.
  - eapply emits_ext; [|apply (emits_if_unknown n k (min_r - 1, cols)); done].
    intros x. simpl. split.
    + intros [-> Hun]. split; [done|]. split; [|done]. unfold inb. simpl. lia.
    + intros (-> & _ & Hun). done.
  - apply emits_skip. intros x (-> & [? _] & _). simpl in *. lia.
Qed.

Lemma extend_down_spec (n : Z) (k : list (list Z)) (cols max_r : Z) :
  wf_grid n k → 0 ≤ cols < n → 0 ≤ max_r + 1 →
  emits n k (extend_down n k cols max_r)
    (λ x, x = (max_r + 1, cols) ∧ inb n x.1 x.2 ∧ grid_get k x.1 x.2 = Some UNKNOWN).
Proof.
  intros Hk Hr Hc. unfold extend_down. case_bool_decide as Hb.
  - eapply emits_ext; [|apply (emits_if_unknown n k (max_r + 1, cols)); done].
    intros x. simpl. split.
    + intros [-> Hun]. split; [done|]. split; [|done]. unfold inb. simpl. lia.
    + intros (-> & _ & Hun). done.
  - apply emits_skip. intros x (-> & [? _] & _). simpl in *. lia.
Qed.

Lemma infer_orientation_cases (comp : gset (Z * Z)) :
  match infer_orientation comp with
  | Some OrH => size (set_map fst comp : gset Z) = 1%nat
  | Some OrV => size (set_map snd comp : gset Z) = 1%nat
  | None => True
  end.
Proof.
  unfold infer_orientation. repeat case_decide; done.
Qed.

Lemma emits_eq (n : Z) (k : list (list Z)) f g (W : Z * Z → Prop) :
  (∀ st, f st = g st) → emits n k g W → emits n k f W.
Proof. intros Hfg Hg st Hst. rewrite Hfg. by apply Hg. Qed.

Lemma target_cluster_spec (n : Z) (k : list (list Z)) (cl : cluster) :
  wf_grid n k → cl.1 ≠ ∅ → cl.2 = infer_orientation cl.1 →
  (∀ rc, rc ∈ cl.1 → inb n rc.1 rc.2) →
  emits n k (target_cluster n k cl) (wanted n k cl).
Proof.
  intros Hk Hne Hor Hin. destruct cl as [comp orient]. simpl in *.
  pose proof (infer_orientation_cases comp) as Hcase. rewrite <- Hor in Hcase.
  assert (Hel : elements comp ≠ []).
  { intros Hnil. apply Hne. by apply elements_empty_inv, leibniz_equiv in Hnil. }
  destruct orient as [[|]|].
  - (* horizontal *)
    destruct (head_elements_size_1 _ Hcase) as (row & Hhead & Hrow).
    destruct (py_min_spec (snd <$> elements comp)) as (lo & Hmin & Hlo & Hlo_le).
    { by destruct (elements comp). }
    destruct (py_max_spec (snd <$> elements comp)) as (hi & Hmax & Hhi & Hhi_le).
    { by destruct (elements comp). }
    apply (emits_eq n k _ (λ st, extend_left k row lo st ≫= extend_right n k row hi)).
    { intros st. unfold target_cluster. rewrite decide_False by done.
      by rewrite Hhead, Hmin, Hmax. }
    clear Hmin Hmax.
    apply list_elem_of_fmap in Hlo as (clo & -> & Hclo). apply elem_of_elements in Hclo.
    apply list_elem_of_fmap in Hhi as (chi & -> & Hchi). apply elem_of_elements in Hchi.
    assert (Hrows : ∀ cell, cell ∈ comp → cell.1 = row).
    { intros cell Hcell. apply Hrow. apply elem_of_map. eauto. }
    assert (Hcols : ∀ cell, cell ∈ comp → clo.2 ≤ cell.2 ≤ chi.2).
    { intros cell Hcell. split; [apply Hlo_le|apply Hhi_le];
        apply list_elem_of_fmap; exists cell; (split; [done|by apply elem_of_elements]). }
    pose proof (Hin clo Hclo) as [Hr1 Hc1]. pose proof (Hin chi Hchi) as [Hr2 Hc2].
    rewrite (Hrows clo Hclo) in Hr1.
    eapply emits_ext;
      [|apply (emits_bind n k (extend_left k row clo.2) (extend_right n k row chi.2));
        [apply extend_left_spec|apply extend_right_spec]; (done || lia)].
    intros x. unfold wanted. simpl. split.
    + intros [(-> & Hinb & Hun)|(-> & Hinb & Hun)].
      * split; [done|]. split; [done|]. exists clo, chi.
        split; [done|]. split; [done|]. split; [done|]. left. by rewrite Hrows.
      * split; [done|]. split; [done|]. exists clo, chi.
        split; [done|]. split; [done|]. split; [done|]. right. by rewrite Hrows.
    + intros (Hinb & Hun & lo' & hi' & Hlo' & Hhi' & Hbetween & Hx).
      assert (lo'.2 = clo.2) as Hl.
      { pose proof (Hbetween clo Hclo). pose proof (Hcols lo' Hlo'). lia. }
      assert (hi'.2 = chi.2) as Hh.
      { pose proof (Hbetween chi Hchi). pose proof (Hcols hi' Hhi'). lia. }
      rewrite (Hrows lo' Hlo'), (Hrows hi' Hhi'), Hl, Hh in Hx.
      destruct Hx as [->| ->]; [left|right]; done.
  - (* vertical *)
    destruct (head_elements_size_1 _ Hcase) as (col & Hhead & Hcol).
    destruct (py_min_spec (fst <$> elements comp)) as (lo & Hmin & Hlo & Hlo_le).
    { by destruct (elements comp). }
    destruct (py_max_spec (fst <$> elements comp)) as (hi & Hmax & Hhi & Hhi_le).
    { by destruct (elements comp). }
    apply (emits_eq n k _ (λ st, extend_up k col lo st ≫= extend_down n k col hi)).
    { intros st. unfold target_cluster. rewrite decide_False by done.
      by rewrite Hhead, Hmin, Hmax. }
    clear Hmin Hmax.
    apply list_elem_of_fmap in Hlo as (clo & -> & Hclo). apply elem_of_elements in Hclo.
    apply list_elem_of_fmap in Hhi as (chi & -> & Hchi). apply elem_of_elements in Hchi.
    assert (Hcols : ∀ cell, cell ∈ comp → cell.2 = col).
    { intros cell Hcell. apply Hcol. apply elem_of_map. eauto. }
    assert (Hrows : ∀ cell, cell ∈ comp → clo.1 ≤ cell.1 ≤ chi.1).
    { intros cell Hcell. split; [apply Hlo_le|apply Hhi_le];
        apply list_elem_of_fmap; exists cell; (split; [done|by apply elem_of_elements]). }
    pose proof (Hin clo Hclo) as [Hr1 Hc1]. pose proof (Hin chi Hchi) as [Hr2 Hc2].
    rewrite (Hcols clo Hclo) in Hc1.
    eapply emits_ext;
      [|apply (emits_bind n k (extend_up k col clo.1) (extend_down n k col chi.1));
        [apply extend_up_spec|apply extend_down_spec]; (done || lia)].
    intros x. unfold wanted. simpl. split.
    + intros [(-> & Hinb & Hun)|(-> & Hinb & Hun)].
      * split; [done|]. split; [done|]. exists clo, chi.
        split; [done|]. split; [done|]. split; [done|]. left. by rewrite Hcols.
      * split; [done|]. split; [done|]. exists clo, chi.
        split; [done|]. split; [done|]. split; [done|]. right. by rewrite Hcols.
    + intros (Hinb & Hun & lo' & hi' & Hlo' & Hhi' & Hbetween & Hx).
      assert (lo'.1 = clo.1) as Hl.
      { pose proof (Hbetween clo Hclo). pose proof (Hrows lo' Hlo'). lia. }
      assert (hi'.1 = chi.1) as Hh.
      { pose proof (Hbetween chi Hchi). pose proof (Hrows hi' Hhi'). lia. }
      rewrite (Hcols lo' Hlo'), (Hcols hi' Hhi'), Hl, Hh in Hx.
      destruct Hx as [->| ->]; [left|right]; done.
  - (* no orientation *)
    apply (emits_eq n k _ (for_each (elements comp)
                             (λ rc, for_each DIRS (target_neighbor n k rc)))).
    { intros st. unfold target_cluster. by rewrite decide_False by done. }
    eapply emits_ext; [|apply (emits_for_each n k (elements comp)
        (λ rc, for_each DIRS (target_neighbor n k rc))
        (λ rc x, ∃ d, d ∈ DIRS ∧ x = (rc.1 + d.1, rc.2 + d.2) ∧ inb n x.1 x.2 ∧
                      grid_get k x.1 x.2 = Some UNKNOWN))].
    + intros x. unfold wanted. simpl. split.
      * intros (cell & Hcell & d & Hd & -> & Hinb & Hun). apply elem_of_elements in Hcell.
        split; [done|]. split; [done|]. eauto.
      * intros (Hinb & Hun & cell & d & Hcell & Hd & ->).
        exists cell. split; [by apply elem_of_elements|]. eauto.
    + intros rc _. eapply emits_ext; [|apply (emits_for_each n k DIRS
        (target_neighbor n k rc)
        (λ d x, x = (rc.1 + d.1, rc.2 + d.2) ∧ inb n x.1 x.2 ∧
                grid_get k x.1 x.2 = Some UNKNOWN))].
      * intros x. split; intros (d & Hd & ?); eauto.
      * intros d _. by apply target_neighbor_spec.
Qed.

Lemma target_candidates_spec (ai : BattleshipAI) (k : list (list Z)) :
  let n := ai_size ai in
  wf_grid n k →
  ∃ clusters cands,
    hit_clusters ai k = Some clusters ∧ target_candidates ai k = Some cands ∧
    NoDup cands ∧
    (∀ rc, rc ∈ cands → inb n rc.1 rc.2 ∧ grid_get k rc.1 rc.2 = Some UNKNOWN) ∧
    ∀ rc, rc ∈ cands ↔ ∃ cl, cl ∈ clusters ∧ wanted n k cl rc.
Proof.
  intros n Hk.
  destruct (hit_clusters_spec ai k Hk) as (clusters & visited & Hcl & Hinv).
  destruct Hinv as (_ & _ & Hall & _). rewrite Forall_forall in Hall.
  destruct (emits_for_each n k clusters (target_cluster n k) (wanted n k)) with (st := ([], ∅) : list (Z * Z) * gset (Z * Z))
    as ([cands seen] & Hrun & (Hnd & _ & Hok) & Hmem).
  - intros cl Hin. destruct (Hall cl Hin) as (Hne & Hor & Hcells).
    apply target_cluster_spec; try done. intros rc Hrc. by apply Hcells.
  - split; [constructor|]. simpl. split; [set_solver|]. intros rc Hrc.
    by apply elem_of_nil in Hrc.
  - exists clusters, cands. split; [done|]. unfold target_candidates.
    rewrite Hcl. simpl. fold n. rewrite Hrun. simpl in *. split; [done|].
    split; [done|]. split; [done|]. intros rc. rewrite Hmem. split.
    + intros [Hnil|?]; [by apply elem_of_nil in Hnil|done].
    + by right.
Qed.

(** C4: [candidateTargets] returns, without repetition, exactly the Unknown
    in-bounds cells that some cluster asks for: every orthogonal neighbour of
    a cell of a cluster without orientation, and the cell just beyond either
    end of a cluster with one.  A lone Hit at (4,4) yields its four
    neighbours once each; Hits at (4,4) and (4,5) yield (4,3) and (4,6). *)
Theorem target_candidates_extend_clusters (ai : BattleshipAI) (k : list (list Z)) :
  let n := ai_size ai in
  wf_grid n k →
  (∃ clusters cands,
     hit_clusters ai k = Some clusters ∧ target_candidates ai k = Some cands ∧
     NoDup cands ∧ ∀ rc, rc ∈ cands ↔ ∃ cl, cl ∈ clusters ∧ wanted n k cl rc) ∧
  (∃ cands, target_candidates ai10 hit44 = Some cands ∧
     cands ≡ₚ [(3, 4); (5, 4); (4, 3); (4, 5)]) ∧
  (∃ cands, target_candidates ai10 hit4445 = Some cands ∧
     cands ≡ₚ [(4, 3); (4, 6)]).
Proof.
  intros n Hk. split; [|split].
  - destruct (target_candidates_spec ai k Hk) as (clusters & cands & H1 & H2 & H3 & _ & H4).
    exists clusters, cands. done.
  - exists [(5, 4); (3, 4); (4, 5); (4, 3)]. split; [by vm_compute|].
    apply NoDup_Permutation;
      [apply (bool_decide_unpack _); by vm_compute..|].
    intros x. rewrite !elem_of_cons. rewrite !elem_of_nil. tauto.
  - exists [(4, 3); (4, 6)]. split; [by vm_compute|done].
Qed.

(** ** Top candidates *)

Lemma unknown_triples_cons (heat kn : list (list Z)) (r c : Z) (cells : list (Z * Z)) :
  unknown_triples heat kn ((r, c) :: cells) =
    (if bool_decide (grid_get kn r c = Some UNKNOWN) then [(cell_at heat r c, r, c)] else [])
    ++ unknown_triples heat kn cells.
Proof.
  unfold unknown_triples. cbn [omap list_omap fst snd].
  by destruct (bool_decide (grid_get kn r c = Some UNKNOWN)).
Qed.

Lemma collect_cell_spec (n : Z) (heat kn : list (list Z)) (r c : Z) (acc : list (Z * Z * Z)) :
  wf_grid n heat → wf_grid n kn → inb n r c →
  collect_cell heat kn r c acc =
    Some (acc ++ if bool_decide (grid_get kn r c = Some UNKNOWN)
                 then [(cell_at heat r c, r, c)] else []).
Proof.
  intros Hheat Hkn Hrc. unfold collect_cell.
  destruct (grid_get_is_Some _ _ _ _ Hkn Hrc) as [cell Hcell]. rewrite Hcell. simpl.
  destruct (decide (cell = -1)) as [->|Hne].
  - rewrite (bool_decide_eq_true_2 (-1 = -1)) by done.
    rewrite (bool_decide_eq_true_2 (Some (-1) = Some UNKNOWN)) by done.
    by rewrite (cell_at_get n heat) by done.
  - rewrite (bool_decide_eq_false_2 (cell = -1)) by done.
    rewrite (bool_decide_eq_false_2 (Some cell = Some UNKNOWN))
      by (unfold UNKNOWN; congruence).
    by rewrite app_nil_r.
Qed.

Lemma collect_spec (n : Z) (heat kn : list (list Z)) (cells : list (Z * Z))
    (acc : list (Z * Z * Z)) :
  wf_grid n heat → wf_grid n kn → Forall (λ rc, inb n rc.1 rc.2) cells →
  for_each cells (λ rc, collect_cell heat kn rc.1 rc.2) acc =
    Some (acc ++ unknown_triples heat kn cells).
Proof.
  intros Hheat Hkn. revert acc. induction cells as [|[r c] cells IH]; intros acc Hin.
  - simpl. by rewrite app_nil_r.
  - apply Forall_cons in Hin as [Hrc Hin]. simpl in Hrc.
    rewrite unknown_triples_cons. cbn [for_each fst snd].
    rewrite (collect_cell_spec n) by done. cbn [mbind option_bind].
    rewrite IH by done. by rewrite <- app_assoc.
Qed.

Lemma elem_of_unknown_triples (n : Z) (heat kn : list (list Z)) (cells : list (Z * Z))
    (h r c : Z) :
  wf_grid n heat → Forall (λ rc, inb n rc.1 rc.2) cells →
  (h, r, c) ∈ unknown_triples heat kn cells ↔
  (r, c) ∈ cells ∧ grid_get kn r c = Some UNKNOWN ∧ grid_get heat r c = Some h.
Proof.
  intros Hheat Hin. unfold unknown_triples. rewrite list_elem_of_omap.
  rewrite Forall_forall in Hin. split.
  - intros ([r' c'] & Hmem & Heq). simpl in Heq. case_bool_decide as Hun; [|done].
    injection Heq as <- <- <-. split; [done|]. split; [done|].
    apply (cell_at_get n); [done|]. by apply (Hin (r', c')).
  - intros (Hmem & Hun & Hh). exists (r, c). split; [done|]. simpl.
    rewrite bool_decide_eq_true_2 by done. unfold cell_at. by rewrite Hh.
Qed.

Lemma NoDup_unknown_triples (heat kn : list (list Z)) (cells : list (Z * Z)) :
  NoDup cells → NoDup (unknown_triples heat kn cells).
Proof.
  assert (Hcoord : ∀ l h r c, (h, r, c) ∈ unknown_triples heat kn l → (r, c) ∈ l).
  { intros l h r c Hin. unfold unknown_triples in Hin.
    apply list_elem_of_omap in Hin as ([r' c'] & Hmem & Heq). simpl in Heq.
    case_bool_decide; [|done]. by injection Heq as <- <- <-. }
  induction 1 as [|[r c] cells Hnotin Hnd IH]; [constructor|].
  rewrite unknown_triples_cons. destruct (bool_decide _); [|done].
  simpl. constructor; [|done]. intros Hin. apply Hnotin. by eapply Hcoord.
Qed.

Lemma py_take_nonneg {A} (k : Z) (l : list A) : 0 ≤ k → py_take k l = take (Z.to_nat k) l.
Proof. intros Hk. unfold py_take. by rewrite decide_True. Qed.

Lemma top_candidates_spec (ai : BattleshipAI) (heat kn : list (list Z)) (k : Z) :
  let n := ai_size ai in
  wf_grid n heat → wf_grid n kn → 0 ≤ k →
  ∃ ranked res,
    StronglySorted triple_ge ranked ∧ NoDup ranked ∧
    (∀ h r c, (h, r, c) ∈ ranked ↔
       inb n r c ∧ grid_get kn r c = Some UNKNOWN ∧ grid_get heat r c = Some h) ∧
    top_candidates ai heat kn k = Some res ∧
    (Exists positive_score (take (Z.to_nat k) ranked) →
       res = strip_score <$> filter positive_score (take (Z.to_nat k) ranked)) ∧
    (¬ Exists positive_score (take (Z.to_nat k) ranked) →
       res = strip_score <$> take (Z.to_nat k) ranked).
Proof.
  intros n Hheat Hkn Hk.
  set (cells := unknown_triples heat kn (all_cells n)).
  assert (Hall : Forall (λ rc : Z * Z, inb n rc.1 rc.2) (all_cells n)).
  { apply Forall_forall. intros rc. by rewrite elem_of_all_cells. }
  exists (merge_sort triple_ge cells).
  unfold top_candidates. fold n. rewrite for_each_nested.
  rewrite (collect_spec n) by done. simpl. fold cells.
  rewrite py_take_nonneg by done.
  set (top := take (Z.to_nat k) (merge_sort triple_ge cells)).
  change (filter (λ t : Z * Z * Z, 0 < t.1.1) top) with (filter positive_score top).
  assert (Hsorted : StronglySorted triple_ge (merge_sort triple_ge cells))
    by (apply StronglySorted_merge_sort; apply _).
  assert (Hnd : NoDup (merge_sort triple_ge cells)).
  { rewrite merge_sort_Permutation. apply NoDup_unknown_triples, NoDup_all_cells. }
  assert (Hmem : ∀ h r c, (h, r, c) ∈ merge_sort triple_ge cells ↔
            inb n r c ∧ grid_get kn r c = Some UNKNOWN ∧ grid_get heat r c = Some h).
  { intros h r c. rewrite merge_sort_Permutation. unfold cells.
    rewrite (elem_of_unknown_triples n) by done.
    rewrite (elem_of_all_cells n (r, c)). simpl. tauto. }
  destruct (filter positive_score top) as [|t ts] eqn:Hf; simpl.
  - exists (strip_score <$> top). split_and!; try done.
    intros Hex. apply Exists_exists in Hex as (t & Ht & Hpos).
    assert (t ∈ filter positive_score top) as Hin by (by apply list_elem_of_filter).
    rewrite Hf in Hin. by apply elem_of_nil in Hin.
  - exists (strip_score t :: (strip_score <$> ts)). split_and!; try done.
    intros Hno. exfalso. apply Hno. apply Exists_exists. exists t.
    assert (t ∈ filter positive_score top) as Hin by (rewrite Hf; left).
    by apply list_elem_of_filter in Hin as [? ?].
Qed.

(** The claim that [_top_candidates] returns [k] cells fails: of the two
    best-ranked cells of [heat2] only the one with positive heat comes back. *)
Lemma top_candidates_drops_zero_heat :
  (2 ≤ length (unknown_triples heat2 blank2 (all_cells 2)))%nat ∧
  ¬ ∃ res, top_candidates ai2 heat2 blank2 2 = Some res ∧ length res = 2%nat.
Proof.
  split; [vm_compute; lia|]. intros (res & Hres & Hlen).
  vm_compute in Hres. injection Hres as <-. done.
Qed.

Lemma top_candidates_nonempty_spec (ai : BattleshipAI) (heat kn : list (list Z)) (k : Z) :
  let n := ai_size ai in
  wf_grid n heat → wf_grid n kn → 0 ≤ k →
  ∃ ranked res,
    StronglySorted triple_ge ranked ∧ NoDup ranked ∧
    (∀ h r c, (h, r, c) ∈ ranked ↔
       inb n r c ∧ grid_get kn r c = Some UNKNOWN ∧ grid_get heat r c = Some h) ∧
    top_candidates ai heat kn k = Some res ∧
    (Exists positive_score (take (Z.to_nat k) ranked) →
       res = strip_score <$> filter positive_score (take (Z.to_nat k) ranked)) ∧
    (¬ Exists positive_score (take (Z.to_nat k) ranked) →
       res = strip_score <$> take (Z.to_nat k) ranked) ∧
    (0 < k → (∃ r c, inb n r c ∧ grid_get kn r c = Some UNKNOWN) → res ≠ []).
Proof.
  intros n Hheat Hkn Hk.
  destruct (top_candidates_spec ai heat kn k Hheat Hkn Hk)
    as (ranked & res & Hsorted & Hnd & Hmem & Hrun & Hpos & Hall).
  exists ranked, res. split_and!; try done.
  intros Hk1 (r & c & Hrc & Hun).
  assert (∃ t, t ∈ take (Z.to_nat k) ranked) as [t Ht].
  { destruct ranked as [|t ranked].
    - exfalso. destruct (grid_get_is_Some n heat r c Hheat Hrc) as [h Hh].
      assert ((h, r, c) ∈ @nil (Z * Z * Z)) as Hin by (by apply Hmem).
      by apply elem_of_nil in Hin.
    - exists t. destruct (Z.to_nat k) as [|m] eqn:Hm; [lia|]. left. }
  destruct (decide (Exists positive_score (take (Z.to_nat k) ranked))) as [Hex|Hno].
  - rewrite (Hpos Hex). apply Exists_exists in Hex as (u & Hu & Hupos).
    intros Hnil. apply fmap_nil_inv in Hnil.
    assert (u ∈ filter positive_score (take (Z.to_nat k) ranked)) as Hin
      by (by apply list_elem_of_filter).
    rewrite Hnil in Hin. by apply elem_of_nil in Hin.
  - rewrite (Hall Hno). intros Hnil. apply fmap_nil_inv in Hnil.
    rewrite Hnil in Ht. by apply elem_of_nil in Ht.
Qed.

(** C7, amended: of the [k] best-ranked Unknown cells, [_top_candidates]
    returns those with positive heat, in rank order; when none of them has
    positive heat it returns all [k]; so the result is non-empty whenever
    [k ≥ 1] and some cell is Unknown. *)
Theorem top_candidates_positive_or_all (ai : BattleshipAI) (heat kn : list (list Z)) (k : Z) :
  let n := ai_size ai in
  wf_grid n heat → wf_grid n kn → 0 ≤ k →
  ∃ ranked res,
    StronglySorted triple_ge ranked ∧ NoDup ranked ∧
    (∀ h r c, (h, r, c) ∈ ranked ↔
       inb n r c ∧ grid_get kn r c = Some UNKNOWN ∧ grid_get heat r c = Some h) ∧
    top_candidates ai heat kn k = Some res ∧
    (Exists positive_score (take (Z.to_nat k) ranked) →
       res = strip_score <$> filter positive_score (take (Z.to_nat k) ranked)) ∧
    (¬ Exists positive_score (take (Z.to_nat k) ranked) →
       res = strip_score <$> take (Z.to_nat k) ranked) ∧
    (0 < k → (∃ r c, inb n r c ∧ grid_get kn r c = Some UNKNOWN) → res ≠ []).
Proof. apply top_candidates_nonempty_spec. Qed.

(** ** Counter gain *)

Lemma sum_nonneg_lookup (l : list Z) (i : nat) (x : Z) :
  Forall (λ v, 0 ≤ v) l → l !! i = Some x → 0 ≤ x ≤ foldr Z.add 0 l.
Proof.
  revert i. induction l as [|a l IH]; intros i Hpos Hi; [done|].
  apply Forall_cons in Hpos as [Ha Hpos].
  assert (0 ≤ foldr Z.add 0 l) as Hsum.
  { clear IH Hi. induction Hpos as [|b l' Hb Hl' IHl]; simpl; lia. }
  destruct i as [|i]; simpl in *.
  - injection Hi as ->. lia.
  - specialize (IH i Hpos Hi). lia.
Qed.

Lemma sum_nonneg (l : list Z) : Forall (λ v, 0 ≤ v) l → 0 ≤ foldr Z.add 0 l.
Proof. induction 1; simpl; lia. Qed.

Lemma heat_ok_rows (n : Z) (heat : list (list Z)) :
  heat_ok n heat → Forall (Forall (λ v, 0 ≤ v)) heat.
Proof.
  intros [Hwf Hpos]. pose proof Hwf as (Hn & Hlen & Hrows).
  apply Forall_lookup. intros i row Hrow. apply Forall_lookup. intros j v Hv.
  rewrite Forall_forall in Hrows.
  assert (length row = Z.to_nat n) as Hrl by (apply Hrows; by eapply list_elem_of_lookup_2).
  apply lookup_lt_Some in Hrow as Hi. apply lookup_lt_Some in Hv as Hj.
  assert (Hin : inb n (Z.of_nat i) (Z.of_nat j)) by (unfold inb; lia).
  specialize (Hpos _ _ Hin). unfold cell_at in Hpos.
  rewrite (grid_get_lookup n) in Hpos by done.
  rewrite !Nat2Z.id, Hrow in Hpos. simpl in Hpos. by rewrite Hv in Hpos.
Qed.

Lemma grid_total_bounds (n : Z) (heat : list (list Z)) (r c : Z) :
  heat_ok n heat → inb n r c → 0 ≤ cell_at heat r c ≤ grid_total heat.
Proof.
  intros Hok Hrc. pose proof (heat_ok_rows n heat Hok) as Hrows.
  destruct Hok as [Hwf Hpos]. destruct Hrc as [Hr Hc].
  destruct (wf_grid_row n heat r Hwf Hr) as (row & Hrow & Hlen).
  destruct (lookup_lt_is_Some_2 row (Z.to_nat c)) as [v Hv]; [lia|].
  assert (cell_at heat r c = v) as ->.
  { unfold cell_at. rewrite (grid_get_lookup n) by done. rewrite Hrow. simpl. by rewrite Hv. }
  assert (Forall (λ v, 0 ≤ v) row) as Hrowpos.
  { rewrite Forall_forall in Hrows. apply Hrows. by eapply list_elem_of_lookup_2. }
  pose proof (sum_nonneg_lookup row _ v Hrowpos Hv) as [Hv0 Hvsum].
  unfold grid_total.
  assert (Forall (λ v, 0 ≤ v) (foldr Z.add 0 <$> heat)) as Hsums.
  { apply Forall_fmap. eapply Forall_impl; [exact Hrows|]. intros l Hl. by apply sum_nonneg. }
  assert ((foldr Z.add 0 <$> heat) !! Z.to_nat r = Some (foldr Z.add 0 row)) as Hsr.
  { by rewrite list_lookup_fmap, Hrow. }
  pose proof (sum_nonneg_lookup _ _ _ Hsums Hsr). lia.
Qed.

Lemma grid_total_nonneg (n : Z) (heat : list (list Z)) :
  heat_ok n heat → 0 ≤ grid_total heat.
Proof.
  intros Hok. apply sum_nonneg. apply Forall_fmap.
  eapply Forall_impl; [exact (heat_ok_rows n heat Hok)|]. intros l Hl. by apply sum_nonneg.
Qed.

Lemma best_cell_loop_spec (n : Z) (kn heat : list (list Z)) (cells : list (Z * Z)) (acc : Z) :
  wf_grid n kn → wf_grid n heat → Forall (λ rc, inb n rc.1 rc.2) cells →
  ∃ best, for_each cells (λ rc, best_cell kn heat rc.1 rc.2) acc = Some best ∧
    acc ≤ best ∧
    (∀ rc, rc ∈ cells → grid_get kn rc.1 rc.2 = Some UNKNOWN →
       cell_at heat rc.1 rc.2 ≤ best) ∧
    (best = acc ∨
     ∃ rc, rc ∈ cells ∧ grid_get kn rc.1 rc.2 = Some UNKNOWN ∧ cell_at heat rc.1 rc.2 = best).
Proof.
  intros Hkn Hheat. revert acc. induction cells as [|[r c] cells IH]; intros acc Hin.
  - exists acc. simpl. split; [done|]. split; [lia|]. split; [|by left].
    intros rc Hrc. by apply elem_of_nil in Hrc.
  - apply Forall_cons in Hin as [Hrc Hin]. simpl in Hrc.
    assert (∃ acc', best_cell kn heat r c acc = Some acc' ∧ acc ≤ acc' ∧
              (grid_get kn r c = Some UNKNOWN → cell_at heat r c ≤ acc') ∧
              (acc' = acc ∨ grid_get kn r c = Some UNKNOWN ∧ cell_at heat r c = acc'))
      as (acc' & Hstep & Hle & Hub & Hatt).
    { unfold best_cell.
      destruct (grid_get_is_Some _ _ _ _ Hkn Hrc) as [cell Hcell]. rewrite Hcell. simpl.
      destruct (decide (cell = -1)) as [->|Hne].
      - rewrite (bool_decide_eq_true_2 (-1 = -1)) by done.
        rewrite (cell_at_get n heat) by done. simpl.
        case_bool_decide as Hlt.
        + exists (cell_at heat r c). split; [done|]. split; [lia|]. split; [lia|].
          right. done.
        + exists acc. split; [done|]. split; [lia|]. split; [lia|]. by left.
      - rewrite (bool_decide_eq_false_2 (cell = -1)) by done.
        exists acc. split; [done|]. split; [lia|]. split; [|by left].
        unfold UNKNOWN. congruence. }
    destruct (IH acc' Hin) as (best & Hrun & Hle' & Hub' & Hatt').
    exists best. cbn [for_each fst snd]. rewrite Hstep. cbn [mbind option_bind].
    split; [done|]. split; [lia|]. split.
    + intros rc Hmem Hun. apply elem_of_cons in Hmem as [->|Hmem].
      * simpl in *. specialize (Hub Hun). lia.
      * by apply Hub'.
    + destruct Hatt' as [->|(rc & Hmem & Hun & Hval)].
      * destruct Hatt as [->|[Hun Hval]]; [by left|].
        right. exists (r, c). split; [left|]. done.
      * right. exists rc. split; [by right|]. done.
Qed.

(** C8: [_best_counter_gain] is [0] when the heat sums to [0]; otherwise it
    is the largest heat of an Unknown cell over the total heat (and [0] when
    no cell is Unknown); in every case it lies between [0] and [1]. *)
Theorem best_counter_gain_is_best_ratio (ai : BattleshipAI) (k : list (list Z))
    (ships : list Z) :
  let n := ai_size ai in
  wf_grid n k →
  ∃ heat_p gain,
    heatmap ai k (Some ships) = Some heat_p ∧
    best_counter_gain (F:=Q) ai k ships = Some gain ∧
    (grid_total heat_p = 0 → gain = 0%Q) ∧
    (grid_total heat_p ≠ 0 →
       (∀ r c, inb n r c → grid_get k r c ≠ Some UNKNOWN) ∧ gain = 0%Q ∨
       ∃ r c, inb n r c ∧ grid_get k r c = Some UNKNOWN ∧
         (∀ r' c', inb n r' c' → grid_get k r' c' = Some UNKNOWN →
            cell_at heat_p r' c' ≤ cell_at heat_p r c) ∧
         (gain == inject_Z (cell_at heat_p r c) / inject_Z (grid_total heat_p))%Q) ∧
    (0 <= gain)%Q ∧ (gain <= 1)%Q.
Proof.
  intros n Hk.
  destruct (heatmap_ok ai k (Some ships) Hk) as (heat_p & Hheat & Hok).
  pose proof Hok as [Hwf Hpos]. pose proof (grid_total_nonneg n heat_p Hok) as Htot.
  assert (Hall : Forall (λ rc : Z * Z, inb n rc.1 rc.2) (all_cells n)).
  { apply Forall_forall. intros rc. by rewrite elem_of_all_cells. }
  destruct (best_cell_loop_spec n k heat_p (all_cells n) 0 Hk Hwf Hall)
    as (best & Hrun & Hbest0 & Hub & Hatt).
  exists heat_p. unfold best_counter_gain. fold n. rewrite Hheat. simpl.
  destruct (decide (grid_total heat_p ≤ 0)) as [Hz|Hnz].
  { rewrite bool_decide_eq_true_2 by done. exists 0%Q.
    split; [done|]. split; [done|]. split; [done|]. split; [lia|]. split; done. }
  rewrite bool_decide_eq_false_2 by done.
  rewrite for_each_nested, Hrun. simpl.
  assert (Hbest_le : best ≤ grid_total heat_p).
  { destruct Hatt as [->|([r c] & Hmem & _ & <-)]; [lia|].
    apply elem_of_all_cells in Hmem. by apply (grid_total_bounds n). }
  assert (Hratio : ∀ v, (v # Z.to_pos (grid_total heat_p) ==
                         inject_Z v / inject_Z (grid_total heat_p))%Q).
  { intros v. rewrite Qmake_Qdiv. by rewrite Z2Pos.id by lia. }
  eexists. split; [done|]. split; [done|]. split; [lia|]. split.
  - intros _.
    assert ((∃ rc, rc ∈ all_cells n ∧ grid_get k rc.1 rc.2 = Some UNKNOWN) ∨
            ¬ (∃ rc, rc ∈ all_cells n ∧ grid_get k rc.1 rc.2 = Some UNKNOWN))
      as [([r c] & Hmem & Hun)|Hnone].
    { destruct (decide (Exists (λ rc, grid_get k rc.1 rc.2 = Some UNKNOWN) (all_cells n)))
        as [Hex|Hno].
      - left. by apply Exists_exists in Hex.
      - right. intros Hex. apply Hno. by apply Exists_exists. }
    + right. destruct Hatt as [->|([r1 c1] & Hmem1 & Hun1 & Hval1)].
      * exists r, c. apply elem_of_all_cells in Hmem as Hrc. simpl in *.
        split; [done|]. split; [done|].
        assert (cell_at heat_p r c = 0) as Hzero.
        { specialize (Hub (r, c) Hmem Hun). specialize (Hpos r c Hrc). simpl in *. lia. }
        split.
        -- intros r' c' Hrc' Hun'. rewrite Hzero.
           apply (Hub (r', c')); [by apply elem_of_all_cells|done].
        -- rewrite Hzero. simpl.
           unfold Qdiv. by rewrite Qmult_0_l.
      * exists r1, c1. apply elem_of_all_cells in Hmem1 as Hrc1. simpl in *.
        split; [done|]. split; [done|]. split.
        -- intros r' c' Hrc' Hun'. rewrite Hval1.
           apply (Hub (r', c')); [by apply elem_of_all_cells|done].
        -- rewrite Hval1. case_bool_decide as Hb0; [|apply Hratio].
           assert (best = 0) as -> by lia. simpl. unfold Qdiv. by rewrite Qmult_0_l.
    + left. split.
      * intros r c Hrc Hun. apply Hnone. exists (r, c). split; [|done].
        by apply elem_of_all_cells.
      * destruct Hatt as [->|(rc & Hmem & Hun & _)]; [done|].
        exfalso. apply Hnone. eauto.
  - case_bool_decide as Hb0; [split; done|]. simpl. unfold Qle. simpl.
    rewrite Z2Pos.id by lia. lia.
Qed.

(** ** Choosing a shot *)

Lemma best_counter_gain_total `{FloatOps F} (ai : BattleshipAI) (k : list (list Z))
    (ships : list Z) :
  wf_grid (ai_size ai) k → ∃ gain : F, best_counter_gain ai k ships = Some gain.
Proof.
  intros Hk. destruct (heatmap_ok ai k (Some ships) Hk) as (heat_p & Hheat & [Hwf _]).
  unfold best_counter_gain. rewrite Hheat. simpl.
  destruct (bool_decide (grid_total heat_p ≤ 0)); [by eexists|].
  rewrite for_each_nested.
  destruct (best_cell_loop_spec (ai_size ai) k heat_p (all_cells (ai_size ai)) 0 Hk Hwf)
    as (best & -> & _).
  { apply Forall_forall. intros rc. by rewrite elem_of_all_cells. }
  simpl. by eexists.
Qed.

Lemma first_unknown_spec (n : Z) (k : list (list Z)) (cells : list (Z * Z)) :
  wf_grid n k → Forall (λ rc, inb n rc.1 rc.2) cells →
  ∃ rc, first_unknown k cells = Some rc ∧
    ((∃ x, x ∈ cells ∧ grid_get k x.1 x.2 = Some UNKNOWN) →
       rc ∈ cells ∧ grid_get k rc.1 rc.2 = Some UNKNOWN).
Proof.
  intros Hk. induction cells as [|[r c] cells IH]; intros Hin.
  - exists (0, 0). split; [done|]. intros (x & Hx & _). by apply elem_of_nil in Hx.
  - apply Forall_cons in Hin as [Hrc Hin]. simpl in Hrc.
    destruct (grid_get_is_Some _ _ _ _ Hk Hrc) as [cell Hcell].
    cbn [first_unknown]. rewrite Hcell. cbn [mbind option_bind].
    destruct (decide (cell = -1)) as [->|Hne].
    + rewrite (bool_decide_eq_true_2 (-1 = -1)) by done. exists (r, c).
      split; [done|]. intros _. split; [left|done].
    + rewrite (bool_decide_eq_false_2 (cell = -1)) by done.
      destruct (IH Hin) as (rc & Hrun & Hfound). exists rc. split; [done|].
      intros (x & Hx & Hun). apply elem_of_cons in Hx as [->|Hx].
      * simpl in Hun. rewrite Hcell in Hun. unfold UNKNOWN in Hun. congruence.
      * destruct Hfound as [Hmem Hun']; [eauto|]. split; [by right|done].
Qed.

Lemma score_loop_spec `{FloatOps F} (n : Z) (heat : list (list Z)) (total : Z) (opp : F)
    (cands : list (Z * Z)) (st : F * (Z * Z)) :
  wf_grid n heat → Forall (λ rc, inb n rc.1 rc.2) cands →
  ∃ st', for_each cands (score_candidate heat total opp) st = Some st' ∧
    (st'.2 = st.2 ∨ st'.2 ∈ cands).
Proof.
  intros Hheat. revert st. induction cands as [|rc cands IH]; intros st Hin.
  - exists st. split; [done|]. by left.
  - apply Forall_cons in Hin as [Hrc Hin].
    assert (∃ st1, score_candidate heat total opp rc st = Some st1 ∧
                   (st1.2 = st.2 ∨ st1.2 = rc)) as (st1 & Hstep & Hst1).
    { unfold score_candidate. destruct (bool_decide (total ≤ 0)); simpl.
      - destruct (f_gtb _ _); eexists; (split; [done|]); simpl; auto.
      - rewrite (cell_at_get n) by done. simpl.
        destruct (f_gtb _ _); eexists; (split; [done|]); simpl; auto. }
    destruct (IH st1 Hin) as (st' & Hrun & Hst').
    exists st'. cbn [for_each]. rewrite Hstep. cbn [mbind option_bind].
    split; [done|]. destruct Hst' as [Heq|Hmem]; [|right; by right].
    rewrite Heq. destruct Hst1 as [->| ->]; [by left|right; left].
Qed.

(** [choose_shot] always returns, and what it returns is one of its
    candidates when there are any, else the result of the fallback scan. *)
Lemma choose_shot_spec `{FloatOps F} (ai : BattleshipAI) (pk ps : list (list Z))
    (arg : option (list Z)) :
  let n := ai_size ai in
  wf_grid n pk → wf_grid n ps →
  ∃ heat tc cands rc,
    heatmap ai pk (Some (remaining_ships ai)) = Some heat ∧
    target_candidates ai pk = Some tc ∧
    (tc ≠ [] → cands = tc) ∧
    (tc = [] → top_candidates ai heat pk 8 = Some cands) ∧
    choose_shot (F:=F) ai pk ps arg = Some rc ∧
    (cands ≠ [] → rc ∈ cands) ∧
    (cands = [] → first_unknown pk (all_cells n) = Some rc).
Proof.
  intros n Hpk Hps.
  destruct (heatmap_ok ai pk (Some (remaining_ships ai)) Hpk) as (heat & Hheat & [Hwf _]).
  destruct (target_candidates_spec ai pk Hpk) as (clusters & tc & _ & Htc & _ & Htc_ok & _).
  destruct (top_candidates_spec ai heat pk 8 Hwf Hpk) as
    (ranked & top & _ & _ & Hranked & Htop & Htop_pos & Htop_all); [lia|].
  fold n in Htc_ok, Hranked.
  assert (Htop_ok : ∀ rc, rc ∈ top → inb n rc.1 rc.2).
  { assert (∀ rc l, l ⊆ ranked → rc ∈ strip_score <$> l → inb n rc.1 rc.2) as Hstrip.
    { intros rc l Hsub Hrc. apply list_elem_of_fmap in Hrc as ([[h r] c] & -> & Hmem).
      apply Hsub, Hranked in Hmem as [? _]. done. }
    intros rc Hrc.
    destruct (decide (Exists positive_score (take (Z.to_nat 8) ranked))) as [Hex|Hno].
    - rewrite (Htop_pos Hex) in Hrc. eapply Hstrip; [|exact Hrc].
      intros t Ht. apply list_elem_of_filter in Ht as [_ Ht].
      by apply subseteq_take in Ht.
    - rewrite (Htop_all Hno) in Hrc. eapply Hstrip; [|exact Hrc].
      intros t Ht. by apply subseteq_take in Ht. }
  set (cands := match tc with [] => top | _ => tc end).
  assert (Hcands_ok : Forall (λ rc, inb n rc.1 rc.2) cands).
  { apply Forall_forall. intros rc Hrc. unfold cands in Hrc.
    destruct tc; [by apply Htop_ok|]. by apply Htc_ok. }
  assert (Hsel : match tc with
                 | [] => top_candidates ai heat pk 8
                 | _ => Some tc
                 end = Some cands).
  { unfold cands. by destruct tc. }
  destruct (first_unknown_spec n pk (all_cells n) Hpk) as (fallback & Hfb & _).
  { apply Forall_forall. intros rc. by rewrite elem_of_all_cells. }
  destruct (best_counter_gain_total (F:=F) ai ps (py_or arg STANDARD_SHIPS) Hps)
    as (opp & Hopp).
  assert (Hrun : ∃ rc, choose_shot (F:=F) ai pk ps arg = Some rc ∧
                   (cands ≠ [] → rc ∈ cands) ∧
                   (cands = [] → first_unknown pk (all_cells n) = Some rc)).
  { unfold choose_shot. rewrite Hheat. cbn [mbind option_bind].
    rewrite Htc. cbn [mbind option_bind]. rewrite Hsel. cbn [mbind option_bind].
    destruct cands as [|first rest] eqn:Hc.
    - exists fallback. fold n. split; [done|]. split; done.
    - rewrite Hopp. cbn [mbind option_bind].
      destruct (score_loop_spec n heat (grid_total heat) opp (first :: rest)
                  (f_neg_1e9, first) Hwf Hcands_ok) as (st' & Hloop & Hst').
      rewrite Hloop. cbn [mbind option_bind]. exists st'.2.
      split; [done|]. split; [|done]. intros _.
      destruct Hst' as [->|?]; [left|done]. }
  destruct Hrun as (rc & Hrun & Hin & Hfall).
  exists heat, tc, cands, rc. split_and!; try done.
  - intros Hne. unfold cands. by destruct tc.
  - intros ->. done.
Qed.

(** C2: on a square grid with an Unknown cell [choose_shot] returns an
    in-bounds Unknown cell, and on every square grid it returns a cell. *)
Theorem choose_shot_targets_unknown `{FloatOps F} (ai : BattleshipAI)
    (pk ps : list (list Z)) (arg : option (list Z)) :
  let n := ai_size ai in
  wf_grid n pk → wf_grid n ps →
  ∃ rc, choose_shot (F:=F) ai pk ps arg = Some rc ∧
    ((∃ r c, inb n r c ∧ grid_get pk r c = Some UNKNOWN) →
       inb n rc.1 rc.2 ∧ grid_get pk rc.1 rc.2 = Some UNKNOWN).
Proof.
  intros n Hpk Hps.
  destruct (choose_shot_spec (F:=F) ai pk ps arg Hpk Hps)
    as (heat & tc & cands & rc & Hheat & Htc & Hsome & Hnone & Hrun & Hin & Hfall).
  exists rc. split; [done|]. intros (r & c & Hrc & Hun).
  destruct (heatmap_ok ai pk (Some (remaining_ships ai)) Hpk) as (heat' & Hheat' & [Hwf _]).
  assert (heat' = heat) as -> by congruence.
  destruct (target_candidates_spec ai pk Hpk) as (clusters & tc' & _ & Htc' & _ & Htc_ok & _).
  assert (tc' = tc) as -> by congruence. fold n in Htc_ok.
  destruct tc as [|t tc].
  - specialize (Hnone eq_refl).
    destruct (top_candidates_nonempty_spec ai heat pk 8 Hwf Hpk)
      as (ranked & top & _ & _ & Hranked & Htop & Htop_pos & Htop_all & Hne); [lia|].
    assert (top = cands) as -> by congruence. fold n in Hranked, Hne.
    assert (cands ≠ []) as Hcne by (apply Hne; [lia|eauto]).
    specialize (Hin Hcne).
    assert (∀ l, l ⊆ ranked → rc ∈ strip_score <$> l →
              inb n rc.1 rc.2 ∧ grid_get pk rc.1 rc.2 = Some UNKNOWN) as Hstrip.
    { intros l Hsub Hmem. apply list_elem_of_fmap in Hmem as ([[h r'] c'] & -> & Hmem).
      apply Hsub, Hranked in Hmem as (? & ? & _). done. }
    destruct (decide (Exists positive_score (take (Z.to_nat 8) ranked))) as [Hex|Hno].
    + rewrite (Htop_pos Hex) in Hin. eapply Hstrip; [|exact Hin].
      intros u Hu. apply list_elem_of_filter in Hu as [_ Hu].
      by apply subseteq_take in Hu.
    + rewrite (Htop_all Hno) in Hin. eapply Hstrip; [|exact Hin].
      intros u Hu. by apply subseteq_take in Hu.
  - assert (cands = t :: tc) as -> by (by apply Hsome). apply Htc_ok. by apply Hin.
Qed.

(** C3: with no Hit on the grid and a shortest ship of length at least 2,
    [heatmap] divides the heat of every odd-parity cell by four, truncating,
    and leaves even-parity cells alone; on the blank 10-by-10 grid with the
    standard fleet [choose_shot] picks an even-parity cell. *)
Theorem parity_pruning_quarters_odd_cells (ai : BattleshipAI) (k : list (list Z))
    (ships : list Z) (min_len : Z) :
  let n := ai_size ai in
  wf_grid n k → (∀ r c, inb n r c → grid_get k r c ≠ Some HIT) →
  py_min ships = Some min_len → 2 ≤ min_len →
  (∃ unpruned heat,
     heatmap_unpruned ai k ships = Some unpruned ∧
     heatmap ai k (Some ships) = Some heat ∧
     ∀ r c, inb n r c →
       cell_at heat r c =
         if decide ((r + c) `mod` 2 = 1) then Z.quot (cell_at unpruned r c) 4
         else cell_at unpruned r c) ∧
  (∀ (F : Type) (HF : FloatOps F) (ps : list (list Z)) (arg : option (list Z)),
     wf_grid 10 ps →
     ∃ rc, choose_shot (F:=F) ai10 blank10 ps arg = Some rc ∧ (rc.1 + rc.2) `mod` 2 = 0).
Proof.
  intros n Hk Hno Hmin Hlen. split; [by apply (heatmap_prunes_odd_cells ai k ships min_len)|].
  intros F HF ps arg Hps.
  assert (Hblank : wf_grid (ai_size ai10) blank10) by (by apply wf_grid_make).
  destruct (choose_shot_spec (F:=F) ai10 blank10 ps arg Hblank Hps)
    as (heat & tc & cands & rc & Hheat & Htc & _ & Hnone & Hrun & Hin & _).
  exists rc. split; [done|].
  assert (Etc : target_candidates ai10 blank10 = Some []) by (vm_compute; reflexivity).
  assert (Etop : heatmap ai10 blank10 (Some (remaining_ships ai10)) ≫=
                   (λ h, top_candidates ai10 h blank10 8) =
                 Some [(5, 5); (4, 4); (6, 4); (5, 3); (4, 6); (3, 5); (6, 6); (3, 3)])
    by (vm_compute; reflexivity).
  rewrite Etc in Htc. injection Htc as <-. specialize (Hnone eq_refl).
  rewrite Hheat in Etop. cbn [mbind option_bind] in Etop. rewrite Hnone in Etop.
  injection Etop as ->.
  assert (Hmem : rc ∈ [(5, 5); (4, 4); (6, 4); (5, 3); (4, 6); (3, 5); (6, 6); (3, 3)])
    by (by apply Hin).
  clear -Hmem.
  repeat (apply elem_of_cons in Hmem as [->|Hmem]; [reflexivity|]).
  by apply elem_of_nil in Hmem.
Qed.

(** ** The theorems at concrete inputs *)

Ltac solve_wf := split; [simpl; lia|split; [reflexivity|repeat constructor]].

Lemma wf_blank10 : wf_grid 10 blank10.
Proof. solve_wf. Defined.

Lemma wf_hit44 : wf_grid 10 hit44.
Proof. solve_wf. Defined.

Lemma wf_hit4445 : wf_grid 10 hit4445.
Proof. solve_wf. Defined.


Lemma choose_shot_witness :
  wf_grid 10 hit44 ∧ wf_grid 10 blank10 ∧
  ∃ rc, choose_shot (F:=Q) ai10 hit44 blank10 None = Some rc ∧
    ((∃ r c, inb 10 r c ∧ grid_get hit44 r c = Some UNKNOWN) →
       inb 10 rc.1 rc.2 ∧ grid_get hit44 rc.1 rc.2 = Some UNKNOWN).
Proof.
  split; [exact wf_hit44|]. split; [exact wf_blank10|].
  apply (choose_shot_targets_unknown (F:=Q) ai10 hit44 blank10 None);
    [exact wf_hit44|exact wf_blank10].
Defined.

Lemma parity_pruning_witness :
  (∃ unpruned heat,
     heatmap_unpruned ai10 blank10 STANDARD_SHIPS = Some unpruned ∧
     heatmap ai10 blank10 (Some STANDARD_SHIPS) = Some heat ∧
     ∀ r c, inb 10 r c →
       cell_at heat r c =
         if decide ((r + c) `mod` 2 = 1) then Z.quot (cell_at unpruned r c) 4
         else cell_at unpruned r c) ∧
  (∀ (F : Type) (HF : FloatOps F) (ps : list (list Z)) (arg : option (list Z)),
     wf_grid 10 ps →
     ∃ rc, choose_shot (F:=F) ai10 blank10 ps arg = Some rc ∧ (rc.1 + rc.2) `mod` 2 = 0).
Proof.
  apply (parity_pruning_quarters_odd_cells ai10 blank10 STANDARD_SHIPS 2).
  - exact wf_blank10.
  - intros r c Hrc. unfold blank10. rewrite grid_get_make by exact Hrc. discriminate.
  - reflexivity.
  - lia.
Defined.

Lemma target_candidates_witness :
  wf_grid 10 hit4445 ∧
  (∃ clusters cands,
     hit_clusters ai10 hit4445 = Some clusters ∧ target_candidates ai10 hit4445 = Some cands ∧
     NoDup cands ∧ ∀ rc, rc ∈ cands ↔ ∃ cl, cl ∈ clusters ∧ wanted 10 hit4445 cl rc) ∧
  (∃ cands, target_candidates ai10 hit44 = Some cands ∧
     cands ≡ₚ [(3, 4); (5, 4); (4, 3); (4, 5)]) ∧
  (∃ cands, target_candidates ai10 hit4445 = Some cands ∧
     cands ≡ₚ [(4, 3); (4, 6)]).
Proof.
  split; [exact wf_hit4445|].
  apply (target_candidates_extend_clusters ai10 hit4445). exact wf_hit4445.
Defined.

Lemma receive_shot_noop_witness :
  (in_bounds board2 0 0 = false ∨
   grid_get (board_grid board2) 0 0 = Some HIT ∨
   grid_get (board_grid board2) 0 0 = Some MISS) ∧
  ∃ rep, receive_shot board2 0 0 = Some (rep, board2) ∧
    hit rep = false ∧ sunk_length rep = None.
Proof.
  split; [right; right; reflexivity|].
  apply (receive_shot_noop board2 0 0). right. right. reflexivity.
Defined.

Lemma top_candidates_witness :
  wf_grid 2 heat2 ∧ wf_grid 2 blank2 ∧ 0 ≤ 2 ∧
  ∃ ranked res,
    StronglySorted triple_ge ranked ∧ NoDup ranked ∧
    (∀ h r c, (h, r, c) ∈ ranked ↔
       inb 2 r c ∧ grid_get blank2 r c = Some UNKNOWN ∧ grid_get heat2 r c = Some h) ∧
    top_candidates ai2 heat2 blank2 2 = Some res ∧
    (Exists positive_score (take (Z.to_nat 2) ranked) →
       res = strip_score <$> filter positive_score (take (Z.to_nat 2) ranked)) ∧
    (¬ Exists positive_score (take (Z.to_nat 2) ranked) →
       res = strip_score <$> take (Z.to_nat 2) ranked) ∧
    (0 < 2 → (∃ r c, inb 2 r c ∧ grid_get blank2 r c = Some UNKNOWN) → res ≠ []).
Proof.
  assert (wf_grid 2 heat2) as H1 by solve_wf.
  assert (wf_grid 2 blank2) as H2 by solve_wf.
  split; [exact H1|]. split; [exact H2|]. split; [lia|].
  apply (top_candidates_positive_or_all ai2 heat2 blank2 2); [exact H1|exact H2|lia].
Defined.

Lemma best_counter_gain_witness :
  wf_grid 10 blank10 ∧
  ∃ heat_p gain,
    heatmap ai10 blank10 (Some STANDARD_SHIPS) = Some heat_p ∧
    best_counter_gain (F:=Q) ai10 blank10 STANDARD_SHIPS = Some gain ∧
    (grid_total heat_p = 0 → gain = 0%Q) ∧
    (grid_total heat_p ≠ 0 →
       (∀ r c, inb 10 r c → grid_get blank10 r c ≠ Some UNKNOWN) ∧ gain = 0%Q ∨
       ∃ r c, inb 10 r c ∧ grid_get blank10 r c = Some UNKNOWN ∧
         (∀ r' c', inb 10 r' c' → grid_get blank10 r' c' = Some UNKNOWN →
            cell_at heat_p r' c' ≤ cell_at heat_p r c) ∧
         (gain == inject_Z (cell_at heat_p r c) / inject_Z (grid_total heat_p))%Q) ∧
    (0 <= gain)%Q ∧ (gain <= 1)%Q.
Proof.
  split; [exact wf_blank10|].
  apply (best_counter_gain_is_best_ratio ai10 blank10 STANDARD_SHIPS). exact wf_blank10.
Defined.

Lemma get_ai_knowledge_witness :
  wf_grid (board_size board2) (board_grid board2) ∧
  ∃ view, get_ai_knowledge board2 = Some view ∧ wf_grid (board_size board2) view ∧
    (∀ r c cell, inb (board_size board2) r c → grid_get (board_grid board2) r c = Some cell →
       grid_get view r c =
         Some (if decide (cell = HIT) then HIT
               else if decide (cell = MISS) then MISS else UNKNOWN)) ∧
    (∀ b2, board_size b2 = board_size board2 → wf_grid (board_size b2) (board_grid b2) →
       (∀ r c, inb (board_size board2) r c →
          (grid_get (board_grid board2) r c = Some HIT ↔ grid_get (board_grid b2) r c = Some HIT) ∧
          (grid_get (board_grid board2) r c = Some MISS ↔
           grid_get (board_grid b2) r c = Some MISS)) →
       get_ai_knowledge b2 = Some view).
Proof.
  assert (wf_grid (board_size board2) (board_grid board2)) as Hwf by solve_wf.
  split; [exact Hwf|]. apply (get_ai_knowledge_hides_ships board2). exact Hwf.
Defined.

(** * Further properties of the board *)

Lemma in_bounds_inb (b : Board) (r c : Z) :
  in_bounds b r c = true ↔ inb (board_size b) r c.
Proof.
  unfold in_bounds, inb. rewrite andb_true_iff, !bool_decide_eq_true. done.
Qed.

Lemma can_place_loop_spec (b : Board) (r c : Z) (horizontal : bool) (steps : list Z) :
  wf_grid (board_size b) (board_grid b) →
  can_place_loop b r c horizontal steps =
    Some (bool_decide (Forall (λ rc, inb (board_size b) rc.1 rc.2 ∧
                                     grid_get (board_grid b) rc.1 rc.2 = Some EMPTY)
            ((λ i, (place_row r horizontal i, place_col c horizontal i)) <$> steps))).
Proof.
  intros Hwf. induction steps as [|i steps IH]; [done|].
  cbn [can_place_loop fmap list_fmap].
  set (rr := place_row r horizontal i). set (cc := place_col c horizontal i).
  rewrite IH. destruct (in_bounds b rr cc) eqn:Hin; cbn [negb].
  - apply in_bounds_inb in Hin.
    destruct (grid_get_is_Some _ _ _ _ Hwf Hin) as [cell Hcell]. rewrite Hcell.
    cbn [mbind option_bind].
    destruct (decide (cell = EMPTY)) as [->|Hne].
    + rewrite (bool_decide_eq_false_2 (EMPTY ≠ EMPTY)) by (intros H; by apply H).
      f_equal. apply bool_decide_ext. rewrite Forall_cons. simpl. rewrite Hcell. tauto.
    + rewrite (bool_decide_eq_true_2 (cell ≠ EMPTY)) by done. f_equal. symmetry.
      apply bool_decide_eq_false_2. intros Hall.
      apply Forall_cons in Hall as [[_ Hc] _]. simpl in Hc. congruence.
  - f_equal. symmetry. apply bool_decide_eq_false_2. intros Hall.
    apply Forall_cons in Hall as [[Hc _] _]. simpl in Hc.
    apply in_bounds_inb in Hc. congruence.
Qed.

Lemma place_loop_spec (n : Z) (r c : Z) (horizontal : bool) (steps : list Z)
    (g : list (list Z)) (acc : list (Z * Z)) :
  let cells := (λ i, (place_row r horizontal i, place_col c horizontal i)) <$> steps in
  wf_grid n g → Forall (λ rc, inb n rc.1 rc.2) cells →
  ∃ g', for_each steps (place_cell r c horizontal) (g, acc) = Some (g', acc ++ cells) ∧
    wf_grid n g' ∧
    ∀ r' c', inb n r' c' →
      grid_get g' r' c' = if decide ((r', c') ∈ cells) then Some SHIP else grid_get g r' c'.
Proof.
  revert g acc. induction steps as [|i steps IH]; intros g acc cells Hwf Hin.
  - exists g. cbn. rewrite app_nil_r. split; [done|]. split; [done|]. intros r' c' _.
    destruct (decide ((r', c') ∈ cells)) as [Hel|]; [by apply elem_of_nil in Hel|done].
  - unfold cells in *. cbn [fmap list_fmap] in *. apply Forall_cons in Hin as [Hi Hin].
    simpl in Hi.
    destruct (grid_set_spec n g _ _ SHIP Hwf Hi) as (g1 & Hset & Hwf1 & Hget1).
    destruct (IH g1 (acc ++ [(place_row r horizontal i, place_col c horizontal i)]) Hwf1 Hin)
      as (g' & Hrun & Hwf' & Hget').
    exists g'. cbn [for_each].
    change (place_cell r c horizontal i (g, acc)) with
      (grid_set g (place_row r horizontal i) (place_col c horizontal i) SHIP ≫=
         λ g', Some (g', acc ++ [(place_row r horizontal i, place_col c horizontal i)])).
    rewrite Hset. cbn [mbind option_bind]. rewrite Hrun. rewrite <- app_assoc. split; [done|].
    split; [done|]. intros r' c' Hrc'. rewrite Hget' by done. rewrite Hget1 by done.
    destruct (decide ((r', c') ∈
                (λ i : Z, (place_row r horizontal i, place_col c horizontal i)) <$> steps))
      as [Hel|Hnel].
    + rewrite decide_True; [done|]. by right.
    + destruct (decide ((r', c') = (place_row r horizontal i, place_col c horizontal i)))
        as [Heq|Hne].
      * rewrite decide_True; [done|]. rewrite Heq. left.
      * rewrite decide_False; [done|]. intros Hel. apply elem_of_cons in Hel as [?|?]; done.
Qed.

Lemma place_ship_cases (b : Board) (r c length : Z) (horizontal : bool) :
  let cells := placement_cells r c length horizontal in
  let free := Forall (λ rc, inb (board_size b) rc.1 rc.2 ∧
                            grid_get (board_grid b) rc.1 rc.2 = Some EMPTY) cells in
  wf_grid (board_size b) (board_grid b) →
  can_place b r c length horizontal = Some (bool_decide free) ∧
  (¬ free → place_ship b r c length horizontal = Some (false, b)) ∧
  (free →
     ∃ g', place_ship b r c length horizontal =
             Some (true, mkBoard (board_size b) g'
                           (board_ships b ++ [mkShip length cells 0])
                           (total_ship_cells b + length)) ∧
       wf_grid (board_size b) g' ∧
       ∀ r' c', inb (board_size b) r' c' →
         grid_get g' r' c' =
           if decide ((r', c') ∈ cells) then Some SHIP else grid_get (board_grid b) r' c').
Proof.
  intros cells free Hwf.
  assert (Hcan : can_place b r c length horizontal = Some (bool_decide free))
    by (by apply can_place_loop_spec).
  split; [done|]. unfold place_ship. rewrite Hcan. cbn [mbind option_bind]. split.
  - intros Hno. by rewrite bool_decide_eq_false_2.
  - intros Hfree. rewrite bool_decide_eq_true_2 by done. cbn [negb].
    destruct (place_loop_spec (board_size b) r c horizontal (range length) (board_grid b) [])
      as (g' & Hrun & Hwf' & Hget); [done| |].
    { eapply Forall_impl; [exact Hfree|]. by intros rc [? _]. }
    exists g'. rewrite Hrun. cbn [mbind option_bind fst snd]. done.
Qed.

(** [can_place] decides that every cell of the region is on the board and
    [EMPTY]; [place_ship] refuses without touching the board when it says no,
    and otherwise marks exactly the region, appends the ship and adds its
    length to the running total. *)
Theorem place_ship_spec (b : Board) (r c length : Z) (horizontal : bool) :
  let cells := placement_cells r c length horizontal in
  let free := Forall (λ rc, inb (board_size b) rc.1 rc.2 ∧
                            grid_get (board_grid b) rc.1 rc.2 = Some EMPTY) cells in
  wf_grid (board_size b) (board_grid b) →
  can_place b r c length horizontal = Some (bool_decide free) ∧
  (¬ free → place_ship b r c length horizontal = Some (false, b)) ∧
  (free →
     ∃ g', place_ship b r c length horizontal =
             Some (true, mkBoard (board_size b) g'
                           (board_ships b ++ [mkShip length cells 0])
                           (total_ship_cells b + length)) ∧
       wf_grid (board_size b) g' ∧
       ∀ r' c', inb (board_size b) r' c' →
         grid_get g' r' c' =
           if decide ((r', c') ∈ cells) then Some SHIP else grid_get (board_grid b) r' c').
Proof. apply place_ship_cases. Qed.

Lemma hit_ship_shape (rc : Z * Z) (ss : list Ship) :
  ship_cells <$> (hit_ship rc ss).2 = ship_cells <$> ss ∧
  ship_length <$> (hit_ship rc ss).2 = ship_length <$> ss.
Proof.
  induction ss as [|s ss [IH1 IH2]]; [done|]. cbn [hit_ship].
  destruct (decide (rc ∈ ship_cells s)); [done|].
  destruct (hit_ship rc ss) as [sl rest]. cbn [snd fmap list_fmap] in *.
  by rewrite IH1, IH2.
Qed.

Lemma receive_shot_cases (b : Board) (r c : Z) :
  wf_grid (board_size b) (board_grid b) →
  ∃ valid rep b',
    is_valid_shot b r c = Some valid ∧ receive_shot b r c = Some (rep, b') ∧
    board_size b' = board_size b ∧ total_ship_cells b' = total_ship_cells b ∧
    wf_grid (board_size b) (board_grid b') ∧
    ship_cells <$> board_ships b' = ship_cells <$> board_ships b ∧
    ship_length <$> board_ships b' = ship_length <$> board_ships b ∧
    (valid = false → b' = b ∧ hit rep = false ∧ sunk_length rep = None) ∧
    (valid = true →
       ∃ cell, grid_get (board_grid b) r c = Some cell ∧ cell ≠ HIT ∧ cell ≠ MISS ∧
         hit rep = bool_decide (cell = SHIP) ∧
         (∀ r' c', inb (board_size b) r' c' →
            grid_get (board_grid b') r' c' =
              if decide ((r', c') = (r, c))
              then Some (if decide (cell = SHIP) then HIT else MISS)
              else grid_get (board_grid b) r' c') ∧
         is_valid_shot b' r c = Some false).
Proof.
  intros Hwf. unfold is_valid_shot, receive_shot.
  destruct (in_bounds b r c) eqn:Hin; cbn [negb].
  2:{ exists false. eexists _, b. split_and!; try done. }
  apply in_bounds_inb in Hin as Hrc.
  destruct (grid_get_is_Some _ _ _ _ Hwf Hrc) as [cell Hcell]. rewrite Hcell.
  cbn [mbind option_bind].
  destruct (decide (cell = HIT ∨ cell = MISS)) as [Hres|Hres].
  { rewrite (bool_decide_eq_true_2 _ Hres). exists false. eexists _, b.
    split_and!; try done. }
  rewrite (bool_decide_eq_false_2 _ Hres). cbn [negb]. exists true.
  assert (Hvalid' : ∀ g' ships' total v, v = HIT ∨ v = MISS →
    (∀ r' c', inb (board_size b) r' c' →
       grid_get g' r' c' = if decide ((r', c') = (r, c)) then Some v
                           else grid_get (board_grid b) r' c') →
    (if in_bounds (mkBoard (board_size b) g' ships' total) r c
     then grid_get g' r c ≫= λ cell, Some (negb (bool_decide (cell = HIT ∨ cell = MISS)))
     else Some false) = Some false).
  { intros g' ships' total v Hv Hget. unfold in_bounds. cbn [board_size].
    fold (in_bounds b r c). rewrite Hin. rewrite Hget by done.
    rewrite decide_True by done. cbn [mbind option_bind].
    by rewrite bool_decide_eq_true_2. }
  destruct (decide (cell = SHIP)) as [->|Hne].
  - rewrite (bool_decide_eq_true_2 (SHIP = SHIP)) by done.
    destruct (grid_set_spec _ _ r c HIT Hwf Hrc) as (g' & Hset & Hwf' & Hget').
    rewrite Hset. cbn [mbind option_bind].
    pose proof (hit_ship_shape (r, c) (board_ships b)) as [Hc Hl].
    destruct (hit_ship (r, c) (board_ships b)) as [sl ships'] eqn:Hhs. cbn [snd] in *.
    eexists _, _. split; [done|]. split; [done|]. cbn [board_size total_ship_cells
      board_grid board_ships]. split_and!; try done.
    intros _. exists SHIP. split; [done|]. split; [done|]. split; [done|].
    split; [done|]. split; [done|].
    apply (Hvalid' g' ships' (total_ship_cells b) HIT); [by left|done].
  - rewrite (bool_decide_eq_false_2 (cell = SHIP)) by done.
    destruct (grid_set_spec _ _ r c MISS Hwf Hrc) as (g' & Hset & Hwf' & Hget').
    rewrite Hset. cbn [mbind option_bind].
    eexists _, _. split; [done|]. split; [done|]. cbn [board_size total_ship_cells
      board_grid board_ships]. split_and!; try done.
    intros _. exists cell. split; [done|]. split; [tauto|]. split; [tauto|].
    split; [by rewrite bool_decide_eq_false_2|]. split.
    { intros r' c' Hrc'. rewrite Hget' by done. by destruct (decide (cell = SHIP)). }
    apply (Hvalid' g' (board_ships b) (total_ship_cells b) MISS); [by right|done].
Qed.

(** What one call of [receive_shot] does to the grid.  A shot that
    [is_valid_shot] accepts turns its cell into [HIT] (reporting a hit) when it
    was [SHIP] and into [MISS] otherwise, touches no other cell, and is not
    valid a second time; a shot it rejects changes nothing.  Ship cells,
    ship lengths, size and running total are never changed. *)
Theorem receive_shot_resolves (b : Board) (r c : Z) :
  wf_grid (board_size b) (board_grid b) →
  ∃ valid rep b',
    is_valid_shot b r c = Some valid ∧ receive_shot b r c = Some (rep, b') ∧
    board_size b' = board_size b ∧ total_ship_cells b' = total_ship_cells b ∧
    wf_grid (board_size b) (board_grid b') ∧
    ship_cells <$> board_ships b' = ship_cells <$> board_ships b ∧
    ship_length <$> board_ships b' = ship_length <$> board_ships b ∧
    (valid = false → b' = b ∧ hit rep = false ∧ sunk_length rep = None) ∧
    (valid = true →
       ∃ cell, grid_get (board_grid b) r c = Some cell ∧ cell ≠ HIT ∧ cell ≠ MISS ∧
         hit rep = bool_decide (cell = SHIP) ∧
         (∀ r' c', inb (board_size b) r' c' →
            grid_get (board_grid b') r' c' =
              if decide ((r', c') = (r, c))
              then Some (if decide (cell = SHIP) then HIT else MISS)
              else grid_get (board_grid b) r' c') ∧
         is_valid_shot b' r c = Some false).
Proof. apply receive_shot_cases. Qed.

Lemma filter_all_id {A} (P : A → Prop) `{∀ x, Decision (P x)} (l : list A) :
  Forall P l → filter P l = l.
Proof. induction 1; [done|]. rewrite filter_cons_True by done. by f_equal. Qed.

Lemma sum_lengths_snoc (ss : list Ship) (s : Ship) :
  foldr Z.add 0 (ship_length <$> ss ++ [s]) =
  foldr Z.add 0 (ship_length <$> ss) + ship_length s.
Proof.
  rewrite fmap_app, foldr_app. cbn [fmap list_fmap foldr].
  induction (ship_length <$> ss) as [|x l IH]; cbn [foldr]; lia.
Qed.

Lemma owner_fmap (ss ss' : list Ship) (rc : Z * Z) :
  ship_cells <$> ss' = ship_cells <$> ss →
  (∃ s, s ∈ ss' ∧ rc ∈ ship_cells s) → ∃ s, s ∈ ss ∧ rc ∈ ship_cells s.
Proof.
  intros Heq (s' & Hs' & Hrc).
  assert (ship_cells s' ∈ ship_cells <$> ss) as Hin.
  { rewrite <- Heq. apply list_elem_of_fmap. by exists s'. }
  apply list_elem_of_fmap in Hin as (s & Hcs & Hs). exists s. split; [done|]. by rewrite <- Hcs.
Qed.

Lemma fleet_ok_fresh (n : Z) : 0 ≤ n → fleet_ok (new_board n).
Proof.
  intros Hn. split; [|split; [|done]].
  - split; [by apply wf_grid_make|]. split; [constructor|].
    intros i j si sj rc Hi. done.
  - intros r c Hrc. cbn [new_board board_grid board_ships board_size] in *.
    rewrite grid_get_make by done. split.
    + intros (s & Hs & _). by apply elem_of_nil in Hs.
    + intros [H|H]; discriminate H.
Qed.

(** [Board(size)] satisfies the board invariant. *)
Theorem fleet_ok_new_board (n : Z) : 0 ≤ n → fleet_ok (new_board n).
Proof. apply fleet_ok_fresh. Qed.

Lemma fleet_ok_place (b b' : Board) (r c length : Z) (horizontal : bool) :
  fleet_ok b → 0 ≤ length →
  place_ship b r c length horizontal = Some (true, b') → fleet_ok b'.
Proof.
  intros (Hok & Hcells & Htotal) Hlen Hplace.
  pose proof Hok as (Hwf & Hships & Hdisj).
  destruct (place_ship_cases b r c length horizontal Hwf) as (_ & Hno & Hyes).
  set (cells := placement_cells r c length horizontal) in *.
  destruct (decide (Forall (λ rc, inb (board_size b) rc.1 rc.2 ∧
                                  grid_get (board_grid b) rc.1 rc.2 = Some EMPTY) cells))
    as [Hfree|Hnfree].
  2:{ rewrite (Hno Hnfree) in Hplace. done. }
  destruct (Hyes Hfree) as (g' & Hrun & Hwf' & Hget). rewrite Hrun in Hplace.
  injection Hplace as <-.
  rewrite Forall_forall in Hfree. rewrite Forall_forall in Hships.
  assert (Hold : ∀ s rc, s ∈ board_ships b → rc ∈ ship_cells s →
            inb (board_size b) rc.1 rc.2 ∧ (rc ∉ cells) ∧
            grid_get g' rc.1 rc.2 = grid_get (board_grid b) rc.1 rc.2).
  { intros s rc Hs Hrc. destruct (Hships s Hs) as (_ & Hinb & _).
    rewrite Forall_forall in Hinb. specialize (Hinb rc Hrc).
    assert (rc ∉ cells) as Hnot.
    { intros Hmem. destruct (Hfree rc Hmem) as [_ He]. destruct rc as [r' c'].
      destruct (proj1 (Hcells r' c' Hinb)) as [H1|H1]; [by exists s| |];
        cbn [fst snd] in *; rewrite He in H1; discriminate H1. }
    split; [done|]. split; [done|]. destruct rc as [r' c']. rewrite Hget by done.
    by rewrite decide_False. }
  assert (Hnew : ∀ rc, rc ∈ cells → inb (board_size b) rc.1 rc.2 ∧
                                    grid_get g' rc.1 rc.2 = Some SHIP).
  { intros rc Hrc. destruct (Hfree rc Hrc) as [Hinb _]. split; [done|].
    destruct rc as [r' c']. rewrite Hget by done. by rewrite decide_True. }
  split; [|split].
  - split; [done|]. cbn [board_size board_grid board_ships]. split.
    + apply Forall_app. split.
      * apply Forall_forall. intros s Hs. destruct (Hships s Hs) as (Hnd & Hinb & Hl & Hh).
        split_and!; try done. rewrite <- Hh. do 2 f_equal. unfold live_cells.
        apply filter_length_iff. intros rc Hrc. destruct (Hold s rc Hs Hrc) as (_ & _ & ->).
        done.
      * apply Forall_singleton. unfold ship_ok. cbn [ship_cells ship_length ship_hits].
        fold cells. split_and!.
        -- apply NoDup_placement_cells.
        -- apply Forall_forall. intros rc Hrc. by apply Hnew.
        -- unfold cells, placement_cells, range. rewrite length_fmap, length_seqZ. lia.
        -- unfold live_cells. cbn [ship_cells].
           assert (filter (λ rc, grid_get g' rc.1 rc.2 = Some SHIP) cells = cells) as ->.
           { apply filter_all_id. apply Forall_forall. intros rc Hrc. by apply Hnew. }
           unfold cells, placement_cells, range. rewrite length_fmap, length_seqZ. lia.
    + intros i j si sj rc Hi Hj Hmi Hmj.
      apply lookup_app_Some in Hi as [Hi|[Hgi Hi]], Hj as [Hj|[Hgj Hj]].
      * by eapply Hdisj.
      * apply list_lookup_singleton_Some in Hj as [_ <-]. cbn [ship_cells] in Hmj.
        exfalso. destruct (Hold si rc) as (_ & Hnot & _); [by eapply list_elem_of_lookup_2|done|].
        done.
      * apply list_lookup_singleton_Some in Hi as [_ <-]. cbn [ship_cells] in Hmi.
        exfalso. destruct (Hold sj rc) as (_ & Hnot & _); [by eapply list_elem_of_lookup_2|done|].
        done.
      * apply list_lookup_singleton_Some in Hi as [Hi _], Hj as [Hj _]. lia.
  - cbn [board_grid board_ships board_size]. intros r' c' Hrc'. rewrite Hget by done.
    destruct (decide ((r', c') ∈ cells)) as [Hin|Hnin].
    + split; [by left|]. intros _. exists (mkShip length cells 0). split; [|done].
      apply elem_of_app. right. by apply list_elem_of_singleton.
    + rewrite <- (Hcells r' c' Hrc'). split; intros (s & Hs & Hmem).
      * apply elem_of_app in Hs as [Hs|Hs]; [by exists s|].
        apply list_elem_of_singleton in Hs as ->. done.
      * exists s. split; [|done]. apply elem_of_app. by left.
  - cbn [total_ship_cells board_ships]. rewrite sum_lengths_snoc. cbn [ship_length]. lia.
Qed.


Lemma fleet_ok_shot (b b' : Board) (r c : Z) (rep : ShotReport) :
  fleet_ok b → receive_shot b r c = Some (rep, b') → fleet_ok b'.
Proof.
  intros (Hok & Hcells & Htotal) Hshot. pose proof Hok as (Hwf & Hships & _).
  destruct (receive_shot_step b r c Hok) as (rep1 & b1 & Hshot1 & Hok1 & _).
  destruct (receive_shot_cases b r c Hwf)
    as (valid & rep2 & b2 & _ & Hshot2 & Hsize & Htot & _ & Hc & Hl & Hno & Hyes).
  assert (b1 = b') as -> by congruence. assert (b2 = b') as -> by congruence.
  assert (rep2 = rep) as -> by congruence.
  split; [done|]. split.
  - rewrite Hsize. intros r' c' Hrc'. destruct valid.
    + destruct (Hyes eq_refl) as (cell & Hcell & Hnh & Hnm & _ & Hget & _).
      rewrite Hget by done.
      assert ((∃ s, s ∈ board_ships b' ∧ (r', c') ∈ ship_cells s) ↔
              (∃ s, s ∈ board_ships b ∧ (r', c') ∈ ship_cells s)) as ->.
      { split; by apply owner_fmap. }
      rewrite (Hcells r' c' Hrc').
      destruct (decide ((r', c') = (r, c))) as [Heq|]; [|done].
      injection Heq as -> ->. rewrite Hcell.
      destruct (decide (cell = SHIP)) as [->|Hns].
      * split; intros _; [by right|by left].
      * split; intros [H|H]; try discriminate H; injection H as H; done.
    + destruct (Hno eq_refl) as (-> & _). by apply Hcells.
  - rewrite Htot, Htotal. by rewrite Hl.
Qed.

(** [receive_shot] keeps the board invariant, whatever the shot. *)
Theorem fleet_ok_receive_shot (b b' : Board) (r c : Z) (rep : ShotReport) :
  fleet_ok b → receive_shot b r c = Some (rep, b') → fleet_ok b'.
Proof. apply fleet_ok_shot. Qed.

(** A placement that covers a cell of a ship already on the board is
    refused and leaves the board as it was: ships never overlap. *)
Theorem place_ship_refuses_overlap (b : Board) (r c length : Z) (horizontal : bool)
    (s : Ship) (rc : Z * Z) :
  fleet_ok b → s ∈ board_ships b → rc ∈ ship_cells s →
  rc ∈ placement_cells r c length horizontal →
  place_ship b r c length horizontal = Some (false, b).
Proof.
  intros (Hok & Hcells & _) Hs Hrc Hmem. pose proof Hok as (Hwf & Hships & _).
  destruct (place_ship_cases b r c length horizontal Hwf) as (_ & Hno & _).
  apply Hno. intros Hfree. rewrite Forall_forall in Hfree.
  destruct (Hfree rc Hmem) as [Hinb He]. destruct rc as [r' c']. cbn [fst snd] in *.
  destruct (proj1 (Hcells r' c' Hinb)) as [H|H]; [by exists s| |];
    rewrite He in H; discriminate H.
Qed.

Lemma sunk_no_live (n : Z) (g : list (list Z)) (s : Ship) :
  ship_ok n g s →
  sunk s = true ↔ ∀ rc, rc ∈ ship_cells s → grid_get g rc.1 rc.2 ≠ Some SHIP.
Proof.
  intros (_ & _ & _ & Hh). unfold sunk. rewrite bool_decide_eq_true. split.
  - intros Hle rc Hrc Hship.
    assert (rc ∈ live_cells g s) as Hin by (by apply list_elem_of_filter).
    destruct (live_cells g s); [by apply elem_of_nil in Hin|]. simpl in Hh. lia.
  - intros Hnone. assert (live_cells g s = []) as Hnil.
    { destruct (live_cells g s) as [|rc l] eqn:Hl; [done|]. exfalso.
      assert (rc ∈ live_cells g s) as Hin by (rewrite Hl; left).
      apply list_elem_of_filter in Hin as [Hship Hin]. by apply (Hnone rc). }
    rewrite Hnil in Hh. simpl in Hh. lia.
Qed.

Lemma all_sunk_iff (b : Board) :
  fleet_ok b →
  all_ships_sunk b = true ↔
    board_ships b ≠ [] ∧
    ∀ r c, inb (board_size b) r c → grid_get (board_grid b) r c ≠ Some SHIP.
Proof.
  intros (Hok & Hcells & _). pose proof Hok as (Hwf & Hships & _).
  rewrite Forall_forall in Hships.
  unfold all_ships_sunk. rewrite andb_true_iff, bool_decide_eq_true, forallb_forall.
  assert (0 < length (board_ships b) ↔ board_ships b ≠ [])%nat as ->.
  { destruct (board_ships b); simpl; split; try done; lia. }
  split; [intros [Hall Hne]; split; [done|]|intros [Hne Hall]; split; [|done]].
  - intros r c Hrc Hship. destruct (proj2 (Hcells r c Hrc)) as (s & Hs & Hmem); [by left|].
    assert (sunk s = true) as Hsunk by (apply Hall; by apply list_elem_of_In).
    by apply (proj1 (sunk_no_live _ _ _ (Hships s Hs)) Hsunk (r, c)).
  - intros s Hs. apply list_elem_of_In in Hs.
    apply (sunk_no_live _ _ _ (Hships s Hs)). intros rc Hrc.
    destruct (Hships s Hs) as (_ & Hinb & _). rewrite Forall_forall in Hinb.
    apply Hall. by apply Hinb.
Qed.

(** The meaning of [all_ships_sunk], and so of the [game_over] flag: the
    board holds at least one ship and no cell of the grid is still [SHIP]. *)
Theorem all_ships_sunk_spec (b : Board) :
  fleet_ok b →
  all_ships_sunk b = true ↔
    board_ships b ≠ [] ∧
    ∀ r c, inb (board_size b) r c → grid_get (board_grid b) r c ≠ Some SHIP.
Proof. apply all_sunk_iff. Qed.

Lemma public_cell_spec (n : Z) (g view : list (list Z)) (r c : Z) :
  wf_grid n g → inb n r c → wf_grid n view →
  ∃ view', public_cell g r c view = Some view' ∧ wf_grid n view' ∧
    ∀ r' c', inb n r' c' →
      grid_get view' r' c' =
        if decide ((r', c') = (r, c)) then public <$> grid_get g r c
        else grid_get view r' c'.
Proof.
  intros Hg Hrc Hview.
  destruct (grid_get_is_Some n g r c Hg Hrc) as [cell Hcell].
  unfold public_cell. rewrite Hcell. simpl. unfold public.
  destruct (bool_decide (cell = HIT)); [by apply grid_set_spec|].
  destruct (bool_decide (cell = MISS)); by apply grid_set_spec.
Qed.

Lemma get_public_view_cells (b : Board) :
  wf_grid (board_size b) (board_grid b) →
  ∃ view, get_public_view b = Some view ∧ wf_grid (board_size b) view ∧
    ∀ r c, inb (board_size b) r c →
      grid_get view r c = public <$> grid_get (board_grid b) r c.
Proof.
  intros Hwf. unfold get_public_view.
  destruct (for_each_cellwise (board_size b) (public_cell (board_grid b))
              (λ r c _, default EMPTY (public <$> grid_get (board_grid b) r c))
              (make_grid (board_size b) EMPTY))
    as (view & Hview & Hwfv & Hget).
  - intros r c h Hrc Hh.
    destruct (public_cell_spec _ _ h r c Hwf Hrc Hh) as (h' & Hh' & Hwfh' & Hgeth').
    exists h'. split; [done|]. split; [done|]. intros r' c' Hrc'.
    rewrite Hgeth' by done. destruct (decide ((r', c') = (r, c))); [|done].
    destruct (grid_get_is_Some _ _ r c Hwf Hrc) as [x ->].
    destruct (grid_get_is_Some _ _ r c Hh Hrc) as [y ->]. done.
  - apply wf_grid_make. by destruct Hwf.
  - exists view. split; [done|]. split; [done|]. intros r c Hrc.
    rewrite Hget by done. rewrite grid_get_make by done.
    by destruct (grid_get_is_Some _ _ r c Hwf Hrc) as [x ->].
Qed.

(** [get_public_view] shows [HIT] and [MISS] as they are and every other
    cell, un-hit ships included, as [EMPTY]; it is the knowledge view with
    [EMPTY] in place of Unknown. *)
Theorem get_public_view_spec (b : Board) :
  wf_grid (board_size b) (board_grid b) →
  ∃ pv kv, get_public_view b = Some pv ∧ get_ai_knowledge b = Some kv ∧
    wf_grid (board_size b) pv ∧
    (∀ r c cell, inb (board_size b) r c → grid_get (board_grid b) r c = Some cell →
       grid_get pv r c =
         Some (if decide (cell = HIT) then HIT
               else if decide (cell = MISS) then MISS else EMPTY)) ∧
    (∀ r c, inb (board_size b) r c → grid_get pv r c ≠ Some SHIP) ∧
    (∀ r c, inb (board_size b) r c →
       ∃ v, grid_get kv r c = Some v ∧
            grid_get pv r c = Some (if decide (v = UNKNOWN) then EMPTY else v)).
Proof.
  intros Hwf.
  destruct (get_public_view_cells b Hwf) as (pv & Hpv & Hwfp & Hgetp).
  destruct (get_ai_knowledge_spec b Hwf) as (kv & Hkv & Hwfk & Hgetk).
  exists pv, kv. split_and!; try done.
  - intros r c cell Hrc Hcell. rewrite Hgetp, Hcell by done. simpl. unfold public.
    repeat case_bool_decide; repeat case_decide; done.
  - intros r c Hrc. rewrite Hgetp by done.
    destruct (grid_get_is_Some _ _ r c Hwf Hrc) as [x ->]. simpl. unfold public.
    repeat case_bool_decide; done.
  - intros r c Hrc. rewrite Hgetp, Hgetk by done.
    destruct (grid_get_is_Some _ _ r c Hwf Hrc) as [x ->]. simpl.
    eexists. split; [done|]. unfold public, visible.
    repeat case_bool_decide; repeat case_decide; done.
Qed.

(** [is_valid_shot] never raises, and accepts exactly the in-bounds cells
    that the knowledge view shows as Unknown. *)
Theorem valid_shot_iff_unknown (b : Board) (r c : Z) :
  wf_grid (board_size b) (board_grid b) →
  ∃ view valid, get_ai_knowledge b = Some view ∧ is_valid_shot b r c = Some valid ∧
    (valid = true ↔ inb (board_size b) r c ∧ grid_get view r c = Some UNKNOWN).
Proof.
  intros Hwf. destruct (get_ai_knowledge_spec b Hwf) as (view & Hview & _ & Hget).
  exists view. unfold is_valid_shot. destruct (in_bounds b r c) eqn:Hin.
  - apply in_bounds_inb in Hin. rewrite Hget by done.
    destruct (grid_get_is_Some _ _ r c Hwf Hin) as [cell ->]. simpl.
    eexists. split; [done|]. split; [done|]. unfold visible.
    rewrite negb_true_iff, bool_decide_eq_false. split.
    + intros Hno. split; [done|]. repeat case_bool_decide; try done; tauto.
    + intros [_ Hvis] [Hc|Hc]; repeat case_bool_decide; done.
  - exists false. split; [done|]. split; [done|]. split; [done|]. intros [Hinb _].
    apply in_bounds_inb in Hinb. congruence.
Qed.

(** A shot that [is_valid_shot] accepts reveals exactly its own cell: the
    knowledge view after it differs from the one before at that cell only,
    which turns from Unknown into [HIT] or [MISS] as the report says. *)
Theorem receive_shot_reveals_one_cell (b b' : Board) (r c : Z) (rep : ShotReport)
    (kv : list (list Z)) :
  wf_grid (board_size b) (board_grid b) →
  is_valid_shot b r c = Some true → receive_shot b r c = Some (rep, b') →
  get_ai_knowledge b = Some kv →
  grid_get kv r c = Some UNKNOWN ∧
  ∃ kv', get_ai_knowledge b' = Some kv' ∧ wf_grid (board_size b) kv' ∧
    ∀ r' c', inb (board_size b) r' c' →
      grid_get kv' r' c' =
        if decide ((r', c') = (r, c)) then Some (if hit rep then HIT else MISS)
        else grid_get kv r' c'.
Proof.
  intros Hwf Hvalid Hshot Hkv.
  destruct (receive_shot_cases b r c Hwf)
    as (valid & rep2 & b2 & Hv & Hshot2 & Hsize & _ & Hwf' & _ & _ & _ & Hyes).
  assert (valid = true) as -> by congruence. assert (b2 = b') as -> by congruence.
  assert (rep2 = rep) as -> by congruence.
  destruct (Hyes eq_refl) as (cell & Hcell & Hnh & Hnm & Hhit & Hget & _).
  destruct (get_ai_knowledge_spec b Hwf) as (kv0 & Hkv0 & _ & Hgetk).
  assert (kv0 = kv) as -> by congruence.
  assert (Hrc : inb (board_size b) r c).
  { unfold is_valid_shot in Hvalid. destruct (in_bounds b r c) eqn:Hin; [|done].
    by apply in_bounds_inb. }
  split.
  { rewrite Hgetk, Hcell by done. simpl. unfold visible.
    by rewrite !bool_decide_eq_false_2. }
  rewrite <- Hsize in Hwf'.
  destruct (get_ai_knowledge_spec b' Hwf') as (kv' & Hkv' & Hwfk' & Hgetk').
  rewrite Hsize in *. exists kv'. split; [done|]. split; [done|].
  intros r' c' Hrc'. rewrite Hgetk', Hget by done.
  destruct (decide ((r', c') = (r, c))); [|by rewrite Hgetk].
  simpl. rewrite Hhit. unfold visible.
  destruct (decide (cell = SHIP)); repeat case_bool_decide; done.
Qed.

(** * Further properties of the targeting engine *)

(** ** Hit clusters are the connected components of the Hit cells *)

Lemma adjacent_sym (a b : Z * Z) : adjacent a b → adjacent b a.
Proof.
  intros (d & Hd & ->). exists (- d.1, - d.2). split.
  - unfold DIRS in *. repeat (apply elem_of_cons in Hd as [->|Hd]); simpl;
      [set_solver..|by apply elem_of_nil in Hd].
  - destruct a as [r c]. simpl. f_equal; lia.
Qed.

Lemma step_in_mono (X Y : gset (Z * Z)) (a b : Z * Z) :
  X ⊆ Y → rtc (step_in X) a b → rtc (step_in Y) a b.
Proof.
  intros Hsub. apply rtc_subrel. intros x y (Hx & Hy & Hadj).
  split; [by apply Hsub|]. split; [by apply Hsub|done].
Qed.

Lemma step_in_sym (X : gset (Z * Z)) (a b : Z * Z) :
  rtc (step_in X) a b → rtc (step_in X) b a.
Proof.
  induction 1 as [|x y z (Hx & Hy & Hadj) _ IH]; [done|].
  eapply rtc_r; [exact IH|]. split; [done|]. split; [done|]. by apply adjacent_sym.
Qed.

Lemma dfs_neighbor_marks (n : Z) (k : list (list Z)) (rr cc : Z) (d : Z * Z)
    (visited : list (list bool)) (stack : list (Z * Z)) :
  wf_grid n k → wf_grid n visited →
  ∃ visited' stack',
    dfs_neighbor n k rr cc d (visited, stack) = Some (visited', stack') ∧
    wf_grid n visited' ∧
    (∀ r c, inb n r c → grid_get visited r c = Some true →
       grid_get visited' r c = Some true) ∧
    (hit_cell n k (rr + d.1, cc + d.2) →
       grid_get visited' (rr + d.1) (cc + d.2) = Some true) ∧
    (∀ rc, rc ∈ stack' → rc ∈ stack ∨ rc = (rr + d.1, cc + d.2)).
Proof.
  intros Hk Hwf. unfold dfs_neighbor.
  destruct (bool_decide (0 ≤ rr + d.1 < n) && bool_decide (0 ≤ cc + d.2 < n)) eqn:Hb.
  2:{ exists visited, stack. split_and!; try done; [|by left].
      intros [[Hr Hc] _]. simpl in *.
      rewrite andb_false_iff, !bool_decide_eq_false in Hb. tauto. }
  apply andb_true_iff in Hb as [Hr Hc]. apply bool_decide_eq_true in Hr, Hc.
  assert (Hin : inb n (rr + d.1) (cc + d.2)) by done.
  destruct (grid_get_is_Some _ _ _ _ Hwf Hin) as [v Hv]. rewrite Hv. simpl.
  destruct v; simpl.
  { exists visited, stack. split_and!; try done. by left. }
  destruct (grid_get_is_Some _ _ _ _ Hk Hin) as [cell Hcell]. rewrite Hcell. simpl.
  case_bool_decide as Hhit.
  2:{ exists visited, stack. split_and!; try done; [|by left].
      intros [_ Hh]. simpl in Hh. congruence. }
  destruct (grid_set_spec _ _ _ _ true Hwf Hin) as (visited' & Hset & Hwf' & Hget').
  rewrite Hset. simpl. exists visited', ((rr + d.1, cc + d.2) :: stack).
  split_and!; try done.
  - intros r c Hrc Ht. rewrite Hget' by done. by case_decide.
  - intros _. rewrite Hget' by done. by rewrite decide_True.
  - intros rc Hrc. apply elem_of_cons in Hrc as [->|Hrc]; [by right|by left].
Qed.

Lemma dfs_neighbors_marks (n : Z) (k : list (list Z)) (rr cc : Z) (ds : list (Z * Z)) :
  wf_grid n k →
  ∀ (visited : list (list bool)) (stack : list (Z * Z)), wf_grid n visited →
  ∃ st, for_each ds (dfs_neighbor n k rr cc) (visited, stack) = Some st ∧
    wf_grid n st.1 ∧
    (∀ r c, inb n r c → grid_get visited r c = Some true → grid_get st.1 r c = Some true) ∧
    (∀ d, d ∈ ds → hit_cell n k (rr + d.1, cc + d.2) →
       grid_get st.1 (rr + d.1) (cc + d.2) = Some true) ∧
    (∀ rc, rc ∈ st.2 → rc ∈ stack ∨ ∃ d, d ∈ ds ∧ rc = (rr + d.1, cc + d.2)).
Proof.
  intros Hk. induction ds as [|d ds IH]; intros visited stack Hwf.
  - exists (visited, stack). simpl. split_and!; try done.
    + intros d Hd. by apply elem_of_nil in Hd.
    + intros rc Hrc. by left.
  - destruct (dfs_neighbor_marks n k rr cc d visited stack Hk Hwf)
      as (v1 & s1 & Hstep & Hwf1 & Hmono1 & Hmark1 & Hst1).
    destruct (IH v1 s1 Hwf1) as (st & Hrun & Hwf2 & Hmono2 & Hmark2 & Hst2).
    exists st. cbn [for_each]. rewrite Hstep. cbn [mbind option_bind]. split; [done|].
    split; [done|]. split; [|split].
    + intros r c Hrc Ht. apply Hmono2; [done|]. by apply Hmono1.
    + intros d' Hd' Hhit. apply elem_of_cons in Hd' as [->|Hd']; [|by apply Hmark2].
      destruct Hhit as [Hin Hh]. apply Hmono2; [done|]. by apply Hmark1.
    + intros rc Hrc. destruct (Hst2 rc Hrc) as [Hs1|(d' & Hd' & ->)].
      * destruct (Hst1 rc Hs1) as [?| ->]; [by left|]. right. exists d. split; [left|done].
      * right. exists d'. split; [by right|done].
Qed.

Lemma dfs_loop_ext (n : Z) (k : list (list Z)) (seen0 : gset (Z * Z)) (root : Z * Z) :
  wf_grid n k →
  ∀ fuel visited stack comp res,
    dfs_inv n k seen0 visited stack comp → dfs_ext n k root visited stack comp →
    dfs_loop fuel n k visited stack comp = Some res →
    dfs_ext n k root res.1 [] res.2.
Proof.
  intros Hk. induction fuel as [|fuel IH]; intros visited stack comp res Hinv Hext Hrun.
  - destruct stack as [|[rr cc] stack]; [|done]. simpl in Hrun. by injection Hrun as <-.
  - destruct stack as [|[rr cc] stack].
    { simpl in Hrun. by injection Hrun as <-. }
    assert (Hpop : dfs_inv n k seen0 visited stack ({[(rr, cc)]} ∪ comp)).
    { destruct Hinv as (Hwf & Hcells & Hvis). split; [done|]. split.
      - intros rc Hrc. apply Hcells. rewrite elem_of_cons. set_solver.
      - intros rc Hrc. rewrite (Hvis rc Hrc), elem_of_cons. set_solver. }
    destruct (dfs_neighbors_spec n k seen0 rr cc visited stack _ Hk Hpop)
      as ([v s] & Hloop & Hinv' & _ & Hsub).
    destruct (dfs_neighbors_marks n k rr cc DIRS Hk visited stack (proj1 Hinv))
      as (st & Hloop2 & _ & Hmono & Hmark & Hnew).
    assert (st = (v, s)) as -> by congruence. cbn [fst snd] in *.
    cbn [dfs_loop] in Hrun. rewrite Hloop in Hrun. cbn [mbind option_bind fst snd] in Hrun.
    apply (IH v s ({[(rr, cc)]} ∪ comp) res Hinv'); [|done].
    destruct Hext as [Hclo Hcon]. destruct Hinv as (_ & Hcells & _). split.
    + intros a b Ha Hadj Hb. apply elem_of_union in Ha as [Ha|Ha].
      * apply elem_of_singleton in Ha as ->. destruct Hadj as (d & Hd & ->).
        cbn [fst snd] in *. by apply Hmark.
      * apply Hmono; [by destruct Hb|]. by eapply Hclo.
    + assert (Hroot : rtc (step_in ({[(rr, cc)]} ∪ comp ∪ list_to_set s)) root (rr, cc)).
      { eapply step_in_mono; [|apply Hcon; left; left].
        intros x Hx. apply elem_of_union in Hx as [Hx|Hx]; [set_solver|].
        apply elem_of_list_to_set, elem_of_cons in Hx as [->|Hx]; [set_solver|].
        apply elem_of_union_r, elem_of_list_to_set. by apply Hsub. }
      intros a Ha.
      assert (a ∈ (rr, cc) :: stack ∨ a ∈ comp ∨
              (a ∈ s ∧ adjacent (rr, cc) a)) as [Hold|[Hold|[Hs Hadj]]].
      { destruct Ha as [Ha|Ha].
        - destruct (Hnew a Ha) as [?|(d & Hd & ->)]; [left; by right|].
          right. right. split; [done|]. by exists d.
        - apply elem_of_union in Ha as [Ha|Ha]; [|by right; left].
          apply elem_of_singleton in Ha as ->. left. left. }
      * eapply step_in_mono; [|apply Hcon; by left].
        intros x Hx. apply elem_of_union in Hx as [Hx|Hx]; [set_solver|].
        apply elem_of_list_to_set, elem_of_cons in Hx as [->|Hx]; [set_solver|].
        apply elem_of_union_r, elem_of_list_to_set. by apply Hsub.
      * eapply step_in_mono; [|apply Hcon; by right].
        intros x Hx. apply elem_of_union in Hx as [Hx|Hx]; [set_solver|].
        apply elem_of_list_to_set, elem_of_cons in Hx as [->|Hx]; [set_solver|].
        apply elem_of_union_r, elem_of_list_to_set. by apply Hsub.
      * eapply rtc_r; [exact Hroot|]. split; [set_solver|]. split; [|done].
        apply elem_of_union_r, elem_of_list_to_set. done.
Qed.

Lemma for_each_inv_marks {A S} (I : S → Prop) (P : A → S → Prop) (xs : list A)
    (body : A → S → option S) :
  (∀ x t, x ∈ xs → I t →
     ∃ t', body x t = Some t' ∧ I t' ∧ P x t' ∧ ∀ y, P y t → P y t') →
  ∀ s, I s →
    ∃ s', for_each xs body s = Some s' ∧ I s' ∧ (∀ y, P y s → P y s') ∧
      ∀ x, x ∈ xs → P x s'.
Proof.
  induction xs as [|x xs IH]; intros Hbody s Hs.
  - exists s. split_and!; try done. intros x Hx. by apply elem_of_nil in Hx.
  - destruct (Hbody x s) as (t & Hstep & Ht & Hx & Hkeep); [left|done|].
    destruct (IH (λ y u Hy, Hbody y u (list_elem_of_further _ _ _ Hy)) t Ht)
      as (s' & Hrun & Hs' & Hkeep' & Hall).
    exists s'. cbn [for_each]. rewrite Hstep. cbn [mbind option_bind].
    split_and!; try done.
    + intros y Hy. by apply Hkeep', Hkeep.
    + intros y Hy. apply elem_of_cons in Hy as [->|Hy]; [by apply Hkeep'|by apply Hall].
Qed.

Lemma hit_clusters_cell_components (n : Z) (k : list (list Z)) (r c : Z)
    (st : list (list bool) * list cluster) :
  wf_grid n k → inb n r c → scan_inv n k st →
  ∃ st', hit_clusters_cell n k r c st = Some st' ∧ scan_inv n k st' ∧
    scanned n k (r, c) st' ∧ ∀ y, scanned n k y st → scanned n k y st'.
Proof.
  intros Hk Hrc [Hinv Hcomp]. destruct st as [visited clusters]. cbn [fst snd] in *.
  destruct (hit_clusters_cell_spec n k r c visited clusters Hk Hrc Hinv)
    as (st' & Hrun & Hinv').
  exists st'. split; [done|]. destruct Hinv as (Hwf & Hvis & Hall & Hdisj).
  unfold hit_clusters_cell in Hrun.
  destruct (grid_get_is_Some _ _ _ _ Hk Hrc) as [cell Hcell].
  rewrite Hcell in Hrun. cbn [mbind option_bind] in Hrun.
  case_bool_decide as Hhit.
  2:{ injection Hrun as <-. split; [by split|]. split; [|done].
      intros [_ Hh]. cbn [fst snd] in Hh. congruence. }
  subst cell. destruct (grid_get_is_Some _ _ _ _ Hwf Hrc) as [v Hv].
  rewrite Hv in Hrun. cbn [mbind option_bind] in Hrun. destruct v; cbn [negb] in Hrun.
  { injection Hrun as <-. split; [by split|]. split; [|done]. by intros _. }
  destruct (grid_set_spec _ _ _ _ true Hwf Hrc) as (visited1 & Hset & Hwf1 & Hget1).
  rewrite Hset in Hrun. cbn [mbind option_bind] in Hrun.
  set (seen0 := ⋃ (fst <$> clusters) : gset (Z * Z)).
  assert (Hseen0 : ∀ rc, rc ∈ seen0 ↔ ∃ cl, cl ∈ clusters ∧ rc ∈ cl.1).
  { intros rc. unfold seen0. rewrite elem_of_union_list. split.
    - intros (X & HX & Hin). apply list_elem_of_fmap in HX as (cl & -> & Hcl). eauto.
    - intros (cl & Hcl & Hin). exists cl.1. split; [|done].
      apply list_elem_of_fmap. eauto. }
  assert (Hstart : dfs_inv n k seen0 visited1 [(r, c)] ∅).
  { split; [done|]. split.
    - intros rc [Hin|Hin]; [|set_solver]. apply list_elem_of_singleton in Hin as ->.
      simpl. split; [done|]. split; [done|]. rewrite Hseen0. intros Hex.
      apply (Hvis (r, c) Hrc) in Hex. simpl in Hex. congruence.
    - intros [r' c'] Hrc'. simpl in *. rewrite Hget1 by done.
      rewrite list_elem_of_singleton, Hseen0, <- (Hvis (r', c') Hrc'). simpl.
      destruct (decide ((r', c') = (r, c))) as [Heq|Hne].
      + split; [intros _|done]. right. by right.
      + split; [tauto|]. intros [?|[?|?]]; [done|set_solver|done]. }
  assert (Hstart' : dfs_ext n k (r, c) visited1 [(r, c)] ∅).
  { split; [set_solver|]. intros a [Ha|Ha]; [|set_solver].
    apply list_elem_of_singleton in Ha as ->. apply rtc_refl. }
  destruct (dfs_loop_spec n k seen0 Hk (Z.to_nat (n * n)) visited1 [(r, c)] ∅ Hstart)
    as ([visited2 comp] & Hdfs & (Hwf2 & Hcells2 & Hvis2) & _ & Hroot).
  { pose proof (unvisited_mark n visited visited1 r c Hrc Hv Hget1).
    pose proof (unvisited_le n visited). simpl. lia. }
  pose proof (dfs_loop_ext n k seen0 (r, c) Hk _ _ _ _ _ Hstart Hstart' Hdfs) as [Hclo Hcon].
  rewrite Hdfs in Hrun. cbn [mbind option_bind fst snd] in *. injection Hrun as <-.
  assert (Hrootin : (r, c) ∈ comp) by (apply Hroot; apply list_elem_of_singleton; done).
  rewrite Forall_forall in Hcomp.
  split; [split; [done|]|split].
  - cbn [snd]. apply Forall_app. split; [by apply Forall_forall|].
    apply Forall_singleton. cbn [fst]. split; [set_solver|]. split; [|split].
    + intros rc Hmem. destruct (Hcells2 rc) as (? & ? & _); [by right|done].
    + intros a b Ha Hadj Hb. pose proof Hb as [Hbin _].
      pose proof (Hclo a b Ha Hadj Hb) as Hmark. apply (Hvis2 b Hbin) in Hmark.
      destruct Hmark as [Hs|[?|Hn]]; [|done|by apply elem_of_nil in Hn].
      exfalso. apply Hseen0 in Hs as (cl & Hcl & Hmem).
      destruct (Hcomp cl Hcl) as (_ & _ & Hclosed & _).
      destruct (Hcells2 a) as (Hain & Hahit & Hanot); [by right|].
      apply Hanot, Hseen0. exists cl. split; [done|].
      apply (Hclosed b a); [done|by apply adjacent_sym|done].
    + assert (Hto : ∀ a, a ∈ comp → rtc (step_in comp) (r, c) a).
      { intros a Ha. eapply step_in_mono; [|apply Hcon; by right]. set_solver. }
      intros a b Ha Hb. etransitivity; [apply step_in_sym|]; by apply Hto.
  - intros _. cbn [fst snd]. apply (Hvis2 (r, c) Hrc). right. by left.
  - intros y Hy Hhit. cbn [fst snd] in *. pose proof Hhit as [Hyin _].
    apply (Hvis2 y Hyin). left. apply Hseen0. apply (Hvis y Hyin). by apply Hy.
Qed.

(** [_hit_clusters] returns the 4-connected components of the Hit cells:
    every cluster is a non-empty set of Hit cells that is connected and that
    no further Hit cell touches, every Hit cell lies in a cluster, no cell
    lies in two, and each cluster carries the orientation inferred from its
    cells. *)
Theorem hit_clusters_components (ai : BattleshipAI) (k : list (list Z)) :
  let n := ai_size ai in
  wf_grid n k →
  ∃ clusters, hit_clusters ai k = Some clusters ∧
    Forall (λ cl : cluster, component n k cl.1 ∧ cl.2 = infer_orientation cl.1) clusters ∧
    (∀ rc, hit_cell n k rc → ∃ cl, cl ∈ clusters ∧ rc ∈ cl.1) ∧
    (∀ i j (ci cj : cluster) rc, clusters !! i = Some ci → clusters !! j = Some cj →
       rc ∈ ci.1 → rc ∈ cj.1 → i = j).
Proof.
  intros n Hk. unfold hit_clusters. fold n. rewrite for_each_nested.
  destruct (for_each_inv_marks (scan_inv n k) (scanned n k) (all_cells n)
              (λ rc, hit_clusters_cell n k rc.1 rc.2)) with (s := (make_grid n false, @nil cluster))
    as ([visited clusters] & Hrun & [Hinv Hcomp] & _ & Hscanned).
  - intros [r c] st Hrc Hst. apply elem_of_all_cells in Hrc.
    by apply hit_clusters_cell_components.
  - split; [|constructor]. simpl. split; [apply wf_grid_make; by destruct Hk|].
    split; [|split].
    + intros rc Hrc. rewrite grid_get_make by done. split; [done|].
      intros (cl & Hcl & _). by apply elem_of_nil in Hcl.
    + constructor.
    + intros i j ci cj rc Hi. done.
  - exists clusters. rewrite Hrun. cbn [mbind option_bind fst snd] in *.
    destruct Hinv as (Hwf & Hvis & Hall & Hdisj). split; [done|]. split; [|split; [|done]].
    + rewrite Forall_forall in Hcomp. rewrite Forall_forall in Hall.
      apply Forall_forall. intros cl Hcl. split; [by apply Hcomp|]. by apply Hall.
    + intros [r c] Hhit. pose proof Hhit as [Hin _]. apply (Hvis (r, c) Hin).
      apply (Hscanned (r, c)); [|done]. by apply elem_of_all_cells.
Qed.

(** ** The heat map *)

Lemma try_placement_cold (ai : BattleshipAI) (k : list (list Z)) (clusters : list cluster)
    (length : Z) (horizontal : bool) (r c : Z) (heat : list (list Z)) :
  wf_grid (ai_size ai) k → cold (ai_size ai) k heat →
  ∃ heat', try_placement ai k clusters length horizontal r c heat = Some heat' ∧
    cold (ai_size ai) k heat'.
Proof.
  intros Hk [Hwf Hzero].
  destruct (try_placement_spec ai k clusters length horizontal r c heat Hk Hwf)
    as (heat' & Hrun & Hwf' & Hget).
  exists heat'. split; [done|]. split; [done|]. intros r' c' Hrc' Hmiss.
  rewrite Hget by done. rewrite (Hzero r' c' Hrc' Hmiss).
  destruct (bool_decide (clear_of_misses _ k _)) eqn:Hclear; [|done].
  apply bool_decide_eq_true in Hclear. unfold clear_of_misses in Hclear.
  rewrite Forall_forall in Hclear.
  case_bool_decide as Hmem; [|by rewrite andb_false_r].
  destruct (Hclear _ Hmem) as [_ Hnot]. done.
Qed.

Lemma heat_ship_cold (ai : BattleshipAI) (k : list (list Z)) (clusters : list cluster)
    (length : Z) (heat : list (list Z)) :
  wf_grid (ai_size ai) k → cold (ai_size ai) k heat →
  ∃ heat', heat_ship ai k clusters length heat = Some heat' ∧ cold (ai_size ai) k heat'.
Proof.
  intros Hk Hheat. unfold heat_ship.
  destruct (for_each_inv (cold (ai_size ai) k) (range (ai_size ai))
              (λ r, for_each (range (ai_size ai - length + 1))
                      (λ c, try_placement ai k clusters length true r c)) heat)
    as (heat1 & Hrun1 & Hok1); [|done|].
  { intros r h _ Hh. apply for_each_inv; [|done].
    intros c h' _ Hh'. by apply try_placement_cold. }
  rewrite Hrun1. simpl. apply for_each_inv; [|done].
  intros r h _ Hh. apply for_each_inv; [|done].
  intros c h' _ Hh'. by apply try_placement_cold.
Qed.

Lemma boost_neighbor_cold (n : Z) (k : list (list Z)) (r c : Z) (d : Z * Z)
    (heat : list (list Z)) :
  wf_grid n k → cold n k heat →
  ∃ heat', boost_neighbor n k r c d heat = Some heat' ∧ cold n k heat'.
Proof.
  intros Hk [Hwf Hzero]. unfold boost_neighbor.
  destruct (bool_decide (0 ≤ r + d.1 < n) && bool_decide (0 ≤ c + d.2 < n)) eqn:Hb;
    [|by exists heat].
  apply andb_true_iff in Hb as [Hr Hc]. apply bool_decide_eq_true in Hr, Hc.
  assert (Hin : inb n (r + d.1) (c + d.2)) by done.
  destruct (grid_get_is_Some _ _ _ _ Hk Hin) as [cell Hcell]. rewrite Hcell. simpl.
  case_bool_decide as Hunk; [|by exists heat]. subst cell.
  destruct (grid_add_spec n heat _ _ 3 Hwf Hin) as (heat' & Hadd & Hwf' & Hget).
  exists heat'. split; [done|]. split; [done|]. intros r' c' Hrc' Hmiss.
  unfold cell_at at 1. rewrite Hget by done.
  destruct (decide ((r', c') = (r + d.1, c + d.2))) as [Heq|Hne].
  - injection Heq as -> ->. rewrite Hcell in Hmiss. done.
  - by apply Hzero.
Qed.

Lemma boost_cell_cold (n : Z) (k : list (list Z)) (r c : Z) (heat : list (list Z)) :
  wf_grid n k → inb n r c → cold n k heat →
  ∃ heat', boost_cell n k r c heat = Some heat' ∧ cold n k heat'.
Proof.
  intros Hk Hrc Hh. unfold boost_cell.
  destruct (grid_get_is_Some _ _ _ _ Hk Hrc) as [cell ->]. simpl.
  destruct (bool_decide (cell = HIT)); [|by exists heat].
  refine (for_each_inv (cold n k) DIRS (boost_neighbor n k r c) heat _ Hh).
  intros d h _ Hh'. by apply boost_neighbor_cold.
Qed.

Lemma heatmap_unpruned_cold (ai : BattleshipAI) (k : list (list Z)) (ships : list Z) :
  wf_grid (ai_size ai) k →
  ∃ heat, heatmap_unpruned ai k ships = Some heat ∧ cold (ai_size ai) k heat.
Proof.
  intros Hk. unfold heatmap_unpruned, heatmap_base.
  destruct (hit_clusters_spec ai k Hk) as (clusters & visited & -> & _).
  cbn [mbind option_bind].
  destruct (for_each_inv (cold (ai_size ai) k) ships (heat_ship ai k clusters)
              (make_grid (ai_size ai) 0)) as (heat & -> & Hcold).
  { intros length h _ Hh. by apply heat_ship_cold. }
  { split; [apply wf_grid_make; by destruct Hk|]. intros r c Hrc _.
    unfold cell_at. by rewrite grid_get_make. }
  cbn [mbind option_bind].
  apply for_each_cells_inv; [|done]. intros r c h Hrc Hh. by apply boost_cell_cold.
Qed.

(** [heatmap] never raises on a size-by-size knowledge grid and returns a
    size-by-size grid of non-negative counts that is zero on every known
    Miss. *)
Theorem heatmap_zero_on_misses (ai : BattleshipAI) (k : list (list Z))
    (ships_arg : option (list Z)) :
  let n := ai_size ai in
  wf_grid n k →
  ∃ heat, heatmap ai k ships_arg = Some heat ∧ wf_grid n heat ∧
    (∀ r c, inb n r c → 0 ≤ cell_at heat r c) ∧
    (∀ r c, inb n r c → grid_get k r c = Some MISS → cell_at heat r c = 0).
Proof.
  intros n Hk. destruct (heatmap_ok ai k ships_arg Hk) as (heat & Hrun & Hwf & Hpos).
  exists heat. split; [done|]. split; [done|]. split; [done|].
  unfold heatmap in Hrun.
  destruct (heatmap_unpruned_cold ai k (py_or ships_arg (remaining_ships ai)) Hk)
    as (heat0 & Hrun0 & Hwf0 & Hzero).
  rewrite Hrun0 in Hrun. cbn [mbind option_bind] in Hrun.
  destruct (any_hit k (all_cells (ai_size ai))) as [seen|]; [|done].
  cbn [mbind option_bind] in Hrun.
  destruct (negb seen && _); [|by injection Hrun as <-].
  destruct (py_min _) as [m|]; [|done]. cbn [mbind option_bind] in Hrun.
  destruct (bool_decide (2 ≤ m)); [|by injection Hrun as <-].
  destruct (prune_spec (ai_size ai) heat0 Hwf0) as (heat' & Hrun' & _ & Hget).
  assert (heat' = heat) as -> by congruence.
  intros r c Hrc Hmiss. rewrite Hget by done. rewrite (Hzero r c Hrc Hmiss).
  by destruct (bool_decide _).
Qed.

Lemma warm_mono (n : Z) (k : list (list Z)) (rc : Z * Z) (h h' : list (list Z)) :
  heat_le n h h' → warm n k rc h → warm n k rc h'.
Proof. intros Hle Hw Hin Hunk. specialize (Hle _ _ Hin). specialize (Hw Hin Hunk). lia. Qed.

Lemma boosted_mono (n : Z) (k : list (list Z)) (rc : Z * Z) (h h' : list (list Z)) :
  heat_le n h h' → boosted n k rc h → boosted n k rc h'.
Proof. intros Hle Hb Hhit d Hd. eapply warm_mono; [done|]. by apply Hb. Qed.

Lemma boost_neighbor_warm (n : Z) (k : list (list Z)) (r c : Z) (d : Z * Z)
    (heat : list (list Z)) :
  wf_grid n k → heat_ok n heat →
  ∃ heat', boost_neighbor n k r c d heat = Some heat' ∧ heat_ok n heat' ∧
    heat_le n heat heat' ∧ warm n k (r + d.1, c + d.2) heat'.
Proof.
  intros Hk Hh. pose proof Hh as [Hwf Hpos].
  destruct (boost_neighbor_ok n k r c d heat Hk Hh) as (heat' & Hrun & Hok').
  exists heat'. split; [done|]. split; [done|]. unfold boost_neighbor in Hrun.
  destruct (bool_decide (0 ≤ r + d.1 < n) && bool_decide (0 ≤ c + d.2 < n)) eqn:Hb.
  2:{ injection Hrun as <-. split; [by intros ???|]. intros [Hr Hc] _. cbn [fst snd] in *.
      rewrite andb_false_iff, !bool_decide_eq_false in Hb. tauto. }
  apply andb_true_iff in Hb as [Hr Hc]. apply bool_decide_eq_true in Hr, Hc.
  assert (Hin : inb n (r + d.1) (c + d.2)) by done.
  destruct (grid_get_is_Some _ _ _ _ Hk Hin) as [cell Hcell].
  rewrite Hcell in Hrun. cbn [mbind option_bind] in Hrun.
  case_bool_decide as Hunk.
  2:{ injection Hrun as <-. split; [by intros ???|]. intros _ Hu. cbn [fst snd] in Hu.
      rewrite Hcell in Hu. by injection Hu. }
  destruct (grid_add_spec n heat _ _ 3 Hwf Hin) as (heat2 & Hadd & Hwf' & Hget).
  assert (heat2 = heat') as -> by congruence.
  assert (Hval : ∀ r' c', inb n r' c' →
            cell_at heat' r' c' =
              cell_at heat r' c' + if decide ((r', c') = (r + d.1, c + d.2)) then 3 else 0).
  { intros r' c' Hrc'. unfold cell_at at 1. rewrite Hget by done.
    case_decide as Heq.
    - injection Heq as -> ->. by rewrite (cell_at_get n heat).
    - fold (cell_at heat r' c'). lia. }
  split.
  - intros r' c' Hrc'. rewrite Hval by done. case_decide; lia.
  - intros _ _. cbn [fst snd]. rewrite Hval by done. rewrite decide_True by done.
    specialize (Hpos _ _ Hin). lia.
Qed.

Lemma boost_cell_warm (n : Z) (k : list (list Z)) (r c : Z) (heat : list (list Z)) :
  wf_grid n k → inb n r c → heat_ok n heat →
  ∃ heat', boost_cell n k r c heat = Some heat' ∧ heat_ok n heat' ∧
    heat_le n heat heat' ∧ boosted n k (r, c) heat'.
Proof.
  intros Hk Hrc Hh. unfold boost_cell, boosted. cbn [fst snd].
  destruct (grid_get_is_Some _ _ _ _ Hk Hrc) as [cell ->]. cbn [mbind option_bind].
  case_bool_decide as Hhit.
  2:{ exists heat. split; [done|]. split; [done|]. split; [by intros ???|].
      intros Heq. by injection Heq. }
  destruct (for_each_inv_marks (λ h, heat_ok n h ∧ heat_le n heat h)
              (λ d h, warm n k (r + d.1, c + d.2) h) DIRS (boost_neighbor n k r c))
    with (s := heat) as (heat' & Hrun & [Hok' Hle'] & _ & Hall).
  - intros d h _ [Hok Hle].
    destruct (boost_neighbor_warm n k r c d h Hk Hok) as (h' & Hstep & Hok' & Hle' & Hw).
    exists h'. split; [done|]. split; [|split; [done|]].
    + split; [done|]. intros r' c' Hrc'. specialize (Hle _ _ Hrc').
      specialize (Hle' _ _ Hrc'). lia.
    + intros y Hy. by eapply warm_mono.
  - split; [done|]. by intros ???.
  - exists heat'. split; [done|]. split; [done|]. split; [done|]. intros _ d Hd.
    by apply Hall.
Qed.

(** With a Hit on the grid, every Unknown cell next to a Hit ends with heat
    at least 3: the adjacency boost reaches it and parity pruning is off. *)
Theorem heatmap_boosts_hit_neighbours (ai : BattleshipAI) (k : list (list Z))
    (ships_arg : option (list Z)) (a b : Z * Z) :
  let n := ai_size ai in
  wf_grid n k → hit_cell n k a → adjacent a b →
  inb n b.1 b.2 → grid_get k b.1 b.2 = Some UNKNOWN →
  ∃ heat, heatmap ai k ships_arg = Some heat ∧ 3 ≤ cell_at heat b.1 b.2.
Proof.
  intros n Hk [Ha Hhit] (d & Hd & ->) Hb Hunk. unfold heatmap, heatmap_unpruned.
  destruct (heatmap_base_ok ai k (py_or ships_arg (remaining_ships ai)) Hk)
    as (heat0 & -> & Hok0). cbn [mbind option_bind]. rewrite for_each_nested.
  destruct (for_each_inv_marks (heat_ok n) (boosted n k) (all_cells n)
              (λ rc, boost_cell n k rc.1 rc.2)) with (s := heat0)
    as (heat & Hrun & Hok & _ & Hall).
  - intros [r c] h Hrc Hh. apply elem_of_all_cells in Hrc.
    destruct (boost_cell_warm n k r c h Hk Hrc Hh) as (h' & Hstep & Hok' & Hle & Hb').
    exists h'. split; [done|]. split; [done|]. split; [done|].
    intros y Hy. by eapply boosted_mono.
  - done.
  - fold n. rewrite Hrun. cbn [mbind option_bind].
    rewrite (any_hit_spec n); [|done|].
    2:{ apply Forall_forall. intros rc. by rewrite elem_of_all_cells. }
    rewrite (bool_decide_eq_true_2 (Exists _ _)).
    2:{ apply Exists_exists. exists a. split; [|done].
        destruct a. by apply elem_of_all_cells. }
    cbn [mbind option_bind negb andb]. exists heat. split; [done|].
    apply (Hall a); [destruct a; by apply elem_of_all_cells|done..].
Qed.

(** ** Bookkeeping of the remaining ships *)

Lemma list_remove_first_spec (x : Z) (l : list Z) :
  x ∈ l → ∃ l1 l2, l = l1 ++ x :: l2 ∧ (x ∉ l1) ∧ list_remove_first x l = l1 ++ l2.
Proof.
  induction l as [|y l IH]; intros Hin; [by apply elem_of_nil in Hin|].
  cbn [list_remove_first]. destruct (decide (y = x)) as [->|Hne].
  - exists [], l. split; [done|]. split; [apply not_elem_of_nil|done].
  - apply elem_of_cons in Hin as [Heq|Hin]; [congruence|].
    destruct (IH Hin) as (l1 & l2 & -> & Hnot & ->). exists (y :: l1), l2.
    split; [done|]. split; [|done]. rewrite not_elem_of_cons. split; [congruence|done].
Qed.

(** [notify_sunk] removes the first entry equal to the reported length and
    nothing else; a length that is not tracked leaves the engine as it was. *)
Theorem notify_sunk_spec (ai : BattleshipAI) (len : Z) :
  ai_size (notify_sunk ai len) = ai_size ai ∧
  (len ∉ remaining_ships ai → notify_sunk ai len = ai) ∧
  (len ∈ remaining_ships ai →
     ∃ l1 l2, remaining_ships ai = l1 ++ len :: l2 ∧ (len ∉ l1) ∧
       remaining_ships (notify_sunk ai len) = l1 ++ l2).
Proof.
  unfold notify_sunk. destruct (decide (len ∈ remaining_ships ai)) as [Hin|Hnot].
  - split; [done|]. split; [done|]. intros _. cbn [remaining_ships].
    by apply list_remove_first_spec.
  - split; [done|]. split; [done|]. done.
Qed.

(** ** Orientation of a cluster *)

Lemma size_set_map_1 (f : Z * Z → Z) (X : gset (Z * Z)) :
  size (set_map f X : gset Z) = 1%nat ↔ X ≠ ∅ ∧ ∀ a b, a ∈ X → b ∈ X → f a = f b.
Proof.
  split.
  - intros Hsize. apply size_1_elem_of in Hsize as [x Hx]. split.
    + intros ->. rewrite set_map_empty in Hx. set_solver.
    + intros a b Ha Hb.
      assert (f a ∈ (set_map f X : gset Z)) as Ha' by (apply elem_of_map; eauto).
      assert (f b ∈ (set_map f X : gset Z)) as Hb' by (apply elem_of_map; eauto).
      rewrite Hx in Ha', Hb'. apply elem_of_singleton in Ha', Hb'. congruence.
  - intros [Hne Hsame]. apply set_choose_L in Hne as [a Ha].
    assert ((set_map f X : gset Z) = {[f a]}) as ->; [|by rewrite size_singleton].
    apply set_eq. intros y. rewrite elem_of_map, elem_of_singleton. split.
    + intros (b & -> & Hb). by apply Hsame.
    + intros ->. eauto.
Qed.

Lemma size_ge_2_distinct (X : gset (Z * Z)) :
  (2 ≤ size X)%nat → X ≠ ∅ ∧ ∃ a b, a ∈ X ∧ b ∈ X ∧ a ≠ b.
Proof.
  intros Hsize. split; [intros ->; rewrite size_empty in Hsize; lia|].
  destruct (elements X) as [|a [|b l]] eqn:Hel.
  - apply elements_empty_inv in Hel. apply leibniz_equiv in Hel. subst.
    rewrite size_empty in Hsize. lia.
  - unfold size, set_size in Hsize. simpl in Hsize. rewrite Hel in Hsize.
    simpl in Hsize. lia.
  - pose proof (NoDup_elements X) as Hnd. rewrite Hel in Hnd.
    exists a, b. split; [|split].
    + apply elem_of_elements. rewrite Hel. left.
    + apply elem_of_elements. rewrite Hel. right. left.
    + intros ->. apply NoDup_cons in Hnd as [Hnot _]. apply Hnot. left.
Qed.

(** The orientation of a cluster of at least two cells is ['h'] exactly when
    its cells share a row and ['v'] exactly when they share a column; a
    single cell or a bent cluster has none.  The two cases cannot both
    apply, so the order of the tests does not matter. *)
Theorem infer_orientation_spec (comp : gset (Z * Z)) :
  let same_row := ∀ a b, a ∈ comp → b ∈ comp → a.1 = b.1 in
  let same_col := ∀ a b, a ∈ comp → b ∈ comp → a.2 = b.2 in
  (infer_orientation comp = Some OrH ↔ (2 ≤ size comp)%nat ∧ same_row) ∧
  (infer_orientation comp = Some OrV ↔ (2 ≤ size comp)%nat ∧ same_col) ∧
  (infer_orientation comp = None ↔
     (size comp < 2)%nat ∨ (¬ same_row ∧ ¬ same_col)).
Proof.
  intros same_row same_col. unfold infer_orientation.
  destruct (decide (2 ≤ size comp)%nat) as [Hsize|Hsize].
  2:{ split_and!; split; try done; try (intros [? _]; lia). intros _. left. lia. }
  destruct (size_ge_2_distinct comp Hsize) as (Hne & a & b & Ha & Hb & Hab).
  pose proof (size_set_map_1 fst comp) as Hrows.
  pose proof (size_set_map_1 snd comp) as Hcols.
  assert (Hexcl : same_row → same_col → False).
  { intros Hr Hc. apply Hab. destruct a, b. f_equal; [by apply (Hr _ _ Ha Hb)|].
    by apply (Hc _ _ Ha Hb). }
  destruct (decide (size (set_map fst comp : gset Z) = 1%nat)) as [H1|H1].
  { apply Hrows in H1 as [_ H1]. split_and!; split; try done.
    - intros [_ Hc]. exfalso. by apply Hexcl.
    - intros [?|[Hn _]]; [lia|]. by destruct Hn. }
  assert (¬ same_row) as Hnr by (intros Hr; apply H1, Hrows; done).
  destruct (decide (size (set_map snd comp : gset Z) = 1%nat)) as [H2|H2].
  { apply Hcols in H2 as [_ H2]. split_and!; split; try done.
    - by intros [_ ?].
    - intros [?|[_ Hn]]; [lia|]. by destruct Hn. }
  assert (¬ same_col) as Hnc by (intros Hc; apply H2, Hcols; done).
  split_and!; split; try done.
  - by intros [_ ?].
  - by intros [_ ?].
  - intros _. by right.
Qed.

(** ** Hunting and targeting *)

Lemma hit_clusters_none (ai : BattleshipAI) (k : list (list Z)) :
  wf_grid (ai_size ai) k →
  (∀ r c, inb (ai_size ai) r c → grid_get k r c ≠ Some HIT) →
  hit_clusters ai k = Some [].
Proof.
  intros Hk Hno. destruct (hit_clusters_spec ai k Hk) as (clusters & visited & Hrun & Hinv).
  rewrite Hrun. f_equal. destruct clusters as [|[comp o] rest]; [done|]. exfalso.
  destruct Hinv as (_ & _ & Hall & _). apply Forall_cons in Hall as [(Hne & _ & Hcells) _].
  cbn [fst] in *. apply set_choose_L in Hne as [[r c] Hrc].
  destruct (Hcells _ Hrc) as [Hin Hhit]. by apply (Hno r c).
Qed.

(** Hunt mode: without a Hit on the grid there are no clusters and no
    target candidates, so [choose_shot] takes its shot from the heat ranking. *)
Theorem target_candidates_hunt `{FloatOps F} (ai : BattleshipAI) (pk ps : list (list Z))
    (arg : option (list Z)) :
  let n := ai_size ai in
  wf_grid n pk → wf_grid n ps →
  (∀ r c, inb n r c → grid_get pk r c ≠ Some HIT) →
  hit_clusters ai pk = Some [] ∧ target_candidates ai pk = Some [] ∧
  ∃ heat cands rc,
    heatmap ai pk (Some (remaining_ships ai)) = Some heat ∧
    top_candidates ai heat pk 8 = Some cands ∧
    choose_shot (F:=F) ai pk ps arg = Some rc ∧ (cands ≠ [] → rc ∈ cands).
Proof.
  intros n Hpk Hps Hno. pose proof (hit_clusters_none ai pk Hpk Hno) as Hcl.
  assert (Htc : target_candidates ai pk = Some []).
  { unfold target_candidates. by rewrite Hcl. }
  split; [done|]. split; [done|].
  destruct (choose_shot_spec (F:=F) ai pk ps arg Hpk Hps)
    as (heat & tc & cands & rc & Hheat & Htc' & _ & Htop & Hrun & Hin & _).
  assert (tc = []) as -> by congruence.
  exists heat, cands, rc. split; [done|]. split; [by apply Htop|]. done.
Qed.

(** Target mode: as soon as some cluster has a cell to offer, [choose_shot]
    shoots at a cell that a cluster asks for, an Unknown cell next to it or
    on its line, whatever the heat says elsewhere. *)
Theorem choose_shot_follows_up_hits `{FloatOps F} (ai : BattleshipAI)
    (pk ps : list (list Z)) (arg : option (list Z)) (clusters : list cluster)
    (cl0 : cluster) (rc0 : Z * Z) :
  let n := ai_size ai in
  wf_grid n pk → wf_grid n ps →
  hit_clusters ai pk = Some clusters → cl0 ∈ clusters → wanted n pk cl0 rc0 →
  ∃ rc cl, choose_shot (F:=F) ai pk ps arg = Some rc ∧
    cl ∈ clusters ∧ wanted n pk cl rc.
Proof.
  intros n Hpk Hps Hcl Hcl0 Hw0.
  destruct (target_candidates_spec ai pk Hpk)
    as (clusters' & tc & Hcl' & Htc & _ & _ & Hiff).
  assert (clusters' = clusters) as -> by congruence.
  destruct (choose_shot_spec (F:=F) ai pk ps arg Hpk Hps)
    as (heat & tc' & cands & rc & _ & Htc' & Hyes & _ & Hrun & Hin & _).
  assert (tc' = tc) as -> by congruence.
  assert (rc0 ∈ tc) as Hrc0 by (apply Hiff; eauto).
  assert (tc ≠ []) as Hne by (intros ->; by apply elem_of_nil in Hrc0).
  specialize (Hyes Hne). subst cands. specialize (Hin Hne).
  apply Hiff in Hin as (cl & Hcl1 & Hw). by exists rc, cl.
Qed.

Lemma first_unknown_none (n : Z) (k : list (list Z)) (cells : list (Z * Z)) :
  wf_grid n k → Forall (λ rc, inb n rc.1 rc.2) cells →
  (∀ r c, inb n r c → grid_get k r c ≠ Some UNKNOWN) →
  first_unknown k cells = Some (0, 0).
Proof.
  intros Hk Hin Hno. induction cells as [|[r c] cells IH]; [done|].
  apply Forall_cons in Hin as [Hrc Hin]. cbn [first_unknown fst snd] in *.
  destruct (grid_get_is_Some _ _ _ _ Hk Hrc) as [cell Hcell]. rewrite Hcell.
  cbn [mbind option_bind]. case_bool_decide as Hunk; [|by apply IH].
  subst cell. by destruct (Hno r c Hrc).
Qed.

(** On a grid with no Unknown cell left [choose_shot] has no candidate and
    its fallback scan finds nothing: it answers [(0, 0)]. *)
Theorem choose_shot_no_unknown `{FloatOps F} (ai : BattleshipAI)
    (pk ps : list (list Z)) (arg : option (list Z)) :
  let n := ai_size ai in
  wf_grid n pk → wf_grid n ps →
  (∀ r c, inb n r c → grid_get pk r c ≠ Some UNKNOWN) →
  choose_shot (F:=F) ai pk ps arg = Some (0, 0).
Proof.
  intros n Hpk Hps Hno.
  destruct (choose_shot_spec (F:=F) ai pk ps arg Hpk Hps)
    as (heat & tc & cands & rc & Hheat & Htc & Hyes & Htop & Hrun & _ & Hfall).
  destruct (target_candidates_spec ai pk Hpk) as (cls & tc' & _ & Htc' & _ & Hunk & _).
  assert (tc' = tc) as -> by congruence.
  assert (tc = []) as ->.
  { destruct tc as [|x tc]; [done|]. destruct (Hunk x) as [Hin Hu]; [left|].
    by destruct (Hno _ _ Hin). }
  specialize (Htop eq_refl).
  destruct (heatmap_ok ai pk (Some (remaining_ships ai)) Hpk) as (heat' & Hheat' & Hwfh & _).
  assert (heat' = heat) as -> by congruence.
  destruct (top_candidates_spec ai heat pk 8 Hwfh Hpk) as
    (ranked & res & _ & _ & Hmem & Hres & Hpos & Hall); [lia|].
  assert (res = cands) as -> by congruence.
  assert (ranked = []) as ->.
  { destruct ranked as [|[[h r] c] ranked]; [done|].
    destruct (proj1 (Hmem h r c)) as (Hin & Hu & _); [left|]. by destruct (Hno _ _ Hin). }
  assert (cands = []) as ->.
  { rewrite Hall; [done|]. rewrite take_nil. by intros Hex%Exists_nil. }
  rewrite Hrun. rewrite <- (Hfall eq_refl).
  apply (first_unknown_none n); [done| |done].
  apply Forall_forall. intros x. destruct x. by rewrite elem_of_all_cells.
Qed.

(** * The turn logic *)

(** [pos_to_cell] answers [None] outside the grid and otherwise the cell
    whose square holds the pixel, always a cell of the grid. *)
Theorem pos_to_cell_spec (x y x0 y0 : Z) :
  match pos_to_cell (x, y) (x0, y0) with
  | Some (r, c) =>
      inb GRID_SIZE r c ∧
      x0 + c * CELL_SIZE ≤ x < x0 + (c + 1) * CELL_SIZE ∧
      y0 + r * CELL_SIZE ≤ y < y0 + (r + 1) * CELL_SIZE
  | None =>
      ¬ (x0 ≤ x < x0 + GRID_SIZE * CELL_SIZE ∧ y0 ≤ y < y0 + GRID_SIZE * CELL_SIZE)
  end.
Proof.
  unfold pos_to_cell, inb, GRID_SIZE, CELL_SIZE.
  case_bool_decide as Hx; cbn [andb negb]; [|tauto].
  case_bool_decide as Hy; cbn [andb negb]; [|tauto].
  pose proof (Z.div_mod (x - x0) 36 ltac:(lia)) as Hdx.
  pose proof (Z.mod_pos_bound (x - x0) 36 ltac:(lia)) as Hmx.
  pose proof (Z.div_mod (y - y0) 36 ltac:(lia)) as Hdy.
  pose proof (Z.mod_pos_bound (y - y0) 36 ltac:(lia)) as Hmy.
  lia.
Qed.

(** The centre of a cell of the grid is a pixel of that cell. *)
Theorem pos_to_cell_center (origin : Z * Z) (r c : Z) :
  inb GRID_SIZE r c → pos_to_cell (cell_center origin r c) origin = Some (r, c).
Proof.
  destruct origin as [x0 y0]. unfold inb, pos_to_cell, cell_center, GRID_SIZE, CELL_SIZE.
  intros [Hr Hc]. change (36 `div` 2) with 18.
  rewrite bool_decide_eq_true_2 by lia. rewrite bool_decide_eq_true_2 by lia.
  cbn [andb negb]. f_equal. f_equal.
  - symmetry. apply Z.div_unique with (r := 18); lia.
  - symmetry. apply Z.div_unique with (r := 18); lia.
Qed.

Lemma receive_shot_game_over (b b' : Board) (r c : Z) (rep : ShotReport) :
  receive_shot b r c = Some (rep, b') → game_over rep = all_ships_sunk b'.
Proof.
  unfold receive_shot. destruct (in_bounds b r c); cbn [negb].
  2:{ intros Heq. by injection Heq as <- <-. }
  destruct (grid_get (board_grid b) r c) as [cell|]; [|done]. cbn [mbind option_bind].
  destruct (bool_decide (cell = HIT ∨ cell = MISS)).
  { intros Heq. by injection Heq as <- <-. }
  destruct (bool_decide (cell = SHIP)).
  - destruct (grid_set (board_grid b) r c HIT) as [g'|]; [|done]. cbn [mbind option_bind].
    destruct (hit_ship (r, c) (board_ships b)) as [sl ships'].
    intros Heq. by injection Heq as <- <-.
  - destruct (grid_set (board_grid b) r c MISS) as [g'|]; [|done]. cbn [mbind option_bind].
    intros Heq. by injection Heq as <- <-.
Qed.

Lemma open_cells_shot (b b' : Board) (r c : Z) (rep : ShotReport) :
  wf_grid (board_size b) (board_grid b) →
  is_valid_shot b r c = Some true → receive_shot b r c = Some (rep, b') →
  (open_cells b' + 1 = open_cells b)%nat.
Proof.
  intros Hwf Hvalid Hshot.
  destruct (receive_shot_cases b r c Hwf)
    as (valid & rep2 & b2 & Hv & Hshot2 & Hsize & _ & _ & _ & _ & _ & Hyes).
  assert (valid = true) as -> by congruence. assert (b2 = b') as -> by congruence.
  destruct (Hyes eq_refl) as (cell & Hcell & Hnh & Hnm & _ & Hget & _).
  assert (Hrc : inb (board_size b) r c).
  { unfold is_valid_shot in Hvalid. destruct (in_bounds b r c) eqn:Hin; [|done].
    by apply in_bounds_inb. }
  unfold open_cells. rewrite Hsize.
  rewrite (filter_length_drop
             (λ rc, grid_get (board_grid b) rc.1 rc.2 ≠ Some HIT ∧
                    grid_get (board_grid b) rc.1 rc.2 ≠ Some MISS)
             (λ rc, grid_get (board_grid b') rc.1 rc.2 ≠ Some HIT ∧
                    grid_get (board_grid b') rc.1 rc.2 ≠ Some MISS)
             (all_cells (board_size b)) (r, c)); [lia|..].
  - apply NoDup_all_cells.
  - by apply elem_of_all_cells.
  - cbn [fst snd]. rewrite Hcell. split; congruence.
  - cbn [fst snd]. rewrite Hget by done. rewrite decide_True by done.
    destruct (decide (cell = SHIP)); intros [H1 H2]; congruence.
  - intros [r' c'] Hin Hne. apply elem_of_all_cells in Hin. cbn [fst snd].
    rewrite Hget by done. by rewrite decide_False.
Qed.

Lemma ship_left_ships (b : Board) : fleet_ok b → ship_left b → board_ships b ≠ [].
Proof.
  intros (_ & Hcells & _) (r & c & Hrc & Hship).
  destruct (proj2 (Hcells r c Hrc)) as (s & Hs & _); [by left|].
  intros Hnil. rewrite Hnil in Hs. by apply elem_of_nil in Hs.
Qed.

Lemma not_all_sunk_ship_left (b : Board) :
  fleet_ok b → board_ships b ≠ [] → all_ships_sunk b = false → ship_left b.
Proof.
  intros Hok Hne Hsunk.
  destruct (decide (Exists (λ rc, grid_get (board_grid b) rc.1 rc.2 = Some SHIP)
                      (all_cells (board_size b)))) as [Hex|Hno].
  - apply Exists_exists in Hex as ([r c] & Hin & Hship). exists r, c.
    apply elem_of_all_cells in Hin. done.
  - assert (all_ships_sunk b = true) as Htrue; [|congruence].
    apply all_sunk_iff; [done|]. split; [done|]. intros r c Hrc Hship.
    apply Hno, Exists_exists. exists (r, c). split; [by apply elem_of_all_cells|done].
Qed.

Lemma choose_shot_unknown `{FloatOps F} (a : BattleshipAI) (pk ps : list (list Z))
    (arg : option (list Z)) :
  wf_grid (ai_size a) pk → wf_grid (ai_size a) ps →
  ∃ rc, choose_shot (F:=F) a pk ps arg = Some rc ∧
    ((∃ r c, inb (ai_size a) r c ∧ grid_get pk r c = Some UNKNOWN) →
       inb (ai_size a) rc.1 rc.2 ∧ grid_get pk rc.1 rc.2 = Some UNKNOWN).
Proof.
  intros Hpk Hps. set (n := ai_size a).
  destruct (choose_shot_spec (F:=F) a pk ps arg Hpk Hps)
    as (heat & tc & cands & rc & Hheat & Htc & Hsome & Hnone & Hrun & Hin & Hfall).
  exists rc. split; [done|]. intros (r & c & Hrc & Hun).
  destruct (heatmap_ok a pk (Some (remaining_ships a)) Hpk) as (heat' & Hheat' & [Hwf _]).
  assert (heat' = heat) as -> by congruence.
  destruct (target_candidates_spec a pk Hpk) as (clusters & tc' & _ & Htc' & _ & Htc_ok & _).
  assert (tc' = tc) as -> by congruence. fold n in Htc_ok.
  destruct tc as [|t tc].
  2:{ assert (cands = t :: tc) as -> by (by apply Hsome). apply Htc_ok. by apply Hin. }
  specialize (Hnone eq_refl).
  destruct (top_candidates_spec a heat pk 8 Hwf Hpk)
    as (ranked & top & _ & _ & Hranked & Htop & Htop_pos & Htop_all); [lia|].
  assert (top = cands) as -> by congruence. fold n in Hranked.
  assert (Hstrip : ∀ l, l ⊆ ranked → l ≠ [] →
            cands = strip_score <$> l →
            inb n rc.1 rc.2 ∧ grid_get pk rc.1 rc.2 = Some UNKNOWN).
  { intros l Hsub Hne Heq. assert (cands ≠ []) as Hcne.
    { rewrite Heq. intros Hnil. by apply fmap_nil_inv in Hnil. }
    specialize (Hin Hcne). rewrite Heq in Hin.
    apply list_elem_of_fmap in Hin as ([[h r'] c'] & -> & Hmem).
    apply Hsub, Hranked in Hmem as (? & ? & _). done. }
  assert (∃ t, t ∈ take (Z.to_nat 8) ranked) as [t Ht].
  { destruct ranked as [|t ranked].
    - exfalso. destruct (grid_get_is_Some n heat r c Hwf Hrc) as [h Hh].
      assert ((h, r, c) ∈ @nil (Z * Z * Z)) as Hmem by (by apply Hranked).
      by apply elem_of_nil in Hmem.
    - exists t. change (Z.to_nat 8) with 8%nat. left. }
  destruct (decide (Exists positive_score (take (Z.to_nat 8) ranked))) as [Hex|Hno].
  - apply (Hstrip (filter positive_score (take (Z.to_nat 8) ranked))).
    + intros u Hu. apply list_elem_of_filter in Hu as [_ Hu]. by apply subseteq_take in Hu.
    + apply Exists_exists in Hex as (u & Hu & Hupos). intros Hnil.
      assert (u ∈ filter positive_score (take (Z.to_nat 8) ranked)) as Hmem
        by (by apply list_elem_of_filter).
      rewrite Hnil in Hmem. by apply elem_of_nil in Hmem.
    + by apply Htop_pos.
  - apply (Hstrip (take (Z.to_nat 8) ranked)).
    + intros u Hu. by apply subseteq_take in Hu.
    + intros Hnil. rewrite Hnil in Ht. by apply elem_of_nil in Ht.
    + by apply Htop_all.
Qed.

Lemma ai_take_shot_step `{FloatOps F} (g : Game) :
  game_ok g → ship_left (player_board g) →
  ∃ g' rc rep,
    ai_take_shot (F:=F) g = Some g' ∧
    is_valid_shot (player_board g) rc.1 rc.2 = Some true ∧
    receive_shot (player_board g) rc.1 rc.2 = Some (rep, player_board g') ∧
    last_ai_shot g' = Some rc ∧
    ai_board g' = ai_board g ∧ ai g' = ai g ∧ last_player_shot g' = last_player_shot g ∧
    game_ok g' ∧ (open_total g' + 1 = open_total g)%nat ∧
    (all_ships_sunk (player_board g') = true →
       state g' = GameOver ∧ winner g' = Some WinnerAI) ∧
    (all_ships_sunk (player_board g') = false →
       state g' = (if hit rep then AiTurn else PlayerTurn) ∧ winner g' = winner g).
Proof.
  intros (Hp & Ha & Hsp & Hsa & Hlive) Hleft.
  pose proof Hp as ((Hwfp & _) & _). pose proof Ha as ((Hwfa & _) & _).
  destruct (get_ai_knowledge_spec _ Hwfp) as (pk & Hpk & Hwfpk & Hgetpk).
  destruct (get_ai_knowledge_spec _ Hwfa) as (ps & Hps & Hwfps & _).
  rewrite Hsp in Hwfpk. rewrite Hsa in Hwfps.
  destruct (choose_shot_unknown (F:=F) (ai g) pk ps (Some (afloat (ai_board g)))
              Hwfpk Hwfps) as (rc & Hrc & Hunk).
  destruct Hunk as [Hin Hu].
  { destruct Hleft as (r & c & Hin & Hship). exists r, c. rewrite <- Hsp.
    split; [done|]. by rewrite Hgetpk, Hship. }
  rewrite <- Hsp in Hin. rewrite Hgetpk in Hu by done.
  destruct (grid_get_is_Some _ _ _ _ Hwfp Hin) as [cell Hcell].
  assert (Hvalid : is_valid_shot (player_board g) rc.1 rc.2 = Some true).
  { unfold is_valid_shot. rewrite (proj2 (in_bounds_inb _ _ _) Hin), Hcell.
    cbn [mbind option_bind]. rewrite Hcell in Hu. cbn in Hu. unfold visible in Hu.
    rewrite bool_decide_eq_false_2; [done|].
    intros [Hc|Hc]; repeat case_bool_decide; done. }
  destruct (receive_shot_step _ rc.1 rc.2 (proj1 Hp)) as (rep & b' & Hshot & _).
  pose proof (fleet_ok_shot _ _ _ _ _ Hp Hshot) as Hp'.
  pose proof (open_cells_shot _ _ _ _ _ Hwfp Hvalid Hshot) as Hopen.
  pose proof (receive_shot_game_over _ _ _ _ _ Hshot) as Hover.
  destruct (receive_shot_cases _ rc.1 rc.2 Hwfp)
    as (valid & rep2 & b2 & _ & Hshot2 & Hsize & _ & _ & Hcs & _).
  assert (b2 = b') as -> by congruence.
  assert (Hne : board_ships b' ≠ []).
  { pose proof (ship_left_ships _ Hp Hleft) as Hne. intros Hnil.
    rewrite Hnil in Hcs. by destruct (board_ships (player_board g)). }
  unfold ai_take_shot. rewrite Hpk, Hps. cbn [mbind option_bind].
  rewrite Hrc. cbn [mbind option_bind]. rewrite Hshot. cbn [mbind option_bind fst snd].
  rewrite Hover.
  assert (Hok' : ∀ st w, (st ≠ GameOver → all_ships_sunk b' = false) →
            game_ok (mkGame b' (ai_board g) (ai g) st w (last_player_shot g) (Some rc))).
  { intros st w Hst. split_and!; cbn [player_board ai_board ai state]; try done;
      try congruence. intros Hrun. apply not_all_sunk_ship_left; [done..|by apply Hst]. }
  destruct (all_ships_sunk b') eqn:Hsunk; [|destruct (hit rep) eqn:Hhit];
    (eexists _, rc, rep; split; [done|]; cbn [player_board ai_board ai state winner
       last_player_shot last_ai_shot]; split_and!; try done;
     try (intros Hx; rewrite ?Hhit; split; congruence);
     [apply Hok'; congruence|unfold open_total; cbn [player_board ai_board]; lia]).
Qed.

Lemma inform_ai_size (a : BattleshipAI) (sl : option Z) :
  ai_size (inform_ai a sl) = ai_size a.
Proof.
  unfold inform_ai. destruct sl as [l|]; [|done]. destruct (decide (l = 0)); [done|].
  unfold notify_sunk. by destruct (decide (l ∈ remaining_ships a)).
Qed.

Lemma handle_player_shot_step (g : Game) (cell : option (Z * Z)) :
  game_ok g →
  ∃ g', handle_player_shot g cell = Some g' ∧
    (g' = g ∨
     ∃ r c rep, cell = Some (r, c) ∧
       is_valid_shot (ai_board g) r c = Some true ∧
       receive_shot (ai_board g) r c = Some (rep, ai_board g') ∧
       ai g' = inform_ai (ai g) (sunk_length rep) ∧
       player_board g' = player_board g ∧
       last_player_shot g' = Some (r, c) ∧ last_ai_shot g' = last_ai_shot g ∧
       state g' = (if game_over rep then GameOver
                   else if hit rep then PlayerTurn else AiTurn) ∧
       winner g' = (if game_over rep then Some WinnerPlayer else winner g) ∧
       (open_total g' + 1 = open_total g)%nat ∧
       (state g ≠ GameOver → game_ok g')).
Proof.
  intros (Hp & Ha & Hsp & Hsa & Hlive). pose proof Ha as ((Hwfa & _) & _).
  destruct cell as [[r c]|]; [|exists g; split; [done|by left]].
  cbn [handle_player_shot].
  destruct (receive_shot_cases _ r c Hwfa)
    as (valid & rep & b' & Hvalid & Hshot & Hsize & _).
  rewrite Hvalid. cbn [mbind option_bind].
  destruct valid; cbn [negb]; [|exists g; split; [done|by left]].
  rewrite Hshot. cbn [mbind option_bind fst snd].
  pose proof (fleet_ok_shot _ _ _ _ _ Ha Hshot) as Ha'.
  pose proof (open_cells_shot _ _ _ _ _ Hwfa Hvalid Hshot) as Hopen.
  assert (Hok' : ∀ st w, state g ≠ GameOver →
            game_ok (mkGame (player_board g) b' (inform_ai (ai g) (sunk_length rep)) st w
                       (Some (r, c)) (last_ai_shot g))).
  { intros st w Hrun. split_and!; cbn [player_board ai_board ai state]; try done.
    - by rewrite inform_ai_size.
    - rewrite inform_ai_size. congruence.
    - intros _. by apply Hlive. }
  destruct (game_over rep) eqn:Hover; [|destruct (hit rep) eqn:Hhit];
    (eexists; split; [done|]; right; exists r, c, rep;
     cbn [player_board ai_board ai state winner last_player_shot last_ai_shot];
     rewrite ?Hover, ?Hhit; split_and!; try done;
     [unfold open_total; cbn [player_board ai_board]; lia|by apply Hok']).
Qed.

Lemma turn_step_aux `{FloatOps F} (g g' : Game) :
  game_ok g → turn (F:=F) g g' →
  game_ok g' ∧ (open_total g' + 1 = open_total g)%nat.
Proof.
  intros Hok Hturn. destruct Hturn as [g g' Hstate Hrun|g cell g' Hstate Hrun Hne].
  - destruct (ai_take_shot_step (F:=F) g Hok) as (g2 & rc & rep & Hrun2 & _ & _ & Hrest).
    { destruct Hok as (_ & _ & _ & _ & Hlive). apply Hlive. by rewrite Hstate. }
    assert (g2 = g') as -> by congruence.
    by destruct Hrest as (_ & _ & _ & _ & ? & ? & _).
  - destruct (handle_player_shot_step g cell Hok) as (g2 & Hrun2 & Hcases).
    assert (g2 = g') as -> by congruence.
    destruct Hcases as [?|(r & c & rep & _ & _ & _ & _ & _ & _ & _ & _ & _ & ? & Hok')];
      [done|]. split; [|done]. apply Hok'. by rewrite Hstate.
Qed.

(** Every shot of a running game keeps the game sound and uses up exactly
    one un-shot cell: the engine's shot is always at an un-shot cell of the
    player's board, and a click counts only at an un-shot cell of the
    engine's board. *)
Theorem turn_progress `{FloatOps F} (g g' : Game) :
  game_ok g → turn (F:=F) g g' →
  game_ok g' ∧ (open_total g' + 1 = open_total g)%nat.
Proof. apply turn_step_aux. Qed.

Lemma open_cells_le (b : Board) :
  (open_cells b ≤ Z.to_nat (board_size b * board_size b))%nat.
Proof.
  unfold open_cells. etransitivity; [apply length_filter|apply length_all_cells].
Qed.

(** A game cannot go on for ever: after [m] shots, [m] of the un-shot cells
    are gone, so no game on size-by-size boards has more than
    [2 * size * size] shots. *)
Theorem game_length_bounded `{FloatOps F} (m : nat) (g g' : Game) :
  game_ok g → nsteps (turn (F:=F)) m g g' →
  game_ok g' ∧ (m + open_total g' = open_total g)%nat ∧
  (m ≤ 2 * Z.to_nat (ai_size (ai g) * ai_size (ai g)))%nat.
Proof.
  intros Hok Hrun.
  assert (game_ok g' ∧ (m + open_total g' = open_total g)%nat) as [Hok' Hm].
  { induction Hrun as [g|m g g1 g2 Hturn Hrun IH]; [done|].
    destruct (turn_step_aux g g1 Hok Hturn) as [Hok1 Hstep].
    destruct (IH Hok1) as [Hok2 Hm]. split; [done|]. lia. }
  split; [done|]. split; [done|].
  destruct Hok as (_ & _ & Hsp & Hsa & _).
  pose proof (open_cells_le (player_board g)) as H1.
  pose proof (open_cells_le (ai_board g)) as H2.
  rewrite Hsp in H1. rewrite Hsa in H2. unfold open_total in Hm. lia.
Qed.

(** * Setting up a game *)

Lemma place_ship_deployed (n : Z) (lens : list Z) (b b' : Board) (r c length : Z)
    (horizontal ok : bool) :
  deployed n lens b → 0 ≤ length →
  place_ship b r c length horizontal = Some (ok, b') →
  if ok then deployed n (lens ++ [length]) b' else b' = b.
Proof.
  intros (Hok & Hsize & Hlens & Hhits & Hfresh) Hlen Hplace.
  pose proof Hok as ((Hwf & _) & _).
  destruct (place_ship_cases b r c length horizontal Hwf) as (_ & Hno & Hyes).
  set (cells := placement_cells r c length horizontal) in *.
  destruct (decide (Forall (λ rc, inb (board_size b) rc.1 rc.2 ∧
                                  grid_get (board_grid b) rc.1 rc.2 = Some EMPTY) cells))
    as [Hfree|Hnfree].
  2:{ rewrite (Hno Hnfree) in Hplace. by injection Hplace as <- <-. }
  destruct (Hyes Hfree) as (g' & Hrun & Hwf' & Hget).
  pose proof Hplace as Hplace'. rewrite Hrun in Hplace. injection Hplace as <- <-.
  rewrite <- Hrun in Hplace'. split_and!.
  - by eapply fleet_ok_place.
  - done.
  - cbn [board_ships]. by rewrite fmap_app, Hlens.
  - cbn [board_ships]. apply Forall_app. split; [done|]. by apply Forall_singleton.
  - cbn [board_grid]. rewrite <- Hsize. intros r' c' Hrc'. rewrite Hget by done.
    case_decide; [by right|]. rewrite Hsize in Hrc'. by apply Hfresh.
Qed.

Lemma random_tries_deployed (n : Z) (lens : list Z) (rng : nat → Z) (length : Z) :
  0 ≤ length →
  ∀ (left pos : nat) (b : Board) res,
    deployed n lens b → random_tries left rng pos b length = Some res →
    if res.1.1 then deployed n (lens ++ [length]) res.1.2 else res.1.2 = b.
Proof.
  intros Hlen. induction left as [|left IH]; intros pos b res Hb Hrun.
  - cbn in Hrun. by injection Hrun as <-.
  - cbn [random_tries] in Hrun.
    destruct (random_try b length (rng pos) (rng (S pos)) (rng (S (S pos))))
      as [[ok b1]|] eqn:Htry; [|done]. cbn [mbind option_bind fst snd] in Hrun.
    unfold random_try in Htry.
    destruct (if getrandbit (rng pos) then _ else _) as [rc|]; [|done].
    cbn [mbind option_bind] in Htry.
    pose proof (place_ship_deployed _ _ _ _ _ _ _ _ _ Hb Hlen Htry) as Hstep.
    destruct ok.
    + by injection Hrun as <-.
    + subst b1. by apply (IH _ _ _ Hb Hrun).
Qed.

Lemma first_fit_deployed (n : Z) (lens : list Z) (length : Z) (origins : list (Z * Z)) :
  0 ≤ length →
  ∀ (b : Board) res,
    deployed n lens b → first_fit b length origins = Some res →
    if res.1 then deployed n (lens ++ [length]) res.2 else res.2 = b.
Proof.
  intros Hlen. induction origins as [|rc origins IH]; intros b res Hb Hrun.
  - cbn in Hrun. by injection Hrun as <-.
  - cbn [first_fit] in Hrun.
    destruct (place_ship b rc.1 rc.2 length true) as [[ok b1]|] eqn:Hplace; [|done].
    cbn [mbind option_bind fst snd] in Hrun.
    pose proof (place_ship_deployed _ _ _ _ _ _ _ _ _ Hb Hlen Hplace) as Hstep.
    destruct ok.
    + by injection Hrun as <-.
    + subst b1. by apply (IH _ _ Hb Hrun).
Qed.

Lemma place_one_deployed (n : Z) (lens : list Z) (rng : nat → Z) (length : Z)
    (st st' : Board * nat) :
  0 ≤ length → deployed n lens st.1 → place_one rng length st = Some st' →
  deployed n (lens ++ [length]) st'.1.
Proof.
  intros Hlen Hb Hrun. unfold place_one in Hrun.
  destruct (random_tries 1000 rng st.2 st.1 length) as [[[ok b1] pos1]|] eqn:Htries;
    [|done].
  cbn [mbind option_bind fst snd] in Hrun.
  pose proof (random_tries_deployed n lens rng length Hlen _ _ _ _ Hb Htries) as Hstep.
  cbn [fst snd] in Hstep. destruct ok.
  - by injection Hrun as <-.
  - subst b1.
    destruct (first_fit st.1 length (scan_origins (board_size st.1) length))
      as [[ok2 b2]|] eqn:Hfit; [|done]. cbn [mbind option_bind fst snd] in Hrun.
    pose proof (first_fit_deployed n lens length _ Hlen _ _ Hb Hfit) as Hstep2.
    cbn [fst snd] in Hstep2. destruct ok2; [|done]. by injection Hrun as <-.
Qed.


Lemma deployed_new_board (n : Z) : 0 ≤ n → deployed n [] (new_board n).
Proof.
  intros Hn. unfold deployed. split; [by apply fleet_ok_fresh|].
  split; [done|]. split; [done|]. split; [constructor|].
  intros r c Hrc. left. cbn. by apply grid_get_make.
Qed.



(** ** Placement never fails for a fleet that leaves room *)

Lemma taken_rows (b : Board) (n : Z) (rows : list Z) :
  Forall (λ r, (2 ≤ length (taken_cells b (row_cells n r)))%nat) rows →
  (2 * length rows ≤ length (taken_cells b (rows ≫= row_cells n)))%nat.
Proof.
  induction 1 as [|r rows Hr _ IH]; [simpl; lia|].
  rewrite bind_cons. unfold taken_cells in *. rewrite filter_app, length_app.
  simpl. lia.
Qed.

Lemma length_ship_cells (n : Z) (g : list (list Z)) (ships : list Ship) :
  Forall (ship_ok n g) ships →
  Z.of_nat (length (ships ≫= ship_cells)) = foldr Z.add 0 (ship_length <$> ships).
Proof.
  induction 1 as [|s ships (_ & _ & Hlen & _) _ IH]; [done|].
  rewrite bind_cons, length_app, fmap_cons. cbn [foldr]. lia.
Qed.

Lemma taken_le_total (n : Z) (lens : list Z) (b : Board) :
  deployed n lens b →
  Z.of_nat (length (taken_cells b (all_cells n))) ≤ foldr Z.add 0 lens.
Proof.
  intros (((Hwf & Hships & _) & Hcells & _) & Hsize & Hlens & _ & Hfresh).
  rewrite <- Hlens, <- (length_ship_cells _ _ _ Hships).
  apply inj_le, submseteq_length, NoDup_submseteq.
  - apply NoDup_filter, NoDup_all_cells.
  - intros [r c] Hin. apply list_elem_of_filter in Hin as [Htaken Hin].
    apply elem_of_all_cells in Hin. cbn [fst snd] in *.
    destruct (Hfresh r c Hin) as [He|Hs]; [done|]. rewrite <- Hsize in Hin.
    destruct (proj2 (Hcells r c Hin)) as (s & Hs' & Hmem); [by left|].
    apply list_elem_of_bind. by exists s.
Qed.

Lemma two_elements {A} (l : list A) (x y : A) :
  x ∈ l → y ∈ l → x ≠ y → (2 ≤ length l)%nat.
Proof.
  intros Hx Hy Hne. change 2%nat with (length [x; y]).
  apply submseteq_length, NoDup_submseteq.
  - apply NoDup_cons. split; [by rewrite list_elem_of_singleton|apply NoDup_singleton].
  - intros z Hz. apply elem_of_cons in Hz as [->|Hz]; [done|].
    by apply list_elem_of_singleton in Hz as ->.
Qed.

Lemma window_taken (b : Board) (r c length : Z) :
  0 ≤ r < board_size b → 0 ≤ c → c + length ≤ board_size b →
  ¬ free b (placement_cells r c length true) →
  ∃ i, 0 ≤ i < length ∧ (r, c + i) ∈ taken_cells b (row_cells (board_size b) r).
Proof.
  intros Hr Hc Hfit Hnot. apply not_Forall_Exists in Hnot; [|apply _].
  apply Exists_exists in Hnot as (rc & Hin & Hbad).
  apply elem_of_placement_cells in Hin as (i & Hi & ->).
  unfold compose, place_row, place_col in *. cbn [fst snd] in *.
  rewrite Z.add_0_r in *.
  exists i. split; [done|]. apply list_elem_of_filter. cbn [fst snd]. split.
  - intros He. apply Hbad. split; [unfold inb; lia|done].
  - apply list_elem_of_fmap. exists (c + i). split; [done|]. apply elem_of_range. lia.
Qed.

Lemma free_window_exists (n : Z) (lens : list Z) (b : Board) (len : Z) :
  deployed n lens b → 0 ≤ len → 2 * len ≤ n → foldr Z.add 0 lens < 2 * n →
  ∃ rc, rc ∈ scan_origins n len ∧ free b (placement_cells rc.1 rc.2 len true).
Proof.
  intros Hdep Hlen Hfit Hroom. pose proof (taken_le_total n lens b Hdep) as Htaken.
  pose proof Hdep as (_ & Hsize & _).
  destruct (decide (Forall (λ r, (2 ≤ length (taken_cells b (row_cells n r)))%nat)
                      (range n))) as [Hall|Hsome].
  { apply (taken_rows b n) in Hall. unfold range in Hall at 1.
    rewrite length_seqZ in Hall. unfold all_cells in Htaken. unfold row_cells in Hall.
    lia. }
  apply not_Forall_Exists in Hsome; [|apply _].
  apply Exists_exists in Hsome as (r & Hr & Hfew). cbn in Hfew.
  apply elem_of_range in Hr.
  assert (Horigin : ∀ c, 0 ≤ c ≤ n - len → (r, c) ∈ scan_origins n len).
  { intros c Hc. apply list_elem_of_bind. exists r. split; [|by apply elem_of_range].
    apply list_elem_of_fmap. exists c. split; [done|]. apply elem_of_range. lia. }
  destruct (decide (free b (placement_cells r 0 len true))) as [?|Hno0].
  { exists (r, 0). split; [apply Horigin; lia|done]. }
  destruct (decide (free b (placement_cells r len len true))) as [?|Hno1].
  { exists (r, len). split; [apply Horigin; lia|done]. }
  exfalso. apply Hfew. rewrite <- Hsize in *.
  destruct (window_taken b r 0 len) as (i & Hi & Hin0); [lia..|done|].
  destruct (window_taken b r len len) as (j & Hj & Hin1); [lia..|done|].
  apply (two_elements _ _ _ Hin0 Hin1). intros Heq. injection Heq. lia.
Qed.

Lemma first_fit_finds (b : Board) (length : Z) (origins : list (Z * Z)) (rc : Z * Z) :
  wf_grid (board_size b) (board_grid b) →
  rc ∈ origins → free b (placement_cells rc.1 rc.2 length true) →
  ∃ b', first_fit b length origins = Some (true, b').
Proof.
  intros Hwf. induction origins as [|x origins IH]; intros Hin Hfree.
  { by apply elem_of_nil in Hin. }
  cbn [first_fit].
  destruct (place_ship_cases b x.1 x.2 length true Hwf) as (_ & Hno & Hyes).
  destruct (decide (free b (placement_cells x.1 x.2 length true))) as [Hx|Hx].
  - destruct (Hyes Hx) as (g' & -> & _). cbn [mbind option_bind fst snd]. eauto.
  - rewrite (Hno Hx). cbn [mbind option_bind fst snd]. apply IH; [|done].
    apply elem_of_cons in Hin as [->|Hin]; [done|done].
Qed.

Lemma random_tries_total (n : Z) (lens : list Z) (rng : nat → Z) (length : Z) :
  0 < n → 0 ≤ length ≤ n →
  ∀ (left pos : nat) (b : Board), deployed n lens b →
    ∃ res, random_tries left rng pos b length = Some res.
Proof.
  intros Hn Hlen. induction left as [|left IH]; intros pos b Hb; [by eexists|].
  cbn [random_tries]. pose proof Hb as (((Hwf & _) & _) & Hsize & _).
  assert (∃ res, random_try b length (rng pos) (rng (S pos)) (rng (S (S pos))) = Some res)
    as [[ok b1] Htry].
  { unfold random_try, randrange. rewrite Hsize.
    rewrite !decide_True by lia. destruct (getrandbit (rng pos));
      cbn [mbind option_bind fst snd];
      match goal with |- context [place_ship b ?r ?c length ?h] =>
        destruct (place_ship_cases b r c length h Hwf) as (_ & Hno & Hyes);
        destruct (decide (free b (placement_cells r c length h))) as [Hf|Hf];
        [destruct (Hyes Hf) as (g' & -> & _)|rewrite (Hno Hf)]; eauto
      end. }
  rewrite Htry. cbn [mbind option_bind fst snd]. destruct ok; [by eexists|].
  apply IH. unfold random_try in Htry.
  destruct (if getrandbit (rng pos) then _ else _) as [rc|]; [|done].
  cbn [mbind option_bind] in Htry.
  by rewrite (place_ship_deployed _ _ _ _ _ _ _ _ _ Hb (proj1 Hlen) Htry).
Qed.

Lemma place_one_total (n : Z) (lens : list Z) (rng : nat → Z) (length : Z)
    (st : Board * nat) :
  0 < n → deployed n lens st.1 →
  0 ≤ length → 2 * length ≤ n → foldr Z.add 0 lens < 2 * n →
  ∃ st', place_one rng length st = Some st'.
Proof.
  intros Hn Hb Hlen Hfit Hroom. unfold place_one.
  destruct (random_tries_total n lens rng length Hn ltac:(lia) 1000%nat st.2 st.1 Hb)
    as ([[ok b1] pos1] & Htries).
  rewrite Htries. cbn [mbind option_bind fst snd].
  pose proof (random_tries_deployed n lens rng length Hlen _ _ _ _ Hb Htries) as Hstep.
  cbn [fst snd] in Hstep. destruct ok; [by eexists|]. subst b1.
  destruct (free_window_exists n lens st.1 length Hb Hlen Hfit Hroom) as (rc & Hin & Hfree).
  pose proof Hb as (((Hwf & _) & _) & Hsize & _).
  destruct (first_fit_finds st.1 length (scan_origins n length) rc Hwf Hin Hfree)
    as (b' & Hfit').
  rewrite Hsize, Hfit'. cbn [mbind option_bind fst snd]. by eexists.
Qed.

Lemma place_all_total (n : Z) (rng : nat → Z) (ships : list Z) :
  0 < n →
  ∀ (lens : list Z) (st : Board * nat),
    deployed n lens st.1 → roomy n (foldr Z.add 0 lens) ships →
    ∃ st', for_each ships (place_one rng) st = Some st' ∧ deployed n (lens ++ ships) st'.1.
Proof.
  intros Hn. induction ships as [|length ships IH]; intros lens st Hb Hroomy.
  - exists st. rewrite app_nil_r. done.
  - destruct Hroomy as (Hlen & Hfit & Hroom & Hrest). cbn [for_each].
    destruct (place_one_total n lens rng length st Hn Hb Hlen Hfit Hroom) as (st1 & Hone).
    rewrite Hone. cbn [mbind option_bind].
    pose proof (place_one_deployed n lens rng length st st1 Hlen Hb Hone) as Hb1.
    destruct (IH (lens ++ [length]) st1 Hb1) as (st' & Hrun & Hb').
    { rewrite foldr_app. cbn [foldr].
      replace (foldr Z.add (length + 0) lens) with (foldr Z.add 0 lens + length); [done|].
      clear. induction lens as [|x lens IH]; cbn [foldr]; lia. }
    exists st'. split; [done|]. by rewrite <- app_assoc in Hb'.
Qed.

(** [random_place_all] cannot fail on a fleet that leaves room: whatever the
    random draws, if the thousand random tries for a ship all fail the
    fallback scan still finds a free horizontal slot, so no [RuntimeError]
    is raised and the fleet is deployed. *)
Theorem random_place_all_total (b : Board) (ships : list Z) (rng : nat → Z) :
  0 < board_size b → roomy (board_size b) 0 ships →
  ∃ b', random_place_all b (Some ships) rng = Some b' ∧
    deployed (board_size b) ships b'.
Proof.
  intros Hn Hroomy. unfold random_place_all, random_place_from.
  destruct (place_all_total (board_size b) rng ships Hn [] (new_board (board_size b), 0%nat))
    as (st & Hrun & Hdep); [apply deployed_new_board; lia|done|].
  rewrite Hrun. cbn [mbind option_bind]. by exists st.1.
Qed.

Lemma deployed_ship_left (n l : Z) (lens : list Z) (b : Board) :
  deployed n (l :: lens) b → 0 < l → ship_left b.
Proof.
  intros (((Hwf & Hships & _) & _) & Hsize & Hlens & Hhits & _) Hl.
  destruct (board_ships b) as [|s ships]; [done|].
  apply Forall_cons in Hships as [(_ & Hinb & _ & Hlive) _].
  apply Forall_cons in Hhits as [Hzero _]. injection Hlens as Hlen _.
  destruct (live_cells (board_grid b) s) as [|rc live] eqn:Hcells.
  { simpl in Hlive. lia. }
  assert (rc ∈ live_cells (board_grid b) s) as Hin by (rewrite Hcells; left).
  apply list_elem_of_filter in Hin as [Hship Hin]. rewrite Forall_forall in Hinb.
  exists rc.1, rc.2. split; [by apply Hinb|done].
Qed.

Lemma deployed_open_cells (n : Z) (lens : list Z) (b : Board) :
  deployed n lens b → open_cells b = length (all_cells n).
Proof.
  intros (_ & Hsize & _ & _ & Hfresh). unfold open_cells. rewrite Hsize. f_equal.
  apply filter_all_id, Forall_forall. intros [r c] Hin. apply elem_of_all_cells in Hin.
  cbn [fst snd] in *. destruct (Hfresh r c Hin) as [-> | ->]; split; discriminate.
Qed.

Lemma roomy_standard : roomy GRID_SIZE 0 STANDARD_SHIPS.
Proof. unfold GRID_SIZE, STANDARD_SHIPS. cbn. lia. Qed.

Lemma reset_deploys (rng : nat → Z) (pos : nat) :
  ∃ g, reset rng pos = Some g ∧
    deployed GRID_SIZE STANDARD_SHIPS (player_board g) ∧
    deployed GRID_SIZE STANDARD_SHIPS (ai_board g) ∧
    ai g = new_ai GRID_SIZE None ∧ state g = Ready ∧ winner g = None ∧
    last_player_shot g = None ∧ last_ai_shot g = None.
Proof.
  unfold reset, random_place_from.
  destruct (place_all_total GRID_SIZE rng STANDARD_SHIPS ltac:(done) []
              (new_board (board_size (new_board GRID_SIZE)), pos))
    as (p & -> & Hp); [by apply deployed_new_board|apply roomy_standard|].
  cbn [mbind option_bind].
  destruct (place_all_total GRID_SIZE rng STANDARD_SHIPS ltac:(done) []
              (new_board (board_size (new_board GRID_SIZE)), p.2))
    as (a & -> & Ha); [by apply deployed_new_board|apply roomy_standard|].
  cbn [mbind option_bind]. eexists. split; [done|]. by split_and!.
Qed.

Lemma deployed_game_ok (g : Game) :
  deployed GRID_SIZE STANDARD_SHIPS (player_board g) →
  deployed GRID_SIZE STANDARD_SHIPS (ai_board g) →
  ai_size (ai g) = GRID_SIZE → game_ok g.
Proof.
  intros Hp Ha Hsize. pose proof (deployed_ship_left _ _ _ _ Hp ltac:(done)) as Hleft.
  destruct Hp as (Hp & Hsp & _), Ha as (Ha & Hsa & _).
  split_and!; try done; congruence.
Qed.

(** [reset] never fails, whatever the random draws: it puts the standard
    fleet on both boards, un-hit and without overlap, pairs them with a
    fresh engine and leaves the game sound and waiting for [start]. *)
Theorem reset_ok (rng : nat → Z) (pos : nat) :
  ∃ g, reset rng pos = Some g ∧ game_ok g ∧
    deployed GRID_SIZE STANDARD_SHIPS (player_board g) ∧
    deployed GRID_SIZE STANDARD_SHIPS (ai_board g) ∧
    remaining_ships (ai g) = STANDARD_SHIPS ∧
    state g = Ready ∧ winner g = None ∧ open_total g = 200%nat.
Proof.
  destruct (reset_deploys rng pos) as (g & Hrun & Hp & Ha & Hai & Hst & Hw & _).
  exists g. split; [done|]. split; [apply deployed_game_ok; try done; by rewrite Hai|].
  split; [done|]. split; [done|]. split; [by rewrite Hai|]. split; [done|].
  split; [done|]. unfold open_total.
  by rewrite (deployed_open_cells _ _ _ Hp), (deployed_open_cells _ _ _ Ha).
Qed.

(** A game of the program ends: from [reset] and [start] on, whatever the
    random draws, the clicks and the float arithmetic, every shot keeps the
    game sound and no more than 200 shots can be fired. *)
Theorem standard_game_bounded `{FloatOps F} (rng : nat → Z) (pos : nat) :
  ∃ g, reset rng pos = Some g ∧ state (start g) = PlayerTurn ∧
    ∀ (m : nat) (g' : Game), nsteps (turn (F:=F)) m (start g) g' →
      game_ok g' ∧ (m + open_total g' = 200)%nat.
Proof.
  destruct (reset_deploys rng pos) as (g & Hrun & Hp & Ha & Hai & Hst & _).
  exists g. split; [done|]. unfold start. rewrite Hst. split; [done|].
  set (g0 := mkGame _ _ _ _ _ _ _).
  assert (Hok0 : game_ok g0).
  { apply deployed_game_ok; try done. unfold g0. cbn [ai]. by rewrite Hai. }
  assert (Hopen0 : open_total g0 = 200%nat).
  { unfold open_total, g0. cbn [player_board ai_board].
    by rewrite (deployed_open_cells _ _ _ Hp), (deployed_open_cells _ _ _ Ha). }
  intros m g' Hsteps. rewrite <- Hopen0. clear Hopen0.
  induction Hsteps as [g1|m g1 g2 g3 Hturn Hsteps IH]; [done|].
  destruct (turn_step_aux g1 g2 Hok0 Hturn) as [Hok1 Hstep].
  destruct (IH Hok1) as [Hok3 Hm]. split; [done|]. lia.
Qed.

(** The engine's turn on a sound game whose player still has a ship cell:
    [ai_take_shot] never raises, fires at a cell [is_valid_shot] accepts on
    the player's board, touches neither the engine's board nor the engine,
    and ends the game with the engine as winner exactly when the shot sinks
    the last ship; otherwise the engine shoots again after a hit and the turn
    passes to the player after a miss. *)
Theorem ai_take_shot_spec `{FloatOps F} (g : Game) :
  game_ok g → ship_left (player_board g) →
  ∃ g' rc rep,
    ai_take_shot (F:=F) g = Some g' ∧
    is_valid_shot (player_board g) rc.1 rc.2 = Some true ∧
    receive_shot (player_board g) rc.1 rc.2 = Some (rep, player_board g') ∧
    last_ai_shot g' = Some rc ∧
    ai_board g' = ai_board g ∧ ai g' = ai g ∧ last_player_shot g' = last_player_shot g ∧
    game_ok g' ∧ (open_total g' + 1 = open_total g)%nat ∧
    (all_ships_sunk (player_board g') = true →
       state g' = GameOver ∧ winner g' = Some WinnerAI) ∧
    (all_ships_sunk (player_board g') = false →
       state g' = (if hit rep then AiTurn else PlayerTurn) ∧ winner g' = winner g).
Proof. apply ai_take_shot_step. Qed.


Lemma strip_score_ranked (n : Z) (heat kn : list (list Z)) (ranked l : list (Z * Z * Z)) :
  (∀ h r c, (h, r, c) ∈ ranked →
     inb n r c ∧ grid_get kn r c = Some UNKNOWN ∧ grid_get heat r c = Some h) →
  NoDup l → l ⊆ ranked →
  NoDup (strip_score <$> l) ∧
  ∀ rc, rc ∈ strip_score <$> l → inb n rc.1 rc.2 ∧ grid_get kn rc.1 rc.2 = Some UNKNOWN.
Proof.
  intros Hmem Hnd Hsub. split.
  - apply NoDup_fmap_2_strong; [|done].
    intros [[h1 r1] c1] [[h2 r2] c2] H1 H2 Heq. injection Heq as -> ->.
    apply Hsub, Hmem in H1 as (_ & _ & H1). apply Hsub, Hmem in H2 as (_ & _ & H2).
    congruence.
  - intros rc Hrc. apply list_elem_of_fmap in Hrc as ([[h r] c] & -> & Hin).
    apply Hsub, Hmem in Hin as (? & ? & _). done.
Qed.

(** [_top_candidates] returns at most [k] cells, no cell twice, and only
    Unknown cells of the grid. *)
Theorem top_candidates_bounds (a : BattleshipAI) (heat kn : list (list Z)) (k : Z) :
  let n := ai_size a in
  wf_grid n heat → wf_grid n kn → 0 ≤ k →
  ∃ res, top_candidates a heat kn k = Some res ∧
    Z.of_nat (length res) ≤ k ∧ NoDup res ∧
    ∀ rc, rc ∈ res → inb n rc.1 rc.2 ∧ grid_get kn rc.1 rc.2 = Some UNKNOWN.
Proof.
  intros n Hheat Hkn Hk.
  destruct (top_candidates_spec a heat kn k Hheat Hkn Hk)
    as (ranked & res & _ & Hnd & Hmem & Hrun & Hpos & Hall).
  exists res. split; [done|]. fold n in Hmem.
  set (top := take (Z.to_nat k) ranked) in *.
  assert (Htop : NoDup top ∧ top ⊆ ranked ∧ Z.of_nat (length top) ≤ k).
  { split.
    { rewrite <- (take_drop (Z.to_nat k) ranked) in Hnd. by apply NoDup_app in Hnd as [? _]. }
    split; [apply subseteq_take|].
    unfold top. rewrite length_take. lia. }
  destruct Htop as (Hndt & Hsub & Hlen).
  destruct (decide (Exists positive_score top)) as [Hex|Hno].
  - rewrite (Hpos Hex). rewrite length_fmap.
    pose proof (length_filter positive_score top) as Hle.
    destruct (strip_score_ranked n heat kn ranked (filter positive_score top)) as [H1 H2].
    + intros h r c Hin. by apply Hmem.
    + by apply NoDup_filter.
    + intros x Hx. apply list_elem_of_filter in Hx as [_ Hx]. by apply Hsub.
    + split; [lia|done].
  - rewrite (Hall Hno). rewrite length_fmap.
    destruct (strip_score_ranked n heat kn ranked top) as [H1 H2]; try done.
    intros h r c Hin. by apply Hmem.
Qed.

(** * Sunk detection over a sequence of shots *)






(** * The heat map, cell by cell *)

Lemma sumZ_app (l1 l2 : list Z) : sumZ (l1 ++ l2) = sumZ l1 + sumZ l2.
Proof. unfold sumZ. induction l1 as [|x l1 IH]; cbn [app foldr]; lia. Qed.

Lemma sumZ_indicator {A} (t : A → bool) (l : list A) :
  sumZ ((λ x, if t x then 1 else 0) <$> l) = Z.of_nat (length (filter (λ x, t x = true) l)).
Proof.
  unfold sumZ. induction l as [|x l IH]; [done|]. rewrite fmap_cons, filter_cons.
  cbn [foldr]. rewrite IH. destruct (t x); [rewrite decide_True by done|
    rewrite decide_False by done]; cbn [length]; lia.
Qed.

Lemma sumZ_zero {A} (f : A → Z) (l : list A) :
  (∀ x, x ∈ l → f x = 0) → sumZ (f <$> l) = 0.
Proof.
  unfold sumZ. induction l as [|x l IH]; intros Hz; [done|]. rewrite fmap_cons.
  cbn [foldr]. rewrite IH by (intros y Hy; apply Hz; by right).
  rewrite (Hz x) by left. done.
Qed.

Lemma for_each_add {A} (n : Z) (xs : list A)
    (body : A → list (list Z) → option (list (list Z))) (δ : A → Z → Z → Z) :
  (∀ x h, x ∈ xs → wf_grid n h →
     ∃ h', body x h = Some h' ∧ wf_grid n h' ∧
       ∀ r c, inb n r c → cell_at h' r c = cell_at h r c + δ x r c) →
  ∀ h, wf_grid n h →
    ∃ h', for_each xs body h = Some h' ∧ wf_grid n h' ∧
      ∀ r c, inb n r c → cell_at h' r c = cell_at h r c + sumZ ((λ x, δ x r c) <$> xs).
Proof.
  induction xs as [|x xs IH]; intros Hbody h Hwf.
  - exists h. split; [done|]. split; [done|]. intros r c _. cbn. lia.
  - destruct (Hbody x h) as (h1 & Hstep & Hwf1 & Hget1); [left|done|].
    destruct (IH (λ y g Hy, Hbody y g (list_elem_of_further _ _ _ Hy)) h1 Hwf1)
      as (h' & Hrun & Hwf' & Hget').
    exists h'. cbn [for_each]. rewrite Hstep. cbn [mbind option_bind].
    split; [done|]. split; [done|]. intros r c Hrc.
    rewrite Hget', Hget1 by done. rewrite fmap_cons. unfold sumZ. cbn [foldr]. lia.
Qed.

Lemma for_each_rect {S} (xs ys : list Z) (body : Z → Z → S → option S) (s : S) :
  for_each xs (λ r, for_each ys (body r)) s =
  for_each (xs ≫= λ r, pair r <$> ys) (λ rc, body rc.1 rc.2) s.
Proof.
  rewrite for_each_bind. apply for_each_ext. intros r t _. by rewrite for_each_fmap.
Qed.

Lemma heat_ship_adds (a : BattleshipAI) (k : list (list Z)) (clusters : list cluster)
    (j : nat) (len : Z) (heat : list (list Z)) :
  let n := ai_size a in
  wf_grid n k → wf_grid n heat →
  ∃ heat', heat_ship a k clusters len heat = Some heat' ∧ wf_grid n heat' ∧
    ∀ r c, inb n r c →
      cell_at heat' r c =
        cell_at heat r c +
        sumZ ((λ p, if adds_to n k clusters r c p then 1 else 0) <$> candidates n j [len]).
Proof.
  intros n Hk Hheat. unfold heat_ship. fold n. rewrite !for_each_rect.
  assert (Hstep : ∀ hz (o : Z * Z) (h : list (list Z)), wf_grid n h →
            ∃ h', try_placement a k clusters len hz o.1 o.2 h = Some h' ∧ wf_grid n h' ∧
              ∀ r c, inb n r c →
                cell_at h' r c =
                  cell_at h r c +
                  (if adds_to n k clusters r c (mkPlacement j len hz o.1 o.2) then 1 else 0)).
  { intros hz o h Hh.
    destruct (try_placement_spec a k clusters len hz o.1 o.2 h Hk Hh)
      as (h' & Hrun & Hwf' & Hget). exists h'. split; [done|]. split; [done|]. exact Hget. }
  destruct (for_each_add n (origins n len true)
              (λ rc, try_placement a k clusters len true rc.1 rc.2)
              (λ o r c, if adds_to n k clusters r c (mkPlacement j len true o.1 o.2)
                        then 1 else 0)) with (h := heat)
    as (heat1 & Hrun1 & Hwf1 & Hget1); [by intros o h _ Hh; apply Hstep|done|].
  destruct (for_each_add n (origins n len false)
              (λ rc, try_placement a k clusters len false rc.1 rc.2)
              (λ o r c, if adds_to n k clusters r c (mkPlacement j len false o.1 o.2)
                        then 1 else 0)) with (h := heat1)
    as (heat2 & Hrun2 & Hwf2 & Hget2); [by intros o h _ Hh; apply Hstep|done|].
  unfold origins in Hrun1, Hrun2.
  exists heat2. split.
  { rewrite Hrun1.
    change (for_each (range (n - len + 1))
              (λ r, for_each (range n) (λ c, try_placement a k clusters len false r c))
              heat1 = Some heat2).
    rewrite for_each_rect. exact Hrun2. }
  split; [done|]. intros r c Hrc.
  rewrite Hget2, Hget1 by done. cbn [candidates]. rewrite app_nil_r, fmap_app, sumZ_app.
  rewrite <- !list_fmap_compose. unfold compose. lia.
Qed.

Lemma candidates_cons (n : Z) (j : nat) (len : Z) (ships : list Z) :
  candidates n j (len :: ships) = candidates n j [len] ++ candidates n (S j) ships.
Proof. cbn [candidates]. by rewrite app_nil_r, <- app_assoc. Qed.

Lemma heat_ships_adds (a : BattleshipAI) (k : list (list Z)) (clusters : list cluster)
    (ships : list Z) :
  let n := ai_size a in
  wf_grid n k →
  ∀ (j : nat) (heat : list (list Z)), wf_grid n heat →
    ∃ heat', for_each ships (heat_ship a k clusters) heat = Some heat' ∧ wf_grid n heat' ∧
      ∀ r c, inb n r c →
        cell_at heat' r c =
          cell_at heat r c +
          sumZ ((λ p, if adds_to n k clusters r c p then 1 else 0) <$> candidates n j ships).
Proof.
  intros n Hk. induction ships as [|len ships IH]; intros j heat Hheat.
  - exists heat. split; [done|]. split; [done|]. intros r c _. cbn. lia.
  - destruct (heat_ship_adds a k clusters j len heat Hk Hheat) as (h1 & Hrun1 & Hwf1 & Hget1).
    destruct (IH (S j) h1 Hwf1) as (h' & Hrun & Hwf' & Hget').
    exists h'. cbn [for_each]. rewrite Hrun1. cbn [mbind option_bind].
    split; [done|]. split; [done|]. intros r c Hrc. fold n in Hget1.
    rewrite candidates_cons, fmap_app, sumZ_app. rewrite Hget', Hget1 by done. lia.
Qed.

Lemma elem_of_origins (n len : Z) (h : bool) (o : Z * Z) :
  o ∈ origins n len h ↔ considered n o.1 o.2 len h.
Proof.
  unfold origins, considered. destruct h; rewrite list_elem_of_bind; split.
  - intros (r & Ho & Hr). apply list_elem_of_fmap in Ho as (c & -> & Hc).
    cbn. by rewrite elem_of_range in Hr, Hc.
  - intros [Hr Hc]. exists o.1. rewrite elem_of_range. split; [|done].
    apply list_elem_of_fmap. exists o.2. rewrite elem_of_range. by destruct o.
  - intros (r & Ho & Hr). apply list_elem_of_fmap in Ho as (c & -> & Hc).
    cbn. by rewrite elem_of_range in Hr, Hc.
  - intros [Hr Hc]. exists o.1. rewrite elem_of_range. split; [|done].
    apply list_elem_of_fmap. exists o.2. rewrite elem_of_range. by destruct o.
Qed.

Lemma NoDup_rect (xs ys : list Z) :
  NoDup xs → NoDup ys → NoDup (xs ≫= λ r, pair r <$> ys).
Proof.
  intros Hxs Hys. apply NoDup_bind; [| |done].
  - intros r1 r2 rc _ _ H1 H2.
    apply list_elem_of_fmap in H1 as (c1 & -> & _).
    apply list_elem_of_fmap in H2 as (c2 & Heq & _). congruence.
  - intros r _. apply NoDup_fmap_2; [|done]. intros c1 c2. congruence.
Qed.

Lemma NoDup_origins (n len : Z) (h : bool) : NoDup (origins n len h).
Proof. unfold origins. destruct h; apply NoDup_rect; apply NoDup_range. Qed.

Lemma elem_of_candidates (n : Z) (ships : list Z) (p : Placement) :
  ∀ j : nat, p ∈ candidates n j ships ↔
    (j ≤ pl_ship p)%nat ∧ ships !! (pl_ship p - j)%nat = Some (pl_length p) ∧
    considered n (pl_row p) (pl_col p) (pl_length p) (pl_horizontal p).
Proof.
  induction ships as [|len ships IH]; intros j.
  - cbn. split; [by intros ?%elem_of_nil|]. by intros (_ & ? & _).
  - cbn [candidates]. rewrite !elem_of_app, !list_elem_of_fmap, IH.
    setoid_rewrite elem_of_origins. split.
    + intros [(o & -> & Ho)|[(o & -> & Ho)|(Hj & Hl & Hc)]]; cbn.
      * rewrite Nat.sub_diag. done.
      * rewrite Nat.sub_diag. done.
      * split; [lia|]. split; [|done].
        replace (pl_ship p - j)%nat with (S (pl_ship p - S j)) by lia. done.
    + intros (Hj & Hl & Hc). destruct (decide (pl_ship p = j)) as [Heq|Hne].
      * rewrite Heq, Nat.sub_diag in Hl. cbn in Hl. injection Hl as Hl.
        destruct p as [i l h r c]. cbn in *. subst.
        destruct h; [left|right; left]; by exists (r, c).
      * right. right. split; [lia|]. split; [|done].
        replace (pl_ship p - j)%nat with (S (pl_ship p - S j)) in Hl by lia. done.
Qed.

Lemma NoDup_candidates (n : Z) (ships : list Z) : ∀ j : nat, NoDup (candidates n j ships).
Proof.
  induction ships as [|len ships IH]; intros j; [constructor|].
  cbn [candidates]. apply NoDup_app. split; [|split].
  - apply NoDup_fmap_2; [|apply NoDup_origins]. intros [r1 c1] [r2 c2] Heq.
      cbn in Heq. by injection Heq as -> ->.
  - intros p Hp Hin. apply list_elem_of_fmap in Hp as (o & -> & _).
    apply elem_of_app in Hin as [Hin|Hin].
    + apply list_elem_of_fmap in Hin as (o' & Heq & _). discriminate Heq.
    + apply elem_of_candidates in Hin as (Hj & _). cbn in Hj. lia.
  - apply NoDup_app. split; [|split; [|by apply IH]].
    + apply NoDup_fmap_2; [|apply NoDup_origins]. intros [r1 c1] [r2 c2] Heq.
      cbn in Heq. by injection Heq as -> ->.
    + intros p Hp Hin. apply list_elem_of_fmap in Hp as (o & -> & _).
      apply elem_of_candidates in Hin as (Hj & _). cbn in Hj. lia.
Qed.

Lemma passes_iff_survives (n : Z) (k : list (list Z)) (visited : list (list bool))
    (clusters : list cluster) (p : Placement) :
  clusters_inv n k visited clusters →
  considered n (pl_row p) (pl_col p) (pl_length p) (pl_horizontal p) →
  passes n k clusters p = true ↔
  survives k clusters (pl_row p) (pl_col p) (pl_length p) (pl_horizontal p).
Proof.
  intros Hinv Hcons. unfold passes. cbv zeta.
  set (cells := placement_cells _ _ _ _).
  rewrite andb_true_iff, bool_decide_eq_true.
  rewrite (placement_consistent_spec n k visited) by done. unfold survives. fold cells.
  assert (clear_of_misses n k cells ↔
          ∀ rc, rc ∈ cells → grid_get k rc.1 rc.2 ≠ Some MISS) as ->; [|tauto].
  unfold clear_of_misses. rewrite Forall_forall. split.
  - intros Hc rc Hrc. by apply Hc.
  - intros Hc rc Hrc. split; [|by apply Hc].
    apply elem_of_placement_cells in Hrc as (i & Hi & ->).
    unfold considered, place_row, place_col, inb in *. simpl.
    destruct (pl_horizontal p); lia.
Qed.

Lemma counted_placements_filter (n : Z) (k : list (list Z)) (visited : list (list bool))
    (clusters : list cluster) (ships : list Z) (r c : Z) :
  clusters_inv n k visited clusters →
  counted_placements n k clusters ships r c
    (filter (λ p, adds_to n k clusters r c p = true) (candidates n 0 ships)).
Proof.
  intros Hinv. split; [apply NoDup_filter, NoDup_candidates|]. intros p.
  rewrite list_elem_of_filter, elem_of_candidates, Nat.sub_0_r. unfold adds_to.
  rewrite andb_true_iff, bool_decide_eq_true. split.
  - intros ([Hpass Hcov] & _ & Hl & Hcons). split; [done|]. split; [done|].
    split; [|done]. by apply (passes_iff_survives n k visited).
  - intros (Hl & Hcons & Hsurv & Hcov). split; [|split; [lia|done]].
    split; [|done]. by apply (passes_iff_survives n k visited).
Qed.

Lemma counted_placements_length (n : Z) (k : list (list Z)) (clusters : list cluster)
    (ships : list Z) (r c : Z) (l1 l2 : list Placement) :
  counted_placements n k clusters ships r c l1 →
  counted_placements n k clusters ships r c l2 → length l1 = length l2.
Proof.
  intros [Hnd1 H1] [Hnd2 H2]. apply Permutation_length, NoDup_Permutation; [done..|].
  intros p. by rewrite H1, H2.
Qed.

Lemma heatmap_base_value (a : BattleshipAI) (k : list (list Z)) (ships : list Z) :
  let n := ai_size a in
  wf_grid n k →
  ∃ clusters visited base,
    hit_clusters a k = Some clusters ∧ clusters_inv n k visited clusters ∧
    heatmap_base a k ships = Some base ∧ wf_grid n base ∧
    ∀ r c, inb n r c →
      cell_at base r c =
        Z.of_nat (length (filter (λ p, adds_to n k clusters r c p = true)
                            (candidates n 0 ships))).
Proof.
  intros n Hk. destruct (hit_clusters_spec a k Hk) as (clusters & visited & Hcl & Hinv).
  exists clusters, visited. unfold heatmap_base. rewrite Hcl. cbn [mbind option_bind].
  destruct (heat_ships_adds a k clusters ships Hk 0%nat (make_grid n 0))
    as (base & Hrun & Hwf & Hget); [apply wf_grid_make; by destruct Hk|].
  exists base. split; [done|]. split; [done|]. split; [done|]. split; [done|].
  intros r c Hrc. rewrite Hget by done. unfold cell_at at 1.
  rewrite grid_get_make by done. cbn [default]. by rewrite sumZ_indicator.
Qed.

Lemma sumZ_weighted {A} (w : Z) (t : A → bool) (l : list A) :
  sumZ ((λ x, if t x then w else 0) <$> l) =
  w * Z.of_nat (length (filter (λ x, t x = true) l)).
Proof.
  unfold sumZ. induction l as [|x l IH]; [cbn; lia|]. rewrite fmap_cons, filter_cons.
  cbn [foldr]. rewrite IH. destruct (t x); [rewrite decide_True by done|
    rewrite decide_False by done]; cbn [length]; lia.
Qed.

Lemma adjacentb_adjacent (a b : Z * Z) : adjacentb a b = true ↔ adjacent a b.
Proof.
  unfold adjacentb, adjacent. rewrite bool_decide_eq_true, Exists_exists.
  split; intros (d & Hd & Heq); exists d; (split; [done|]).
  - destruct b. cbn in Heq. destruct Heq as [-> ->]. done.
  - rewrite Heq. done.
Qed.

Lemma boost_neighbor_adds (n : Z) (k : list (list Z)) (r c : Z) (d : Z * Z)
    (heat : list (list Z)) :
  wf_grid n k → wf_grid n heat →
  ∃ heat', boost_neighbor n k r c d heat = Some heat' ∧ wf_grid n heat' ∧
    ∀ r' c', inb n r' c' →
      cell_at heat' r' c' =
        cell_at heat r' c' +
        (if bool_decide (r' = r + d.1 ∧ c' = c + d.2 ∧ grid_get k r' c' = Some UNKNOWN)
         then 3 else 0).
Proof.
  intros Hk Hwf. unfold boost_neighbor.
  destruct (bool_decide (0 ≤ r + d.1 < n) && bool_decide (0 ≤ c + d.2 < n)) eqn:Hb.
  2:{ exists heat. split; [done|]. split; [done|]. intros r' c' [Hr Hc].
      rewrite bool_decide_eq_false_2; [lia|]. intros (-> & -> & _).
      rewrite andb_false_iff, !bool_decide_eq_false in Hb. tauto. }
  apply andb_true_iff in Hb as [Hr Hc]. apply bool_decide_eq_true in Hr, Hc.
  assert (Hin : inb n (r + d.1) (c + d.2)) by done.
  destruct (grid_get_is_Some _ _ _ _ Hk Hin) as [cell Hcell]. rewrite Hcell.
  cbn [mbind option_bind]. case_bool_decide as Hunk.
  2:{ exists heat. split; [done|]. split; [done|]. intros r' c' _.
      rewrite bool_decide_eq_false_2; [lia|]. intros (-> & -> & Hu).
      rewrite Hcell in Hu. by injection Hu. }
  subst cell. destruct (grid_add_spec n heat _ _ 3 Hwf Hin) as (heat' & Hadd & Hwf' & Hget).
  exists heat'. split; [done|]. split; [done|]. intros r' c' Hrc'.
  unfold cell_at at 1. rewrite Hget by done.
  destruct (decide ((r', c') = (r + d.1, c + d.2))) as [Heq|Hne].
  - injection Heq as -> ->. rewrite bool_decide_eq_true_2 by done.
    by rewrite (cell_at_get n heat).
  - rewrite bool_decide_eq_false_2; [fold (cell_at heat r' c'); lia|].
    intros (-> & -> & _). done.
Qed.

Lemma boost_cell_adds (n : Z) (k : list (list Z)) (r c : Z) (heat : list (list Z)) :
  wf_grid n k → inb n r c → wf_grid n heat →
  ∃ heat', boost_cell n k r c heat = Some heat' ∧ wf_grid n heat' ∧
    ∀ r' c', inb n r' c' →
      cell_at heat' r' c' =
        cell_at heat r' c' +
        (if bool_decide (grid_get k r c = Some HIT) && adjacentb (r, c) (r', c') &&
            bool_decide (grid_get k r' c' = Some UNKNOWN)
         then 3 else 0).
Proof.
  intros Hk Hrc Hwf. unfold boost_cell.
  destruct (grid_get_is_Some _ _ _ _ Hk Hrc) as [cell Hcell]. rewrite Hcell.
  cbn [mbind option_bind]. case_bool_decide as Hhit.
  2:{ exists heat. split; [done|]. split; [done|]. intros r' c' _.
      rewrite bool_decide_eq_false_2; [cbn; lia|]. intros Heq. by injection Heq. }
  subst cell. rewrite bool_decide_eq_true_2 by done. cbn [andb].
  destruct (for_each_add n DIRS (boost_neighbor n k r c)
              (λ d r' c', if bool_decide (r' = r + d.1 ∧ c' = c + d.2 ∧
                                          grid_get k r' c' = Some UNKNOWN)
                          then 3 else 0)) with (h := heat)
    as (heat' & Hrun & Hwf' & Hget); [|done|].
  { intros d h _ Hh. by apply boost_neighbor_adds. }
  exists heat'. split; [done|]. split; [done|]. intros r' c' Hrc'.
  rewrite Hget by done. f_equal. unfold adjacentb, DIRS, sumZ.
  cbn [fmap list_fmap foldr fst snd].
  destruct (decide (grid_get k r' c' = Some UNKNOWN)) as [Hu|Hu].
  - rewrite (bool_decide_eq_true_2 (grid_get k r' c' = Some UNKNOWN)) by done.
    rewrite andb_true_r.
    repeat case_bool_decide;
      repeat match goal with
             | H : Exists _ _ |- _ => apply Exists_cons in H as [H|H]
             | H : Exists _ [] |- _ => by apply Exists_nil in H
             | H : ¬ Exists _ _ |- _ => rewrite !Exists_cons, Exists_nil in H
             end; cbn [fst snd] in *; try lia; exfalso; intuition lia.
  - rewrite (bool_decide_eq_false_2 (grid_get k r' c' = Some UNKNOWN)) by done.
    rewrite andb_false_r. repeat case_bool_decide; try lia; exfalso; intuition.
Qed.

Lemma hit_neighbours_filter (n : Z) (k : list (list Z)) (r c : Z) :
  hit_neighbours n k r c
    (filter (λ a, bool_decide (grid_get k a.1 a.2 = Some HIT) && adjacentb a (r, c) = true)
       (all_cells n)).
Proof.
  split; [apply NoDup_filter, NoDup_all_cells|]. intros a.
  rewrite list_elem_of_filter, elem_of_all_cells, andb_true_iff, bool_decide_eq_true.
  rewrite adjacentb_adjacent. unfold hit_cell. tauto.
Qed.

Lemma hit_neighbours_length (n : Z) (k : list (list Z)) (r c : Z) (l1 l2 : list (Z * Z)) :
  hit_neighbours n k r c l1 → hit_neighbours n k r c l2 → length l1 = length l2.
Proof.
  intros [Hnd1 H1] [Hnd2 H2]. apply Permutation_length, NoDup_Permutation; [done..|].
  intros p. by rewrite H1, H2.
Qed.

Lemma heatmap_unpruned_value (a : BattleshipAI) (k : list (list Z)) (ships : list Z) :
  let n := ai_size a in
  wf_grid n k →
  ∃ clusters visited base raw,
    hit_clusters a k = Some clusters ∧ clusters_inv n k visited clusters ∧
    heatmap_base a k ships = Some base ∧ wf_grid n base ∧
    heatmap_unpruned a k ships = Some raw ∧ wf_grid n raw ∧
    ∀ r c, inb n r c →
      cell_at base r c =
        Z.of_nat (length (filter (λ p, adds_to n k clusters r c p = true)
                            (candidates n 0 ships))) ∧
      cell_at raw r c =
        cell_at base r c +
        (if bool_decide (grid_get k r c = Some UNKNOWN) then
           3 * Z.of_nat (length (filter
                 (λ a, bool_decide (grid_get k a.1 a.2 = Some HIT) && adjacentb a (r, c)
                       = true) (all_cells n)))
         else 0).
Proof.
  intros n Hk.
  destruct (heatmap_base_value a k ships Hk)
    as (clusters & visited & base & Hcl & Hinv & Hbase & Hwfb & Hgetb).
  exists clusters, visited, base. unfold heatmap_unpruned. rewrite Hbase.
  cbn [mbind option_bind]. fold n. rewrite for_each_nested.
  destruct (for_each_add n (all_cells n) (λ rc, boost_cell n k rc.1 rc.2)
              (λ rc r' c', if bool_decide (grid_get k rc.1 rc.2 = Some HIT) &&
                              adjacentb rc (r', c') &&
                              bool_decide (grid_get k r' c' = Some UNKNOWN)
                           then 3 else 0)) with (h := base)
    as (raw & Hrun & Hwfr & Hgetr); [|done|].
  { intros [r c] h Hin Hh. apply elem_of_all_cells in Hin. by apply boost_cell_adds. }
  exists raw. split; [done|]. split; [done|]. split; [done|]. split; [done|].
  split; [done|]. split; [done|]. intros r c Hrc. split; [by apply Hgetb|].
  rewrite Hgetr by done. f_equal. case_bool_decide as Hu.
  - rewrite <- (sumZ_weighted 3). f_equal. apply list_fmap_ext. intros _ rc _.
    by rewrite andb_true_r.
  - apply sumZ_zero. intros rc _. by rewrite andb_false_r.
Qed.

(** Every cell of the map [heatmap] returns has the value [heat_value]
    describes, over the fleet that [remaining_ships or self.remaining_ships]
    selects. *)
Lemma heatmap_value (a : BattleshipAI) (k : list (list Z)) (ships_arg : option (list Z)) :
  let n := ai_size a in
  let ships := py_or ships_arg (remaining_ships a) in
  wf_grid n k →
  ∃ clusters visited base heat,
    hit_clusters a k = Some clusters ∧ clusters_inv n k visited clusters ∧
    heatmap_base a k ships = Some base ∧ wf_grid n base ∧
    heatmap a k ships_arg = Some heat ∧ wf_grid n heat ∧
    ∀ r c, inb n r c →
      heat_value n k clusters ships r c (cell_at base r c) (cell_at heat r c).
Proof.
  intros n ships Hk.
  destruct (heatmap_unpruned_value a k ships Hk)
    as (clusters & visited & base & raw & Hcl & Hinv & Hbase & Hwfb & Hraw & Hwfr & Hval).
  fold n in Hinv, Hwfb, Hwfr, Hval.
  assert (Hhv : ∀ r c v, inb n r c →
            (parity_pruned n k ships r c → v = Z.quot (cell_at raw r c) 4) →
            (¬ parity_pruned n k ships r c → v = cell_at raw r c) →
            heat_value n k clusters ships r c (cell_at base r c) v).
  { intros r c v Hrc Hp Hnp. destruct (Hval r c Hrc) as [Hb Hr].
    eexists _, _. split; [by apply (counted_placements_filter n k visited)|].
    split; [apply hit_neighbours_filter|]. split; [exact Hb|]. cbv zeta.
    rewrite <- Hr. done. }
  assert (Hall : Forall (λ rc : Z * Z, inb n rc.1 rc.2) (all_cells n)).
  { apply Forall_forall. intros rc. by rewrite elem_of_all_cells. }
  exists clusters, visited, base. unfold heatmap. cbv zeta. fold n ships.
  rewrite Hraw. cbn [mbind option_bind]. rewrite (any_hit_spec n) by done.
  cbn [mbind option_bind]. clearbody ships.
  destruct (decide (Exists (λ rc, grid_get k rc.1 rc.2 = Some HIT) (all_cells n)))
    as [Hex|Hno].
  { rewrite (bool_decide_eq_true_2 (Exists _ _)) by done. cbn [negb andb].
    exists raw. split; [done|]. split; [done|]. split; [done|]. split; [done|].
    split; [done|]. split; [done|]. intros r c Hrc. apply Hhv; [done| |done].
    intros (Hnh & _). exfalso. apply Exists_exists in Hex as ([r' c'] & Hin & Hh).
    apply elem_of_all_cells in Hin. by apply (Hnh r' c'). }
  rewrite (bool_decide_eq_false_2 (Exists _ _)) by done. cbn [negb andb].
  assert (Hnh : ∀ r c, inb n r c → grid_get k r c ≠ Some HIT).
  { intros r c Hrc Hh. apply Hno, Exists_exists. exists (r, c).
    split; [by apply elem_of_all_cells|done]. }
  destruct ships as [|x l].
  { rewrite bool_decide_eq_false_2 by (intros Hne; by apply Hne).
    exists raw. split; [done|]. split; [done|]. split; [done|]. split; [done|].
    split; [done|]. split; [done|]. intros r c Hrc. apply Hhv; [done| |done].
    intros (_ & (m & Hm & _) & _). discriminate Hm. }
  rewrite bool_decide_eq_true_2 by done. cbn [py_min mbind option_bind].
  case_bool_decide as Hm.
  - destruct (prune_spec n raw Hwfr) as (heat & Hrun & Hwf & Hget). rewrite Hrun.
    exists heat. split; [done|]. split; [done|]. split; [done|]. split; [done|].
    split; [done|]. split; [done|]. intros r c Hrc. apply Hhv; [done|..];
      rewrite Hget by done.
    + intros (_ & _ & Hpar). by rewrite bool_decide_eq_true_2.
    + intros Hnp. rewrite bool_decide_eq_false_2; [done|]. intros Hpar. apply Hnp.
      split; [done|]. split; [|done]. exists (foldl Z.min x l). done.
  - exists raw. split; [done|]. split; [done|]. split; [done|]. split; [done|].
    split; [done|]. split; [done|]. intros r c Hrc. apply Hhv; [done| |done].
    intros (_ & (m & Hmin & Hle) & _). cbn in Hmin. injection Hmin as <-. done.
Qed.

(** C1: the base heat of every cell is the number of placements [heatmap]
    considers (a ship of the list, an orientation, an origin that keeps it
    on the grid) that cover the cell and satisfy (i) no covered cell is a
    Miss, (ii) every cluster met is no larger than the ship and lies inside
    it, (iii) with a matching orientation if the cluster has one, (iv) at
    most one cluster is met; such a placement adds one to each cell it
    covers, and any other placement adds nothing anywhere.  The returned map
    is the base heat plus the adjacency boost, quartered under parity
    pruning. *)
Theorem placement_counts_iff_survives (a : BattleshipAI) (k : list (list Z))
    (ships_arg : option (list Z)) :
  let n := ai_size a in
  let ships := py_or ships_arg (remaining_ships a) in
  wf_grid n k →
  ∃ clusters visited base heat,
    hit_clusters a k = Some clusters ∧ clusters_inv n k visited clusters ∧
    heatmap_base a k ships = Some base ∧ wf_grid n base ∧
    heatmap a k ships_arg = Some heat ∧ wf_grid n heat ∧
    (∀ r c, inb n r c →
       heat_value n k clusters ships r c (cell_at base r c) (cell_at heat r c)) ∧
    (∀ length horizontal r0 c0 heat0,
       considered n r0 c0 length horizontal → wf_grid n heat0 →
       ∃ heat1,
         try_placement a k clusters length horizontal r0 c0 heat0 = Some heat1 ∧
         wf_grid n heat1 ∧
         (survives k clusters r0 c0 length horizontal →
            ∀ r c, inb n r c →
              cell_at heat1 r c =
                cell_at heat0 r c +
                (if decide ((r, c) ∈ placement_cells r0 c0 length horizontal)
                 then 1 else 0)) ∧
         (¬ survives k clusters r0 c0 length horizontal → heat1 = heat0)).
Proof.
  intros n ships Hk.
  destruct (heatmap_value a k ships_arg Hk)
    as (clusters & visited & base & heat & Hcl & Hinv & Hbase & Hwfb & Hheat & Hwf & Hval).
  exists clusters, visited, base, heat. fold n ships in Hinv, Hbase, Hwfb, Hwf, Hval.
  split; [done|]. split; [done|]. split; [done|]. split; [done|]. split; [done|].
  split; [done|]. split; [done|].
  intros length horizontal r0 c0 heat0 Hcons Hwf0.
  destruct (try_placement_spec a k clusters length horizontal r0 c0 heat0 Hk Hwf0)
    as (heat1 & Hrun & Hwf1 & Hget).
  exists heat1. split; [done|]. split; [done|]. fold n in Hget.
  pose proof (passes_iff_survives n k visited clusters
                (mkPlacement 0 length horizontal r0 c0) Hinv Hcons) as Hiff.
  unfold passes in Hiff. cbn [pl_length pl_horizontal pl_row pl_col] in Hiff.
  split.
  - intros Hs r c Hrc. rewrite Hget by done. apply Hiff in Hs. rewrite Hs. cbn [andb].
    destruct (decide ((r, c) ∈ placement_cells r0 c0 length horizontal)).
    + by rewrite bool_decide_eq_true_2.
    + by rewrite bool_decide_eq_false_2.
  - intros Hns.
    assert (Hf : bool_decide (clear_of_misses n k (placement_cells r0 c0 length horizontal)) &&
                 placement_consistent_with_clusters
                   (placement_cells r0 c0 length horizontal) clusters length horizontal
                 = false).
    { apply not_true_is_false. intros Ht. by apply Hns, Hiff. }
    apply (grid_ext n); [done..|]. intros r c Hrc.
    rewrite !(cell_at_get n) by done. f_equal. rewrite Hget by done.
    rewrite Hf. cbn [andb]. lia.
Qed.

Lemma best_counter_gain_value `{FloatOps F} (a : BattleshipAI) (ps heat_p : list (list Z))
    (ships : list Z) :
  let n := ai_size a in
  wf_grid n ps → wf_grid n heat_p → heatmap a ps (Some ships) = Some heat_p →
  ∃ opp : F, best_counter_gain a ps ships = Some opp ∧ counter_gain n ps heat_p opp.
Proof.
  intros n Hps Hwf Hheat. unfold best_counter_gain. rewrite Hheat.
  cbn [mbind option_bind]. cbv zeta. fold n.
  destruct (decide (grid_total heat_p ≤ 0)) as [Hz|Hnz].
  { rewrite bool_decide_eq_true_2 by done. exists f_zero. split; [done|].
    split; [done|]. lia. }
  rewrite bool_decide_eq_false_2 by done. rewrite for_each_nested.
  destruct (best_cell_loop_spec n ps heat_p (all_cells n) 0 Hps Hwf)
    as (best & Hrun & Hbest0 & Hub & Hatt).
  { apply Forall_forall. intros rc. by rewrite elem_of_all_cells. }
  rewrite Hrun. cbn [mbind option_bind]. eexists. split; [done|]. split; [lia|].
  intros _. exists best. split; [|done]. split; [done|]. split.
  - intros r c Hrc Hun. apply (Hub (r, c)); [by apply elem_of_all_cells|done].
  - destruct Hatt as [->|([r c] & Hmem & Hun & Hval)]; [by left|].
    right. exists r, c. apply elem_of_all_cells in Hmem. done.
Qed.

(** [choose_shot] with at least one candidate: the scoring loop runs over
    the candidates with the counter gain of the fleet
    [ai_remaining_ships or STANDARD_SHIPS]. *)
Lemma choose_shot_scores `{FloatOps F} (a : BattleshipAI) (k ps : list (list Z))
    (arg : option (list Z)) :
  let n := ai_size a in
  wf_grid n k → wf_grid n ps →
  ∃ heat tc cands (opp : F),
    heatmap a k (Some (remaining_ships a)) = Some heat ∧
    target_candidates a k = Some tc ∧
    (tc ≠ [] → cands = tc) ∧
    (tc = [] → top_candidates a heat k 8 = Some cands) ∧
    best_counter_gain a ps (py_or arg STANDARD_SHIPS) = Some opp ∧
    (cands = [] → choose_shot (F:=F) a k ps arg = first_unknown k (all_cells n)) ∧
    (∀ first rest, cands = first :: rest →
       choose_shot (F:=F) a k ps arg =
         snd <$> for_each cands (score_candidate heat (grid_total heat) opp)
                   (f_neg_1e9, first)).
Proof.
  intros n Hk Hps.
  destruct (choose_shot_spec (F:=F) a k ps arg Hk Hps)
    as (heat & tc & cands & rc & Hheat & Htc & Hsome & Hnone & _).
  destruct (best_counter_gain_total (F:=F) a ps (py_or arg STANDARD_SHIPS) Hps)
    as (opp & Hopp).
  exists heat, tc, cands, opp. split; [done|]. split; [done|]. split; [done|].
  split; [done|]. split; [done|].
  assert (Hsel : match tc with
                 | [] => top_candidates a heat k 8
                 | _ => Some tc
                 end = Some cands).
  { destruct tc as [|t tc]; [by apply Hnone|]. f_equal. symmetry. by apply Hsome. }
  split.
  - intros ->. unfold choose_shot. rewrite Hheat. cbn [mbind option_bind].
    rewrite Htc. cbn [mbind option_bind]. rewrite Hsel. done.
  - intros first rest ->. unfold choose_shot. rewrite Hheat. cbn [mbind option_bind].
    rewrite Htc. cbn [mbind option_bind]. rewrite Hsel. cbn [mbind option_bind].
    rewrite Hopp. cbn [mbind option_bind].
    by destruct (for_each _ _ _).
Qed.

(** C10: [heatmap] called with the empty list returns the map of the stored
    [remaining_ships], every cell counting the placements of those ships;
    and [choose_shot] called with the empty list scores its candidates
    against the counter gain computed from the heat map of the standard
    fleet [5; 4; 3; 3; 2] on the opponent's grid. *)
Theorem empty_ship_list_falls_back (a : BattleshipAI) (k ps : list (list Z)) :
  let n := ai_size a in
  wf_grid n k → wf_grid n ps →
  (∃ clusters visited base heat,
     hit_clusters a k = Some clusters ∧ clusters_inv n k visited clusters ∧
     heatmap_base a k (remaining_ships a) = Some base ∧
     heatmap a k (Some []) = Some heat ∧
     heatmap a k (Some (remaining_ships a)) = Some heat ∧
     ∀ r c, inb n r c →
       heat_value n k clusters (remaining_ships a) r c (cell_at base r c) (cell_at heat r c)) ∧
  (∀ (F : Type) (HF : FloatOps F),
     ∃ clusters_p visited_p base_p heat_p (opp : F) heat tc cands,
       hit_clusters a ps = Some clusters_p ∧ clusters_inv n ps visited_p clusters_p ∧
       heatmap_base a ps STANDARD_SHIPS = Some base_p ∧
       heatmap a ps (Some STANDARD_SHIPS) = Some heat_p ∧
       (∀ r c, inb n r c →
          heat_value n ps clusters_p STANDARD_SHIPS r c
            (cell_at base_p r c) (cell_at heat_p r c)) ∧
       best_counter_gain (F:=F) a ps STANDARD_SHIPS = Some opp ∧
       counter_gain n ps heat_p opp ∧
       heatmap a k (Some (remaining_ships a)) = Some heat ∧
       target_candidates a k = Some tc ∧
       (tc ≠ [] → cands = tc) ∧
       (tc = [] → top_candidates a heat k 8 = Some cands) ∧
       (cands = [] →
          choose_shot (F:=F) a k ps (Some []) = first_unknown k (all_cells n)) ∧
       (∀ first rest, cands = first :: rest →
          choose_shot (F:=F) a k ps (Some []) =
            snd <$> for_each cands (score_candidate heat (grid_total heat) opp)
                      (f_neg_1e9, first))).
Proof.
  intros n Hk Hps. split.
  - destruct (heatmap_value a k (Some []) Hk)
      as (clusters & visited & base & heat & Hcl & Hinv & Hbase & _ & Hheat & _ & Hval).
    exists clusters, visited, base, heat. cbn [py_or] in Hbase, Hval.
    split; [done|]. split; [done|]. split; [done|]. split; [done|].
    split; [|done]. rewrite <- Hheat. symmetry. apply empty_list_is_falsy.
  - intros F HF.
    destruct (heatmap_value a ps (Some STANDARD_SHIPS) Hps)
      as (clusters_p & visited_p & base_p & heat_p & Hcl & Hinv & Hbase & _ & Hheat &
          Hwf & Hval).
    destruct (best_counter_gain_value (F:=F) a ps heat_p STANDARD_SHIPS Hps Hwf Hheat)
      as (opp & Hopp & Hgain).
    destruct (choose_shot_scores (F:=F) a k ps (Some []) Hk Hps)
      as (heat & tc & cands & opp' & Hh & Htc & Hsome & Hnone & Hopp' & Hfb & Hrun).
    cbn [py_or] in Hopp'. assert (opp' = opp) as -> by congruence.
    exists clusters_p, visited_p, base_p, heat_p, opp, heat, tc, cands.
    split; [done|]. split; [done|]. split; [done|]. split; [done|]. split; [done|].
    split; [done|]. split; [done|]. split; [done|]. split; [done|]. split; [done|].
    split; [done|]. split; done.
Qed.
(** ** Concrete instances of the board, game and search theorems *)

Lemma wf_fleet3 : wf_grid (board_size fleet3) (board_grid fleet3).
Proof. solve_wf. Qed.

Lemma fleet_ok_new3 : fleet_ok (new_board 3).
Proof. apply fleet_ok_fresh. lia. Qed.

Lemma place_fleet3 : place_ship (new_board 3) 0 0 2 true = Some (true, fleet3).
Proof. vm_compute. reflexivity. Qed.

Lemma fleet_ok_fleet3 : fleet_ok fleet3.
Proof. apply (fleet_ok_place (new_board 3) fleet3 0 0 2 true fleet_ok_new3); [lia|exact place_fleet3]. Qed.

Lemma shot_fleet3 : receive_shot fleet3 0 0 = Some (mkReport true None false, hit3).
Proof. vm_compute. reflexivity. Qed.

Lemma ship_left_fleet3 : ship_left fleet3.
Proof. exists 0, 0. split; [unfold inb; simpl; lia|reflexivity]. Qed.

Lemma game_ok_game3 (st : GameState) : game_ok (game3 st).
Proof.
  split; [exact fleet_ok_fleet3|]. split; [exact fleet_ok_fleet3|].
  split; [reflexivity|]. split; [reflexivity|]. intros _. exact ship_left_fleet3.
Qed.

Lemma turn_click3 : turn (F:=Q) (game3 PlayerTurn) after_click3.
Proof.
  apply (turn_player _ (Some (0, 0))); [reflexivity|vm_compute; reflexivity|discriminate].
Qed.

Lemma blank10_no_hit (r c : Z) : inb 10 r c → grid_get blank10 r c ≠ Some HIT.
Proof. intros Hrc. unfold blank10. rewrite grid_get_make by exact Hrc. discriminate. Qed.

Lemma missed2_no_unknown (r c : Z) : inb 2 r c → grid_get missed2 r c ≠ Some UNKNOWN.
Proof. intros Hrc. unfold missed2. rewrite grid_get_make by exact Hrc. discriminate. Qed.

Lemma place_ship_witness :
  let b := new_board 3 in
  let r := 0 in
  let c := 0 in
  let length := 2 in
  let horizontal := true in
  let cells := placement_cells r c length horizontal in
  let free := Forall (λ rc, inb (board_size b) rc.1 rc.2 ∧
                            grid_get (board_grid b) rc.1 rc.2 = Some EMPTY) cells in
  (wf_grid (board_size b) (board_grid b)) ∧
  (can_place b r c length horizontal = Some (bool_decide free) ∧
   (¬ free → place_ship b r c length horizontal = Some (false, b)) ∧
   (free →
      ∃ g', place_ship b r c length horizontal =
              Some (true, mkBoard (board_size b) g'
                            (board_ships b ++ [mkShip length cells 0])
                            (total_ship_cells b + length)) ∧
        wf_grid (board_size b) g' ∧
        ∀ r' c', inb (board_size b) r' c' →
          grid_get g' r' c' =
            if decide ((r', c') ∈ cells) then Some SHIP else grid_get (board_grid b) r' c')).
Proof.
  cbv zeta. split; [solve_wf|]. apply (place_ship_spec (new_board 3) 0 0 2 true). solve_wf.
Defined.

Lemma receive_shot_resolves_witness :
  let b := fleet3 in
  let r := 0 in
  let c := 0 in
  (wf_grid (board_size b) (board_grid b)) ∧
  (∃ valid rep b',
     is_valid_shot b r c = Some valid ∧ receive_shot b r c = Some (rep, b') ∧
     board_size b' = board_size b ∧ total_ship_cells b' = total_ship_cells b ∧
     wf_grid (board_size b) (board_grid b') ∧
     ship_cells <$> board_ships b' = ship_cells <$> board_ships b ∧
     ship_length <$> board_ships b' = ship_length <$> board_ships b ∧
     (valid = false → b' = b ∧ hit rep = false ∧ sunk_length rep = None) ∧
     (valid = true →
        ∃ cell, grid_get (board_grid b) r c = Some cell ∧ cell ≠ HIT ∧ cell ≠ MISS ∧
          hit rep = bool_decide (cell = SHIP) ∧
          (∀ r' c', inb (board_size b) r' c' →
             grid_get (board_grid b') r' c' =
               if decide ((r', c') = (r, c))
               then Some (if decide (cell = SHIP) then HIT else MISS)
               else grid_get (board_grid b) r' c') ∧
          is_valid_shot b' r c = Some false)).
Proof.
  cbv zeta. split; [exact wf_fleet3|]. apply (receive_shot_resolves fleet3 0 0). exact wf_fleet3.
Defined.

Lemma fleet_ok_new_board_witness :
  let n := 3 in
  (0 ≤ n) ∧
  (fleet_ok (new_board n)).
Proof.
  cbv zeta. split; [lia|]. apply (fleet_ok_new_board 3). lia.
Defined.


Lemma fleet_ok_receive_shot_witness :
  let b := fleet3 in
  let b' := hit3 in
  let r := 0 in
  let c := 0 in
  let rep := mkReport true None false in
  (fleet_ok b) ∧
  (receive_shot b r c = Some (rep, b')) ∧
  (fleet_ok b').
Proof.
  cbv zeta. split; [exact fleet_ok_fleet3|]. split; [exact shot_fleet3|].
  apply (fleet_ok_receive_shot fleet3 hit3 0 0 _ fleet_ok_fleet3 shot_fleet3).
Defined.

Lemma place_ship_refuses_overlap_witness :
  let b := fleet3 in
  let r := 0 in
  let c := 1 in
  let length := 2 in
  let horizontal := false in
  let s := ship3 in
  let rc := (0, 1) in
  (fleet_ok b) ∧
  (s ∈ board_ships b) ∧
  (rc ∈ ship_cells s) ∧
  (rc ∈ placement_cells r c length horizontal) ∧
  (place_ship b r c length horizontal = Some (false, b)).
Proof.
  cbv zeta.
  assert (H1 : ship3 ∈ board_ships fleet3) by (left).
  assert (H2 : (0, 1) ∈ ship_cells ship3) by (right; left).
  assert (H3 : (0, 1) ∈ placement_cells 0 1 2 false) by (left).
  split; [exact fleet_ok_fleet3|]. split; [exact H1|]. split; [exact H2|]. split; [exact H3|].
  apply (place_ship_refuses_overlap fleet3 0 1 2 false ship3 (0, 1) fleet_ok_fleet3 H1 H2 H3).
Defined.

Lemma all_ships_sunk_witness :
  let b := fleet3 in
  (fleet_ok b) ∧
  (all_ships_sunk b = true ↔
     board_ships b ≠ [] ∧
     ∀ r c, inb (board_size b) r c → grid_get (board_grid b) r c ≠ Some SHIP).
Proof.
  cbv zeta. split; [exact fleet_ok_fleet3|]. apply (all_ships_sunk_spec fleet3 fleet_ok_fleet3).
Defined.

Lemma get_public_view_witness :
  let b := fleet3 in
  (wf_grid (board_size b) (board_grid b)) ∧
  (∃ pv kv, get_public_view b = Some pv ∧ get_ai_knowledge b = Some kv ∧
     wf_grid (board_size b) pv ∧
     (∀ r c cell, inb (board_size b) r c → grid_get (board_grid b) r c = Some cell →
        grid_get pv r c =
          Some (if decide (cell = HIT) then HIT
                else if decide (cell = MISS) then MISS else EMPTY)) ∧
     (∀ r c, inb (board_size b) r c → grid_get pv r c ≠ Some SHIP) ∧
     (∀ r c, inb (board_size b) r c →
        ∃ v, grid_get kv r c = Some v ∧
             grid_get pv r c = Some (if decide (v = UNKNOWN) then EMPTY else v))).
Proof.
  cbv zeta. split; [exact wf_fleet3|]. apply (get_public_view_spec fleet3 wf_fleet3).
Defined.

Lemma valid_shot_witness :
  let b := fleet3 in
  let r := 0 in
  let c := 0 in
  (wf_grid (board_size b) (board_grid b)) ∧
  (∃ view valid, get_ai_knowledge b = Some view ∧ is_valid_shot b r c = Some valid ∧
     (valid = true ↔ inb (board_size b) r c ∧ grid_get view r c = Some UNKNOWN)).
Proof.
  cbv zeta. split; [exact wf_fleet3|]. apply (valid_shot_iff_unknown fleet3 0 0 wf_fleet3).
Defined.

Lemma receive_shot_reveals_witness :
  let b := fleet3 in
  let b' := hit3 in
  let r := 0 in
  let c := 0 in
  let rep := mkReport true None false in
  let kv := blank3 in
  (wf_grid (board_size b) (board_grid b)) ∧
  (is_valid_shot b r c = Some true) ∧
  (receive_shot b r c = Some (rep, b')) ∧
  (get_ai_knowledge b = Some kv) ∧
  (grid_get kv r c = Some UNKNOWN ∧
   ∃ kv', get_ai_knowledge b' = Some kv' ∧ wf_grid (board_size b) kv' ∧
     ∀ r' c', inb (board_size b) r' c' →
       grid_get kv' r' c' =
         if decide ((r', c') = (r, c)) then Some (if hit rep then HIT else MISS)
         else grid_get kv r' c').
Proof.
  cbv zeta.
  assert (H1 : is_valid_shot fleet3 0 0 = Some true) by (vm_compute; reflexivity).
  assert (H2 : get_ai_knowledge fleet3 = Some blank3) by (vm_compute; reflexivity).
  split; [exact wf_fleet3|]. split; [exact H1|]. split; [exact shot_fleet3|]. split; [exact H2|].
  apply (receive_shot_reveals_one_cell fleet3 hit3 0 0 _ blank3 wf_fleet3 H1 shot_fleet3 H2).
Defined.

Lemma hit_clusters_components_witness :
  let ai := ai10 in
  let k := hit4445 in
  let n := ai_size ai in
  (wf_grid n k) ∧
  (∃ clusters, hit_clusters ai k = Some clusters ∧
     Forall (λ cl : cluster, component n k cl.1 ∧ cl.2 = infer_orientation cl.1) clusters ∧
     (∀ rc, hit_cell n k rc → ∃ cl, cl ∈ clusters ∧ rc ∈ cl.1) ∧
     (∀ i j (ci cj : cluster) rc, clusters !! i = Some ci → clusters !! j = Some cj →
        rc ∈ ci.1 → rc ∈ cj.1 → i = j)).
Proof.
  cbv zeta. split; [exact wf_hit4445|]. apply (hit_clusters_components ai10 hit4445 wf_hit4445).
Defined.

Lemma heatmap_zero_on_misses_witness :
  let ai := ai10 in
  let k := hit44 in
  let ships_arg := @None (list Z) in
  let n := ai_size ai in
  (wf_grid n k) ∧
  (∃ heat, heatmap ai k ships_arg = Some heat ∧ wf_grid n heat ∧
     (∀ r c, inb n r c → 0 ≤ cell_at heat r c) ∧
     (∀ r c, inb n r c → grid_get k r c = Some MISS → cell_at heat r c = 0)).
Proof.
  cbv zeta. split; [exact wf_hit44|]. apply (heatmap_zero_on_misses ai10 hit44 None wf_hit44).
Defined.

Lemma heatmap_boosts_witness :
  let ai := ai10 in
  let k := hit44 in
  let ships_arg := @None (list Z) in
  let a := (4, 4) in
  let b := (4, 5) in
  let n := ai_size ai in
  (wf_grid n k) ∧
  (hit_cell n k a) ∧
  (adjacent a b) ∧
  (inb n b.1 b.2) ∧
  (grid_get k b.1 b.2 = Some UNKNOWN) ∧
  (∃ heat, heatmap ai k ships_arg = Some heat ∧ 3 ≤ cell_at heat b.1 b.2).
Proof.
  cbv zeta.
  assert (H1 : hit_cell 10 hit44 (4, 4)) by (split; [unfold inb; simpl; lia|reflexivity]).
  assert (H2 : adjacent (4, 4) (4, 5)) by (exists (0, 1); split; [right; right; left|reflexivity]).
  assert (H3 : inb 10 4 5) by (unfold inb; lia).
  assert (H4 : grid_get hit44 4 5 = Some UNKNOWN) by reflexivity.
  split; [exact wf_hit44|]. split; [exact H1|]. split; [exact H2|]. split; [exact H3|].
  split; [exact H4|].
  apply (heatmap_boosts_hit_neighbours ai10 hit44 None (4, 4) (4, 5) wf_hit44 H1 H2 H3 H4).
Defined.

Lemma target_candidates_hunt_witness :
  let ai := ai10 in
  let pk := blank10 in
  let ps := blank10 in
  let arg := @None (list Z) in
  let n := ai_size ai in
  (wf_grid n pk) ∧
  (wf_grid n ps) ∧
  ((∀ r c, inb n r c → grid_get pk r c ≠ Some HIT)) ∧
  (hit_clusters ai pk = Some [] ∧ target_candidates ai pk = Some [] ∧
   ∃ heat cands rc,
     heatmap ai pk (Some (remaining_ships ai)) = Some heat ∧
     top_candidates ai heat pk 8 = Some cands ∧
     choose_shot (F:=Q) ai pk ps arg = Some rc ∧ (cands ≠ [] → rc ∈ cands)).
Proof.
  cbv zeta. split; [exact wf_blank10|]. split; [exact wf_blank10|]. split; [exact blank10_no_hit|].
  apply (target_candidates_hunt (F:=Q) ai10 blank10 blank10 None wf_blank10 wf_blank10
           blank10_no_hit).
Defined.

Lemma choose_shot_no_unknown_witness :
  let ai := ai2 in
  let pk := missed2 in
  let ps := blank2 in
  let arg := @None (list Z) in
  let n := ai_size ai in
  (wf_grid n pk) ∧
  (wf_grid n ps) ∧
  ((∀ r c, inb n r c → grid_get pk r c ≠ Some UNKNOWN)) ∧
  (choose_shot (F:=Q) ai pk ps arg = Some (0, 0)).
Proof.
  cbv zeta.
  assert (H1 : wf_grid 2 missed2) by solve_wf. assert (H2 : wf_grid 2 blank2) by solve_wf.
  split; [exact H1|]. split; [exact H2|]. split; [exact missed2_no_unknown|].
  apply (choose_shot_no_unknown (F:=Q) ai2 missed2 blank2 None H1 H2 missed2_no_unknown).
Defined.

Lemma pos_to_cell_center_witness :
  let origin := (30, 30) in
  let r := 2 in
  let c := 3 in
  (inb GRID_SIZE r c) ∧
  (pos_to_cell (cell_center origin r c) origin = Some (r, c)).
Proof.
  cbv zeta. assert (H1 : inb GRID_SIZE 2 3) by (unfold inb, GRID_SIZE; lia).
  split; [exact H1|]. apply (pos_to_cell_center (30, 30) 2 3 H1).
Defined.

Lemma ai_take_shot_witness :
  let g := game3 AiTurn in
  (game_ok g) ∧
  (ship_left (player_board g)) ∧
  (∃ g' rc rep,
     ai_take_shot (F:=Q) g = Some g' ∧
     is_valid_shot (player_board g) rc.1 rc.2 = Some true ∧
     receive_shot (player_board g) rc.1 rc.2 = Some (rep, player_board g') ∧
     last_ai_shot g' = Some rc ∧
     ai_board g' = ai_board g ∧ ai g' = ai g ∧ last_player_shot g' = last_player_shot g ∧
     game_ok g' ∧ (open_total g' + 1 = open_total g)%nat ∧
     (all_ships_sunk (player_board g') = true →
        state g' = GameOver ∧ winner g' = Some WinnerAI) ∧
     (all_ships_sunk (player_board g') = false →
        state g' = (if hit rep then AiTurn else PlayerTurn) ∧ winner g' = winner g)).
Proof.
  cbv zeta. split; [exact (game_ok_game3 AiTurn)|]. split; [exact ship_left_fleet3|].
  apply (ai_take_shot_spec (F:=Q) (game3 AiTurn) (game_ok_game3 AiTurn) ship_left_fleet3).
Defined.


Lemma turn_progress_witness :
  let g := game3 PlayerTurn in
  let g' := after_click3 in
  (game_ok g) ∧
  (turn (F:=Q) g g') ∧
  (game_ok g' ∧ (open_total g' + 1 = open_total g)%nat).
Proof.
  cbv zeta. split; [exact (game_ok_game3 PlayerTurn)|]. split; [exact turn_click3|].
  apply (turn_progress (F:=Q) (game3 PlayerTurn) after_click3 (game_ok_game3 PlayerTurn)
           turn_click3).
Defined.

Lemma game_length_witness :
  let m := 1%nat in
  let g := game3 PlayerTurn in
  let g' := after_click3 in
  (game_ok g) ∧
  (nsteps (turn (F:=Q)) m g g') ∧
  (game_ok g' ∧ (m + open_total g' = open_total g)%nat ∧
   (m ≤ 2 * Z.to_nat (ai_size (ai g) * ai_size (ai g)))%nat).
Proof.
  cbv zeta.
  assert (H1 : nsteps (turn (F:=Q)) 1 (game3 PlayerTurn) after_click3).
  { apply (nsteps_l _ 0 _ after_click3); [exact turn_click3|apply nsteps_O]. }
  split; [exact (game_ok_game3 PlayerTurn)|]. split; [exact H1|].
  apply (game_length_bounded (F:=Q) 1 (game3 PlayerTurn) after_click3
           (game_ok_game3 PlayerTurn) H1).
Defined.


Lemma random_place_all_total_witness :
  let b := new_board 10 in
  let ships := STANDARD_SHIPS in
  let rng := zero_rng in
  (0 < board_size b) ∧
  (roomy (board_size b) 0 ships) ∧
  (∃ b', random_place_all b (Some ships) rng = Some b' ∧
     deployed (board_size b) ships b').
Proof.
  cbv zeta.
  assert (H1 : 0 < board_size (new_board 10)) by (simpl; lia).
  split; [exact H1|]. split; [exact roomy_standard|].
  apply (random_place_all_total (new_board 10) STANDARD_SHIPS zero_rng H1 roomy_standard).
Defined.

Lemma top_candidates_bounds_witness :
  let a := ai2 in
  let heat := heat2 in
  let kn := blank2 in
  let k := 2 in
  let n := ai_size a in
  (wf_grid n heat) ∧
  (wf_grid n kn) ∧
  (0 ≤ k) ∧
  (∃ res, top_candidates a heat kn k = Some res ∧
     Z.of_nat (length res) ≤ k ∧ NoDup res ∧
     ∀ rc, rc ∈ res → inb n rc.1 rc.2 ∧ grid_get kn rc.1 rc.2 = Some UNKNOWN).
Proof.
  cbv zeta.
  assert (H1 : wf_grid 2 heat2) by solve_wf. assert (H2 : wf_grid 2 blank2) by solve_wf.
  split; [exact H1|]. split; [exact H2|]. split; [lia|].
  apply (top_candidates_bounds ai2 heat2 blank2 2 H1 H2). lia.
Defined.


Lemma placement_counts_witness :
  let a := ai10 in
  let k := hit44 in
  let ships_arg := @None (list Z) in
  let n := ai_size a in
  let ships := py_or ships_arg (remaining_ships a) in
  (wf_grid n k) ∧
  (∃ clusters visited base heat,
     hit_clusters a k = Some clusters ∧ clusters_inv n k visited clusters ∧
     heatmap_base a k ships = Some base ∧ wf_grid n base ∧
     heatmap a k ships_arg = Some heat ∧ wf_grid n heat ∧
     (∀ r c, inb n r c →
        heat_value n k clusters ships r c (cell_at base r c) (cell_at heat r c)) ∧
     (∀ length horizontal r0 c0 heat0,
        considered n r0 c0 length horizontal → wf_grid n heat0 →
        ∃ heat1,
          try_placement a k clusters length horizontal r0 c0 heat0 = Some heat1 ∧
          wf_grid n heat1 ∧
          (survives k clusters r0 c0 length horizontal →
             ∀ r c, inb n r c →
               cell_at heat1 r c =
                 cell_at heat0 r c +
                 (if decide ((r, c) ∈ placement_cells r0 c0 length horizontal)
                  then 1 else 0)) ∧
          (¬ survives k clusters r0 c0 length horizontal → heat1 = heat0))).
Proof.
  cbv zeta. split; [exact wf_hit44|].
  apply (placement_counts_iff_survives ai10 hit44 None). exact wf_hit44.
Defined.

Lemma empty_ship_list_witness :
  let a := ai10 in
  let k := hit44 in
  let ps := blank10 in
  let n := ai_size a in
  (wf_grid n k) ∧
  (wf_grid n ps) ∧
  ((∃ clusters visited base heat,
      hit_clusters a k = Some clusters ∧ clusters_inv n k visited clusters ∧
      heatmap_base a k (remaining_ships a) = Some base ∧
      heatmap a k (Some []) = Some heat ∧
      heatmap a k (Some (remaining_ships a)) = Some heat ∧
      ∀ r c, inb n r c →
        heat_value n k clusters (remaining_ships a) r c (cell_at base r c) (cell_at heat r c)) ∧
   (∀ (F : Type) (HF : FloatOps F),
      ∃ clusters_p visited_p base_p heat_p (opp : F) heat tc cands,
        hit_clusters a ps = Some clusters_p ∧ clusters_inv n ps visited_p clusters_p ∧
        heatmap_base a ps STANDARD_SHIPS = Some base_p ∧
        heatmap a ps (Some STANDARD_SHIPS) = Some heat_p ∧
        (∀ r c, inb n r c →
           heat_value n ps clusters_p STANDARD_SHIPS r c
             (cell_at base_p r c) (cell_at heat_p r c)) ∧
        best_counter_gain (F:=F) a ps STANDARD_SHIPS = Some opp ∧
        counter_gain n ps heat_p opp ∧
        heatmap a k (Some (remaining_ships a)) = Some heat ∧
        target_candidates a k = Some tc ∧
        (tc ≠ [] → cands = tc) ∧
        (tc = [] → top_candidates a heat k 8 = Some cands) ∧
        (cands = [] →
           choose_shot (F:=F) a k ps (Some []) = first_unknown k (all_cells n)) ∧
        (∀ first rest, cands = first :: rest →
           choose_shot (F:=F) a k ps (Some []) =
             snd <$> for_each cands (score_candidate heat (grid_total heat) opp)
                       (f_neg_1e9, first)))).
Proof.
  cbv zeta. split; [exact wf_hit44|]. split; [exact wf_blank10|].
  apply (empty_ship_list_falls_back ai10 hit44 blank10); [exact wf_hit44|exact wf_blank10].
Defined.

Lemma choose_shot_follows_up_witness :
  wf_grid 10 hit44 ∧ wf_grid 10 blank10 ∧
  ∃ clusters cl0,
    hit_clusters ai10 hit44 = Some clusters ∧ cl0 ∈ clusters ∧ wanted 10 hit44 cl0 (3, 4) ∧
    ∃ rc cl, choose_shot (F:=Q) ai10 hit44 blank10 None = Some rc ∧
      cl ∈ clusters ∧ wanted 10 hit44 cl rc.
Proof.
  split; [exact wf_hit44|]. split; [exact wf_blank10|].
  assert (H1 : hit_clusters ai10 hit44 = Some [({[(4, 4)]}, None)])
    by (vm_compute; reflexivity).
  assert (H2 : ({[(4, 4)]}, None) ∈ [(({[(4, 4)]} : gset (Z * Z)), @None Orient)]) by left.
  assert (H3 : wanted 10 hit44 ({[(4, 4)]}, None) (3, 4)).
  { split; [unfold inb; simpl; lia|]. split; [reflexivity|].
    exists (4, 4), (-1, 0). split; [apply elem_of_singleton; reflexivity|].
    split; [right; left|reflexivity]. }
  exists [({[(4, 4)]}, None)], ({[(4, 4)]}, None).
  split; [exact H1|]. split; [exact H2|]. split; [exact H3|].
  apply (choose_shot_follows_up_hits (F:=Q) ai10 hit44 blank10 None _ _ (3, 4)
           wf_hit44 wf_blank10 H1 H2 H3).
Defined.
